(** * Periodontal chart: data model, navigation graph, validation, updates

    A shallow embedding of [src/components/dental-periodontal-chart.tsx]
    (and the helper of [src/lib/chart-utils.ts]).

    Modelling conventions.
    - A JavaScript object is the finite map of its own properties
      ([gmap string _]); the prototype chain is not modelled.
    - Strings are Rocq strings (sequences of bytes).
    - A JavaScript number stored in the chart is an integer ([Z]): the
      input components commit only the result of [Number.parseInt],
      clamped.  [NaN] only occurs as the result of [Number.parseInt] and is
      [None] there.  Quotients (the summary statistics) are exact
      rationals ([Q]); on integers of clinical size the double-precision
      quotient rounds to the same decimal.
    - Object identity is modelled where it matters, in [Store]: a heap of
      objects addressed by location. *)

From Stdlib Require Import Ascii ZArith QArith Qabs Qround.
From stdpp Require Import gmap strings list fin_maps pretty.

Local Open Scope string_scope.

(** ** Tooth catalogue *)

(** [TOOTH_GROUPS]: the object's own properties in insertion order. *)
Definition TOOTH_GROUPS : list (string * list string) :=
  [ ("upperRight", ["18"; "17"; "16"; "15"; "14"; "13"; "12"; "11"]);
    ("upperLeft",  ["21"; "22"; "23"; "24"; "25"; "26"; "27"; "28"]);
    ("lowerLeft",  ["31"; "32"; "33"; "34"; "35"; "36"; "37"; "38"]);
    ("lowerRight", ["48"; "47"; "46"; "45"; "44"; "43"; "42"; "41"]) ].

(** [Object.values(TOOTH_GROUPS).flat()] *)
Definition ALL_TEETH : list string := concat (snd <$> TOOTH_GROUPS).

(** The union type ["buccal" | "palatal"]. *)
Inductive Surface := Buccal | Palatal.

Definition surfaceName (s : Surface) : string :=
  match s with Buccal => "buccal" | Palatal => "palatal" end.

#[global] Instance Surface_eq_dec : EqDecision Surface.
Proof. solve_decision. Defined.

(** ** Navigation map *)

Record NavEntry := mkNav { next : string; prev : string; up : string; down : string }.

#[global] Instance NavEntry_eq_dec : EqDecision NavEntry.
Proof. solve_decision. Defined.

(** The local array [fields] of [createNavigationMap]. *)
Definition fields : list string :=
  [ "mobility"; "implant"; "furcation";
    "bleeding_on_probing_distal"; "bleeding_on_probing_mid"; "bleeding_on_probing_mesial";
    "plaque_on_probing_distal"; "plaque_on_probing_mid"; "plaque_on_probing_mesial";
    "gingival_margin_distal"; "gingival_margin_mid"; "gingival_margin_mesial";
    "probing_depth_distal"; "probing_depth_mid"; "probing_depth_mesial";
    "notes" ].

(** [arr[i]] inside a template literal: an index out of range reads
    [undefined], printed as the text "undefined". *)
Definition at_index (arr : list string) (i : nat) : string :=
  default "undefined" (arr !! i).

(** The template literal [`${tooth}-${surface}-${field}`]. *)
Definition cellKey (tooth surface field : string) : string :=
  tooth ++ "-" ++ surface ++ "-" ++ field.

(** The entry stored by the innermost callback of [createNavigationMap]. *)
Definition navEntry (toothIndex : nat) (tooth surface : string)
    (fieldIndex : nat) (field : string) : NavEntry :=
  let nextToothIndex := (toothIndex + 1) `mod` length ALL_TEETH in
  let prevToothIndex :=
    if decide (toothIndex = 0) then length ALL_TEETH - 1 else toothIndex - 1 in
  let nextFieldIndex := (fieldIndex + 1) `mod` length fields in
  let prevFieldIndex :=
    if decide (fieldIndex = 0) then length fields - 1 else fieldIndex - 1 in
  {| next := cellKey (at_index ALL_TEETH nextToothIndex) surface field;
     prev := cellKey (at_index ALL_TEETH prevToothIndex) surface field;
     up := cellKey tooth surface (at_index fields prevFieldIndex);
     down := cellKey tooth surface (at_index fields nextFieldIndex) |}.

(** [arr.forEach((x, i) => ...)] threading the map being filled. *)
Definition forEach {A S : Type} (arr : list A) (body : nat → A → S → S) (st : S) : S :=
  foldl (λ acc ix, body ix.1 ix.2 acc) st (imap pair arr).

Definition createNavigationMap : gmap string NavEntry :=
  forEach ALL_TEETH (λ toothIndex tooth,
    forEach ["buccal"; "palatal"] (λ _ surface,
      forEach fields (λ fieldIndex field navMap,
        let currentKey := cellKey tooth surface field in
        <[currentKey := navEntry toothIndex tooth surface fieldIndex field]> navMap)))
  ∅.

Definition NAVIGATION_MAP : gmap string NavEntry := createNavigationMap.

(** [handleKeyDown] up to the DOM query: the key whose element receives
    focus, [None] where the handler returns early. *)
Definition navigate (currentKey direction : string) : option string :=
  match NAVIGATION_MAP !! currentKey with
  | None => None
  | Some navigation =>
      if decide (direction = "next") then Some (next navigation)
      else if decide (direction = "prev") then Some (prev navigation)
      else if decide (direction = "up") then Some (up navigation)
      else if decide (direction = "down") then Some (down navigation)
      else None
  end.

(** ** Values and objects *)

(** The JavaScript values that can sit in a measurement. *)
Inductive JsVal :=
  | VUndefined
  | VNull
  | VBool (b : bool)
  | VNum (n : Z)
  | VStr (s : string).

#[global] Instance JsVal_eq_dec : EqDecision JsVal.
Proof. solve_decision. Defined.

(** An object: its own properties. *)
Abbreviation Obj := (gmap string JsVal).

(** [obj[field]]: a missing property reads [undefined]. *)
Definition getProp (obj : Obj) (field : string) : JsVal :=
  default VUndefined (obj !! field).

(** [{ ...a, ...b }] where [b] may be [undefined]: the properties of [b]
    override those of [a]; spreading [undefined] adds nothing. *)
Definition spread (a : Obj) (b : option Obj) : Obj :=
  match b with
  | Some b => b ∪ a
  | None => a
  end.

(** JavaScript truthiness ([ToBoolean]). *)
Definition truthy (v : JsVal) : bool :=
  match v with
  | VUndefined | VNull => false
  | VBool b => b
  | VNum n => negb (n =? 0)%Z
  | VStr s => negb (String.eqb s "")
  end.

(** [value === undefined || value === null] *)
Definition isNullish (v : JsVal) : bool :=
  match v with VUndefined | VNull => true | _ => false end.

(** ** Measurements, teeth, chart *)

Definition createDefaultMeasurement : Obj :=
  list_to_map
    [ ("present", VBool true);
      ("mobility", VNum 0);
      ("implant", VBool false);
      ("furcation", VNum 0);
      ("bleeding_on_probing_distal", VBool false);
      ("bleeding_on_probing_mid", VBool false);
      ("bleeding_on_probing_mesial", VBool false);
      ("plaque_on_probing_distal", VBool false);
      ("plaque_on_probing_mid", VBool false);
      ("plaque_on_probing_mesial", VBool false);
      ("gingival_margin_distal", VNum 0);
      ("gingival_margin_mid", VNum 0);
      ("gingival_margin_mesial", VNum 0);
      ("probing_depth_distal", VNum 0);
      ("probing_depth_mid", VNum 0);
      ("probing_depth_mesial", VNum 0);
      ("notes", VStr "") ].

Record ToothData := mkTooth { buccal : Obj; palatal : Obj }.

(** [toothData[surface]] and [{ ...toothData, [surface]: m }] *)
Definition getSurface (td : ToothData) (surface : Surface) : Obj :=
  match surface with Buccal => buccal td | Palatal => palatal td end.

Definition setSurface (td : ToothData) (surface : Surface) (m : Obj) : ToothData :=
  match surface with
  | Buccal => {| buccal := m; palatal := palatal td |}
  | Palatal => {| buccal := buccal td; palatal := m |}
  end.

Abbreviation Chart := (gmap string ToothData).

(** An entry of [initialValues]: either surface may be missing. *)
Record PartialToothData := mkPartial { buccal_opt : option Obj; palatal_opt : option Obj }.

Definition getSurface_opt (p : PartialToothData) (surface : Surface) : option Obj :=
  match surface with Buccal => buccal_opt p | Palatal => palatal_opt p end.

(** ** Chart initialisation: the [useState] initialiser of [PeriodontalChart] *)

Definition initialChart (initialValues : gmap string PartialToothData) : Chart :=
  forEach ALL_TEETH (λ _ tooth data,
    <[tooth := {| buccal := spread createDefaultMeasurement (initialValues !! tooth ≫= buccal_opt);
                  palatal := spread createDefaultMeasurement (initialValues !! tooth ≫= palatal_opt) |}]>
      data)
  ∅.

(** ** Validation *)

Record Rule := mkRule { min : Z; max : Z; required : bool }.

(** [VALIDATION_RULES], a [Map] iterated in insertion order. *)
Definition VALIDATION_RULES : list (string * Rule) :=
  [ ("mobility", mkRule 0 3 true);
    ("furcation", mkRule 0 3 true);
    ("gingival_margin_distal", mkRule (-10) 10 true);
    ("gingival_margin_mid", mkRule (-10) 10 true);
    ("gingival_margin_mesial", mkRule (-10) 10 true);
    ("probing_depth_distal", mkRule 0 15 true);
    ("probing_depth_mid", mkRule 0 15 true);
    ("probing_depth_mesial", mkRule 0 15 true) ].

(** [typeof value === "number" && (value < rule.min || value > rule.max)] *)
Definition outOfRange (rule : Rule) (value : JsVal) : bool :=
  match value with
  | VNum n => (n <? min rule)%Z || (max rule <? n)%Z
  | _ => false
  end.

(** One iteration of the loop of [validateToothData]. *)
Definition validateField (data : Obj) (errors : gset string) (entry : string * Rule) : gset string :=
  let '(field, rule) := entry in
  let value := getProp data field in
  let errors :=
    if required rule && isNullish value then {[ field ++ "_required" ]} ∪ errors else errors in
  if outOfRange rule value then {[ field ++ "_range" ]} ∪ errors else errors.

Definition validateToothData (data : Obj) : gset string :=
  foldl (validateField data) ∅ VALIDATION_RULES.

(** The template literal [`${tooth}-${surface}`]. *)
Definition surfaceKey (tooth : string) (surface : Surface) : string :=
  tooth ++ "-" ++ surfaceName surface.

(** The memoised [validationErrors]. *)
Definition validationErrors (chartData : Chart) : gmap string (gset string) :=
  forEach ALL_TEETH (λ _ tooth,
    forEach [Buccal; Palatal] (λ _ surface errors,
      match (λ td, getSurface td surface) <$> chartData !! tooth with
      | Some data =>
          let toothErrors := validateToothData data in
          if decide (0 < size toothErrors) then <[surfaceKey tooth surface := toothErrors]> errors
          else errors
      | None => errors
      end))
  ∅.

Definition isDataValid (chartData : Chart) : bool :=
  bool_decide (size (validationErrors chartData) = 0).

(** ** Update *)

(** The state updater passed to [setChartData] by [handleUpdate]. *)
Definition handleUpdate (tooth : string) (surface : Surface) (field : string) (value : JsVal)
    (prev : Chart) : Chart :=
  let newData := prev in
  let newData :=
    match newData !! tooth with
    | None => <[tooth := {| buccal := createDefaultMeasurement;
                            palatal := createDefaultMeasurement |}]> newData
    | Some _ => newData
    end in
  match newData !! tooth with
  | Some td => <[tooth := setSurface td surface (<[field := value]> (getSurface td surface))]> newData
  | None => newData
  end.

(** ** Update on the store of objects

    [handleUpdate] once more, now with object identity: the chart object
    refers to its tooth objects, and a tooth object to its two measurement
    objects.  A location is an index into the heap; allocation appends.
    Only the equality of locations is observable, as for JavaScript
    references. *)

Module Store.

Abbreviation loc := nat.

Inductive Object :=
  | MeasurementObj (props : Obj)
  | ToothObj (buccal_ref palatal_ref : loc)
  | ChartObj (teeth : gmap string loc).

Abbreviation Heap := (list Object).

(** Computations on the heap that may get stuck on an ill-typed reference. *)
Definition M (A : Type) : Type := Heap → option (A * Heap).

Definition ret {A} (a : A) : M A := λ h, Some (a, h).

Definition bind {A B} (m : M A) (k : A → M B) : M B :=
  λ h, match m h with
       | Some (a, h') => k a h'
       | None => None
       end.

Notation "'let!' x ':=' m 'in' k" := (bind m (λ x, k))
  (at level 10, x name, m at level 100, k at level 200).

Definition alloc (o : Object) : M loc := λ h, Some (length h, (h ++ [o])%list).

Definition loadMeasurement (l : loc) : M Obj :=
  λ h, match h !! l with Some (MeasurementObj m) => Some (m, h) | _ => None end.

Definition loadTooth (l : loc) : M (loc * loc) :=
  λ h, match h !! l with Some (ToothObj b p) => Some ((b, p), h) | _ => None end.

Definition loadChart (l : loc) : M (gmap string loc) :=
  λ h, match h !! l with Some (ChartObj teeth) => Some (teeth, h) | _ => None end.

(** [chart[tooth] = ref], an assignment to a property of the object at [l]. *)
Definition setTooth (l : loc) (tooth : string) (ref : loc) : M unit :=
  λ h, match h !! l with
       | Some (ChartObj teeth) => Some (tt, <[l := ChartObj (<[tooth := ref]> teeth)]> h)
       | _ => None
       end.

Definition surfaceRef (refs : loc * loc) (surface : Surface) : loc :=
  match surface with Buccal => refs.1 | Palatal => refs.2 end.

Definition withSurfaceRef (refs : loc * loc) (surface : Surface) (l : loc) : Object :=
  match surface with
  | Buccal => ToothObj l refs.2
  | Palatal => ToothObj refs.1 l
  end.

(** [if (!newData[tooth]) { newData[tooth] = { buccal: ..., palatal: ... } }] *)
Definition ensureTooth (newData : loc) (tooth : string) : M unit :=
  let! teeth := loadChart newData in
  match teeth !! tooth with
  | None =>
      let! b := alloc (MeasurementObj createDefaultMeasurement) in
      let! p := alloc (MeasurementObj createDefaultMeasurement) in
      let! t := alloc (ToothObj b p) in
      setTooth newData tooth t
  | Some _ => ret tt
  end.

(** [newData[tooth] = { ...newData[tooth],
                        [surface]: { ...newData[tooth][surface], [field]: value } }];
    reading a property of [undefined] throws. *)
Definition replaceField (newData : loc) (tooth : string) (surface : Surface)
    (field : string) (value : JsVal) : M unit :=
  let! teeth := loadChart newData in
  match teeth !! tooth with
  | None => λ _, None
  | Some t =>
      let! refs := loadTooth t in
      let! m := loadMeasurement (surfaceRef refs surface) in
      let! m' := alloc (MeasurementObj (<[field := value]> m)) in
      let! t' := alloc (withSurfaceRef refs surface m') in
      setTooth newData tooth t'
  end.

Definition handleUpdate (tooth : string) (surface : Surface) (field : string) (value : JsVal)
    (prev : loc) : M loc :=
  let! teeth := loadChart prev in
  let! newData := alloc (ChartObj teeth) in
  let! _ := ensureTooth newData tooth in
  let! _ := replaceField newData tooth surface field value in
  ret newData.

(** The value a reference stands for. *)
Definition readMeasurement (h : Heap) (l : loc) : option Obj :=
  match h !! l with Some (MeasurementObj m) => Some m | _ => None end.

Definition readTooth (h : Heap) (l : loc) : option ToothData :=
  match h !! l with
  | Some (ToothObj b p) =>
      match readMeasurement h b, readMeasurement h p with
      | Some mb, Some mp => Some {| buccal := mb; palatal := mp |}
      | _, _ => None
      end
  | _ => None
  end.

(** The reference stored for a tooth in the chart object at [l]. *)
Definition toothRef (h : Heap) (l : loc) (tooth : string) : option loc :=
  match h !! l with Some (ChartObj teeth) => teeth !! tooth | _ => None end.

(** The measurement reference a tooth entry of the chart at [l] holds. *)
Definition measurementRef (h : Heap) (l : loc) (tooth : string) (surface : Surface)
    : option loc :=
  match toothRef h l tooth with
  | Some t =>
      match h !! t with
      | Some (ToothObj b p) => Some (surfaceRef (b, p) surface)
      | _ => None
      end
  | None => None
  end.

(** The object at [l] is a chart object standing for the chart [c]. *)
Definition represents (h : Heap) (l : loc) (c : Chart) : Prop :=
  ∃ teeth, h !! l = Some (ChartObj teeth) ∧
    ∀ tooth, c !! tooth = teeth !! tooth ≫= readTooth h
             ∧ (is_Some (teeth !! tooth) → is_Some (c !! tooth)).

End Store.

(** ** Input components *)

(** [Number.parseInt] on text, radix not given.  [None] is [NaN].  Leading
    white space is the ASCII white space. *)
Definition isWhiteSpace (c : ascii) : bool :=
  let n := N_of_ascii c in
  ((9 <=? n) && (n <=? 13) || (n =? 32))%N.

Fixpoint trimStart (s : string) : string :=
  match s with
  | String c r => if isWhiteSpace c then trimStart r else s
  | EmptyString => s
  end.

Definition digitValue (c : ascii) : option Z :=
  let n := Z.of_N (N_of_ascii c) in
  if ((48 <=? n) && (n <=? 57))%Z then Some (n - 48)%Z
  else if ((97 <=? n) && (n <=? 122))%Z then Some (n - 87)%Z
  else if ((65 <=? n) && (n <=? 90))%Z then Some (n - 55)%Z
  else None.

(** The longest prefix of digits of the radix, and what follows it. *)
Fixpoint radixDigits (radix : Z) (s : string) : list Z * string :=
  match s with
  | String c r =>
      match digitValue c with
      | Some d =>
          if (d <? radix)%Z
          then let '(ds, rest) := radixDigits radix r in (d :: ds, rest)
          else ([], s)
      | None => ([], s)
      end
  | EmptyString => ([], s)
  end.

Definition mathInt (radix : Z) (digits : list Z) : Z :=
  foldl (λ acc d, acc * radix + d)%Z 0%Z digits.

(** A leading sign, and the text after it. *)
Definition stripSign (text : string) : Z * string :=
  match text with
  | String c r =>
      if (c =? "-")%char then ((-1)%Z, r)
      else if (c =? "+")%char then (1%Z, r)
      else (1%Z, text)
  | EmptyString => (1%Z, text)
  end.

(** The radix, 16 after a leading "0x" or "0X" and 10 otherwise, and the
    text after the prefix. *)
Definition stripPrefix (text : string) : Z * string :=
  match text with
  | String c0 (String c1 r) =>
      if (c0 =? "0")%char && ((c1 =? "x")%char || (c1 =? "X")%char) then (16%Z, r)
      else (10%Z, text)
  | _ => (10%Z, text)
  end.

Definition parseInt (input : string) : option Z :=
  let '(sign, text) := stripSign (trimStart input) in
  let '(radix, text) := stripPrefix text in
  match (radixDigits radix text).1 with
  | [] => None
  | digits => Some (sign * mathInt radix digits)%Z
  end.

(** [a || b] *)
Definition jsOr (a b : JsVal) : JsVal := if truthy a then a else b.

(** The commit effect of [CompactNumberInput], run on the debounced text:
    the argument of the [onChange] call, [None] when it makes no call. *)
Definition numberInputEffect (min max : Z) (value : JsVal) (debouncedValue : string)
    : option Z :=
  let numValue := default 0%Z (parseInt debouncedValue) in
  let clampedValue := Z.max min (Z.min max numValue) in
  if decide (VNum clampedValue ≠ value) then Some clampedValue else None.

(** The [min] and [max] that [ToothSection] passes to each number input;
    [None] where it passes none. *)
Definition numberInputProps : list (string * (option Z * option Z)) :=
  [ ("mobility", (None, Some 3%Z));
    ("furcation", (None, Some 3%Z));
    ("gingival_margin_distal", (Some (-10)%Z, Some 10%Z));
    ("gingival_margin_mid", (Some (-10)%Z, Some 10%Z));
    ("gingival_margin_mesial", (Some (-10)%Z, Some 10%Z));
    ("probing_depth_distal", (None, Some 15%Z));
    ("probing_depth_mid", (None, Some 15%Z));
    ("probing_depth_mesial", (None, Some 15%Z)) ].

(** A number cell of [ToothSection] committing the debounced text: the
    props default to [min = 0] and [max = 15], the current value is
    [chartData[tooth]?.[surfaceType]?.field || 0], and [onChange] is
    [onUpdate(tooth, surfaceType, field, value)]. *)
Definition commitNumber (tooth : string) (surface : Surface) (field : string)
    (props : option Z * option Z) (debouncedValue : string) (chartData : Chart) : Chart :=
  let min := default 0%Z props.1 in
  let max := default 15%Z props.2 in
  let value :=
    jsOr (default VUndefined ((λ td, getProp (getSurface td surface) field) <$> chartData !! tooth))
         (VNum 0) in
  match numberInputEffect min max value debouncedValue with
  | Some clampedValue => handleUpdate tooth surface field (VNum clampedValue) chartData
  | None => chartData
  end.

(** [text.slice(0, n)] *)
Fixpoint slice0 (n : nat) (s : string) : string :=
  match n, s with
  | S n, String c r => String c (slice0 n r)
  | _, _ => EmptyString
  end.

(** The commit effect of [CompactTextInput]. *)
Definition textInputEffect (value : JsVal) (debouncedValue : string) : option string :=
  if decide (VStr debouncedValue ≠ value) then Some (slice0 100 debouncedValue) else None.

(** The notes cell of [ToothSection] committing the debounced text. *)
Definition commitText (tooth : string) (surface : Surface) (debouncedValue : string)
    (chartData : Chart) : Chart :=
  let value :=
    jsOr (default VUndefined ((λ td, getProp (getSurface td surface) "notes") <$> chartData !! tooth))
         (VStr "") in
  match textInputEffect value debouncedValue with
  | Some text => handleUpdate tooth surface "notes" (VStr text) chartData
  | None => chartData
  end.

(** ** Summary statistics *)

(** [calculateAttachmentLevel] of [chart-utils.ts]. *)
Definition calculateAttachmentLevel (gingivalMargin probingDepth : Z) : Z :=
  (gingivalMargin + probingDepth)%Z.

(** The accumulator [stats] of [summaryStats]. *)
Record Stats := mkStats {
  depths : list JsVal;
  margins : list JsVal;
  plaqueCount : nat;
  bleedingCount : nat;
  totalSites : nat }.

(** The body of [if (data) { ... }]. *)
Definition collectSite (data : Obj) (stats : Stats) : Stats :=
  {| depths := depths stats ++ [ getProp data "probing_depth_distal";
                                 getProp data "probing_depth_mid";
                                 getProp data "probing_depth_mesial" ];
     margins := margins stats ++ [ getProp data "gingival_margin_distal";
                                   getProp data "gingival_margin_mid";
                                   getProp data "gingival_margin_mesial" ];
     plaqueCount :=
       if truthy (jsOr (jsOr (getProp data "plaque_on_probing_distal")
                             (getProp data "plaque_on_probing_mid"))
                       (getProp data "plaque_on_probing_mesial"))
       then S (plaqueCount stats) else plaqueCount stats;
     bleedingCount :=
       if truthy (jsOr (jsOr (getProp data "bleeding_on_probing_distal")
                             (getProp data "bleeding_on_probing_mid"))
                       (getProp data "bleeding_on_probing_mesial"))
       then S (bleedingCount stats) else bleedingCount stats;
     totalSites := S (totalSites stats) |}.

Definition collectStats (chartData : Chart) : Stats :=
  forEach ALL_TEETH (λ _ tooth,
    forEach [Buccal; Palatal] (λ _ surface stats,
      match (λ td, getSurface td surface) <$> chartData !! tooth with
      | Some data => collectSite data stats
      | None => stats
      end))
  {| depths := []; margins := []; plaqueCount := 0; bleedingCount := 0; totalSites := 0 |}.

(** [xs.reduce((a, b) => a + b, 0)] on numbers.  The sum involving a value
    that is not a number is outside the model: [None]. *)
Definition sumNumbers (xs : list JsVal) : option Z :=
  foldl (λ acc x, match acc, x with
                  | Some a, VNum b => Some (a + b)%Z
                  | _, _ => None
                  end) (Some 0%Z) xs.

(** [xs.length > 0 ? xs.reduce(...) / xs.length : 0] *)
Definition meanOf (xs : list JsVal) : option Q :=
  if decide (0 < length xs)
  then (λ total, total # Pos.of_nat (length xs)) <$> sumNumbers xs
  else Some 0%Q.

(** [x.toFixed(fractionDigits)] for [|x| < 10^21]: the nearest decimal with
    that many fraction digits, the larger one on a tie, after the sign. *)
Definition toFixed (fractionDigits : nat) (x : Q) : string :=
  let negative := bool_decide (Qnum x < 0)%Z in
  let x := Qabs x in
  let n := Qfloor (x * inject_Z (10 ^ Z.of_nat fractionDigits) + (1 # 2)) in
  let m := pretty (Z.to_N n) in
  let m :=
    if decide (fractionDigits = 0) then m
    else
      let m := if decide (String.length m ≤ fractionDigits)%nat
               then String.concat "" (replicate (fractionDigits + 1 - String.length m) "0") ++ m
               else m in
      let k := String.length m in
      String.substring 0 (k - fractionDigits) m ++ "."
        ++ String.substring (k - fractionDigits) fractionDigits m in
  (if negative then "-" else "") ++ m.

Record Summary := mkSummary {
  meanDepth : option string;
  meanMargin : option string;
  plaquePercent : string;
  bleedingPercent : string }.

Definition summaryStats (chartData : Chart) : Summary :=
  let stats := collectStats chartData in
  let meanDepth := meanOf (depths stats) in
  let meanMargin := meanOf (margins stats) in
  {| meanDepth := toFixed 1 <$> meanDepth;
     meanMargin := toFixed 1 <$> meanMargin;
     plaquePercent :=
       if decide (0 < totalSites stats)
       then toFixed 0 ((Z.of_nat (plaqueCount stats) # Pos.of_nat (totalSites stats)) * 100)
       else "0";
     bleedingPercent :=
       if decide (0 < totalSites stats)
       then toFixed 0 ((Z.of_nat (bleedingCount stats) # Pos.of_nat (totalSites stats)) * 100)
       else "0" |}.

(** The summary panel: each label with the statistic rendered next to it. *)
Definition summaryPanel (s : Summary) : list (string * option string) :=
  [ ("Mean Probing Depth", meanDepth s);
    ("Mean Attachment Level", meanMargin s);
    ("Plaque", Some (plaquePercent s));
    ("Bleeding", Some (bleedingPercent s)) ].

(** ** Submission *)

(** A call of one of the host's callbacks. *)
Inductive Call :=
  | OnSubmit (data : Chart)
  | OnChange (data : Chart).

(** [handleSubmit]: the calls it makes and the chart state it leaves.
    [onSubmit] tells whether the optional callback was supplied. *)
Definition handleSubmit (onSubmit : bool) (chartData : Chart) : list Call * Chart :=
  if isDataValid chartData
  then ((if onSubmit then [OnSubmit chartData] else []), chartData)
  else ([], chartData).

(** ** Vocabulary of the navigation properties *)

(** The cell at tooth-index [i] and field-index [j] of surface [s]. *)
Definition cellAt (i : Z) (s : Surface) (j : Z) : string :=
  cellKey (at_index ALL_TEETH (Z.to_nat i)) (surfaceName s) (at_index fields (Z.to_nat j)).

(** The entry that modular wrap-around on both axes prescribes. *)
Definition wrapEntry (i : Z) (s : Surface) (j : Z) : NavEntry :=
  {| next := cellAt ((i + 1) `mod` 32)%Z s j;
     prev := cellAt ((i - 1 + 32) `mod` 32)%Z s j;
     up := cellAt i s ((j - 1 + 16) `mod` 16)%Z;
     down := cellAt i s ((j + 1) `mod` 16)%Z |}.

(** Where an entry of the map comes from: the callback invocation that
    stored it. *)
Definition fromGrid (k : string) (e : NavEntry) : Prop :=
  ∃ i tooth s j field,
    ALL_TEETH !! i = Some tooth ∧ fields !! j = Some field ∧
    k = cellKey tooth (surfaceName s) field ∧
    e = navEntry i tooth (surfaceName s) j field.

(** The cells of one surface: keys built from a catalogue tooth, the
    surface's name and a field of the field order. *)
Definition onSurface (s : Surface) (k : string) : Prop :=
  ∃ tooth field, tooth ∈ ALL_TEETH ∧ field ∈ fields ∧ k = cellKey tooth (surfaceName s) field.

Definition directions : list string := ["next"; "prev"; "up"; "down"].

(** The boolean flags of a measurement other than [present]. *)
Definition flagFields : list string :=
  [ "implant";
    "bleeding_on_probing_distal"; "bleeding_on_probing_mid"; "bleeding_on_probing_mesial";
    "plaque_on_probing_distal"; "plaque_on_probing_mid"; "plaque_on_probing_mesial" ].

(** ** Vocabulary of the validation properties *)

#[global] Instance Rule_eq_dec : EqDecision Rule.
Proof. solve_decision. Defined.

(** The field has no value. *)
Definition absent (v : JsVal) : Prop := v = VUndefined ∨ v = VNull.

(** The field holds a number strictly outside the rule's domain. *)
Definition strictlyOutside (rule : Rule) (v : JsVal) : Prop :=
  ∃ n, v = VNum n ∧ (n < min rule ∨ max rule < n)%Z.

(** What one rule contributes to the violation set. *)
Definition emits (data : Obj) (field : string) (rule : Rule) (code : string) : Prop :=
  (code = field ++ "_required" ∧ required rule = true ∧ absent (getProp data field))
  ∨ (code = field ++ "_range" ∧ strictlyOutside rule (getProp data field)).

Definition gingivalMarginFields : list string :=
  ["gingival_margin_distal"; "gingival_margin_mid"; "gingival_margin_mesial"].

Definition probingDepthFields : list string :=
  ["probing_depth_distal"; "probing_depth_mid"; "probing_depth_mesial"].

(** The entry that the measurement of [tooth] on surface [s] puts into the
    chart-level result: present exactly when it has a violation. *)
Definition errorsFor (c : Chart) (tooth : string) (s : Surface)
    (k : string) (E : gset string) : Prop :=
  ∃ td, c !! tooth = Some td ∧ k = surfaceKey tooth s ∧
        E = validateToothData (getSurface td s) ∧ E ≠ ∅.

(** Every rule field holds a number within its domain. *)
Definition inRange (m : Obj) : Prop :=
  ∀ field rule, (field, rule) ∈ VALIDATION_RULES →
    ∃ n, getProp m field = VNum n ∧ (min rule ≤ n ≤ max rule)%Z.

(** ** Vocabulary of the update properties *)

(** Every object of [h] is still there, unchanged, in [h']. *)
Definition extends (h h' : Store.Heap) : Prop :=
  ∀ l o, h !! l = Some o → h' !! l = Some o.

(** The same, but for the object at [nd], which may have been assigned to. *)
Definition extendsExcept (nd : Store.loc) (h h' : Store.Heap) : Prop :=
  ∀ l o, l ≠ nd → h !! l = Some o → h' !! l = Some o.

Definition otherSurface (s : Surface) : Surface :=
  match s with Buccal => Palatal | Palatal => Buccal end.

(** ** Vocabulary of the input properties *)

(** The number an unsigned plain decimal text denotes: digits, and
    optionally a point and digits, with a digit somewhere; [None] for any
    other text. *)
Definition decimalMagnitude (body : string) : option Q :=
  let '(ip, rest) := radixDigits 10 body in
  match rest with
  | EmptyString =>
      match ip with [] => None | _ => Some (inject_Z (mathInt 10 ip)) end
  | String c fr =>
      if (c =? ".")%char
      then let '(fp, rest') := radixDigits 10 fr in
           match rest', (ip ++ fp)%list with
           | EmptyString, _ :: _ =>
               Some (inject_Z (mathInt 10 ip)
                     + (mathInt 10 fp # Z.to_pos (10 ^ Z.of_nat (length fp))))%Q
           | _, _ => None
           end
      else None
  end.

(** The same with an optional minus sign in front. *)
Definition decimalValue (text : string) : option Q :=
  match text with
  | String c r =>
      if (c =? "-")%char then Qopp <$> decimalMagnitude r else decimalMagnitude text
  | EmptyString => None
  end.

(** Rounding toward zero. *)
Definition Qtruncate (q : Q) : Z := (Qnum q ÷ Z.pos (Qden q))%Z.

(** The stored number in the wording with [floor]:
    [max(min, min(max, floor(v)))], non-numeric text counting as 0. *)
Definition floorClamp (min max : Z) (text : string) : Z :=
  Z.max min (Z.min max (match decimalValue text with Some q => Qfloor q | None => 0%Z end)).

(** The number held by a field of the chart, if it holds one. *)
Definition storedNumber (c : Chart) (tooth : string) (surface : Surface) (field : string)
    : option Z :=
  match c !! tooth with
  | Some td => match getProp (getSurface td surface) field with
               | VNum n => Some n
               | _ => None
               end
  | None => None
  end.

(** ** Vocabulary of the summary properties *)

(** The site records of the chart, in catalogue order: for each tooth that
    has an entry, its buccal and its palatal measurement. *)
Definition sitesOf (c : Chart) (teeth : list string) : list Obj :=
  teeth ≫= λ tooth, match c !! tooth with
                    | Some td => [buccal td; palatal td]
                    | None => []
                    end.

Definition sites (c : Chart) : list Obj := sitesOf c ALL_TEETH.

Definition siteMargins (m : Obj) : list JsVal :=
  [ getProp m "gingival_margin_distal"; getProp m "gingival_margin_mid";
    getProp m "gingival_margin_mesial" ].

Definition siteDepths (m : Obj) : list JsVal :=
  [ getProp m "probing_depth_distal"; getProp m "probing_depth_mid";
    getProp m "probing_depth_mesial" ].

(** Some plaque flag, respectively some bleeding flag, of the site is set. *)
Definition anyPlaque (m : Obj) : bool :=
  truthy (getProp m "plaque_on_probing_distal")
  || truthy (getProp m "plaque_on_probing_mid")
  || truthy (getProp m "plaque_on_probing_mesial").

Definition anyBleeding (m : Obj) : bool :=
  truthy (getProp m "bleeding_on_probing_distal")
  || truthy (getProp m "bleeding_on_probing_mid")
  || truthy (getProp m "bleeding_on_probing_mesial").

Definition sitesWith (p : Obj → bool) (ms : list Obj) : nat :=
  length (List.filter p ms).

(** Every catalogue tooth has an entry. *)
Definition fullyPopulated (c : Chart) : Prop :=
  ∀ tooth, tooth ∈ ALL_TEETH → is_Some (c !! tooth).

Definition sumList (zs : list Z) : Z := foldr Z.add 0%Z zs.

(** ** Sample charts *)

(** The default chart with a plaque flag set on both surfaces of the first
    eight catalogue teeth: 16 of the 64 sites. *)
Definition plaqueOnFirstEight : Chart :=
  foldr (λ tooth c,
           handleUpdate tooth Buccal "plaque_on_probing_mid" (VBool true)
             (handleUpdate tooth Palatal "plaque_on_probing_distal" (VBool true) c))
        (initialChart ∅) (take 8 ALL_TEETH).

(** Every probing depth 3, every gingival margin 0. *)
Definition allDepthsThree : Chart :=
  let pockets : Obj :=
    {[ "probing_depth_distal" := VNum 3; "probing_depth_mid" := VNum 3;
       "probing_depth_mesial" := VNum 3 ]} in
  initialChart
    (list_to_map ((λ tooth, (tooth, {| buccal_opt := Some pockets;
                                       palatal_opt := Some pockets |})) <$> ALL_TEETH)).

(** The default chart with one probing depth forced to 20. *)
Definition oneDepthTwenty : Chart :=
  initialChart {[ "18" := {| buccal_opt := Some {[ "probing_depth_mid" := VNum 20 ]};
                             palatal_opt := None |} ]}.

(** ** Vocabulary of the further navigation properties *)

(** The key reached by pressing the same direction [n] times. *)
Fixpoint navigateN (n : nat) (direction : string) (key : string) : option string :=
  match n with
  | 0 => Some key
  | S n => navigate key direction ≫= navigateN n direction
  end.

(** The direction that undoes a direction. *)
Definition opposite (direction : string) : string :=
  if decide (direction = "next") then "prev"
  else if decide (direction = "prev") then "next"
  else if decide (direction = "up") then "down"
  else if decide (direction = "down") then "up"
  else direction.

(** The number of cells on the axis of a direction: teeth for [next] and
    [prev], fields for [up] and [down]. *)
Definition axisLength (direction : string) : nat :=
  if decide (direction = "next") then length ALL_TEETH
  else if decide (direction = "prev") then length ALL_TEETH
  else length fields.

(** ** Vocabulary of the further update properties *)

(** One call of [handleUpdate]: tooth, surface, field, value. *)
Record Edit := mkEdit {
  editTooth : string; editSurface : Surface; editField : string; editValue : JsVal }.

(** The chart state after the updaters of successive edits. *)
Definition applyEdits (edits : list Edit) (c : Chart) : Chart :=
  foldl (λ c e, handleUpdate (editTooth e) (editSurface e) (editField e) (editValue e) c)
        c edits.

(** The same edits on the store of objects, each run on the chart object
    the one before returned. *)
Fixpoint runEdits (edits : list Edit) (prev : Store.loc) : Store.M Store.loc :=
  match edits with
  | [] => Store.ret prev
  | e :: edits =>
      Store.bind
        (Store.handleUpdate (editTooth e) (editSurface e) (editField e) (editValue e) prev)
        (runEdits edits)
  end.

(** ** Vocabulary of the further validation properties *)

(** The violations of the measurement of a tooth on a surface, none when
    the chart has no entry for the tooth. *)
Definition violationsAt (c : Chart) (tooth : string) (s : Surface) : gset string :=
  default ∅ ((λ td, validateToothData (getSurface td s)) <$> c !! tooth).


(** ** Cells of [ToothSection] *)

(** The [value] prop of a number cell:
    [chartData[tooth]?.[surfaceType]?.field || 0]. *)
Definition numberCellValue (chartData : Chart) (tooth : string) (surface : Surface)
    (field : string) : JsVal :=
  jsOr (default VUndefined ((λ td, getProp (getSurface td surface) field) <$> chartData !! tooth))
       (VNum 0).

(** The [value] prop of the notes cell:
    [chartData[tooth]?.[surfaceType]?.notes || ""]. *)
Definition notesCellValue (chartData : Chart) (tooth : string) (surface : Surface) : JsVal :=
  jsOr (default VUndefined ((λ td, getProp (getSurface td surface) "notes") <$> chartData !! tooth))
       (VStr "").

(** The [checked] prop of a checkbox cell:
    [chartData[tooth]?.[surfaceType]?.field || false]. *)
Definition checkboxCellValue (chartData : Chart) (tooth : string) (surface : Surface)
    (field : string) : JsVal :=
  jsOr (default VUndefined ((λ td, getProp (getSurface td surface) field) <$> chartData !! tooth))
       (VBool false).



(** ** Rendered grid and keyboard *)

(** [TOOTH_GROUPS.name] *)
Definition toothGroup (name : string) : list string :=
  default [] (snd <$> head (filter (λ g, g.1 = name) TOOTH_GROUPS)).

(** The input components. *)
Inductive CellKind := NumberCell | CheckboxCell | TextCell.

#[global] Instance CellKind_eq_dec : EqDecision CellKind.
Proof. solve_decision. Defined.

(** The rows of [ToothSection] in document order: the label, the component
    and the fields of the cells that one tooth has in the row. *)
Definition sectionRows : list (string * CellKind * list string) :=
  [ ("Mobility", NumberCell, ["mobility"]);
    ("Implant", CheckboxCell, ["implant"]);
    ("Furcation", NumberCell, ["furcation"]);
    ("Bleeding", CheckboxCell,
       ["bleeding_on_probing_distal"; "bleeding_on_probing_mid"; "bleeding_on_probing_mesial"]);
    ("Plaque", CheckboxCell,
       ["plaque_on_probing_distal"; "plaque_on_probing_mid"; "plaque_on_probing_mesial"]);
    ("Gingival Margin", NumberCell,
       ["gingival_margin_distal"; "gingival_margin_mid"; "gingival_margin_mesial"]);
    ("Probing Depth", NumberCell,
       ["probing_depth_distal"; "probing_depth_mid"; "probing_depth_mesial"]);
    ("Notes", TextCell, ["notes"]) ].

(** The [ToothSection]s of the chart in document order. *)
Definition sections : list (string * Surface) :=
  [ ("upperRight", Buccal); ("upperLeft", Buccal);
    ("upperRight", Palatal); ("upperLeft", Palatal);
    ("lowerLeft", Palatal); ("lowerRight", Palatal);
    ("lowerLeft", Buccal); ("lowerRight", Buccal) ].

(** The cells of the chart in document order: the [data-field-key] of the
    element and its component. *)
Definition renderedCells : list (string * CellKind) :=
  '(group, surfaceType) ← sections;
  '(_, kind, cellFields) ← sectionRows;
  tooth ← toothGroup group;
  field ← cellFields;
  [(cellKey tooth (surfaceName surfaceType) field, kind)].

Definition renderedKeys : list string := renderedCells.*1.

(** What the key handlers read of a [React.KeyboardEvent]. *)
Record KeyboardEvent := mkKeyboardEvent { key : string; shiftKey : bool }.

(** What a key handler does: [e.preventDefault()], [onKeyDown(fieldKey,
    direction)], [onChange(checked)]. *)
Inductive KeyEffect :=
  | PreventDefault
  | OnKeyDown (fieldKey direction : string)
  | OnChangeChecked (checked : JsVal).

#[global] Instance KeyEffect_eq_dec : EqDecision KeyEffect.
Proof. solve_decision. Defined.

(** [handleKeyDown] of [CompactNumberInput]. *)
Definition numberKeyDown (fieldKey : string) (e : KeyboardEvent) : list KeyEffect :=
  if decide (key e = "ArrowRight" ∨ key e = "Tab") then
    if negb (shiftKey e) then [PreventDefault; OnKeyDown fieldKey "next"] else []
  else if decide (key e = "ArrowLeft") then
    if shiftKey e || bool_decide (key e = "ArrowLeft")
    then [PreventDefault; OnKeyDown fieldKey "prev"] else []
  else if decide (key e = "ArrowUp") then [PreventDefault; OnKeyDown fieldKey "up"]
  else if decide (key e = "ArrowDown" ∨ key e = "Enter")
  then [PreventDefault; OnKeyDown fieldKey "down"]
  else [].

(** [handleKeyDown] of [CompactCheckbox]; [!checked] is the negation of the
    truthiness of [checked]. *)
Definition checkboxKeyDown (checked : JsVal) (readOnly : bool) (fieldKey : string)
    (e : KeyboardEvent) : list KeyEffect :=
  if decide (key e = "ArrowRight" ∨ key e = "Tab") then
    if negb (shiftKey e) then [PreventDefault; OnKeyDown fieldKey "next"] else []
  else if decide (key e = "ArrowLeft") then
    if shiftKey e || bool_decide (key e = "ArrowLeft")
    then [PreventDefault; OnKeyDown fieldKey "prev"] else []
  else if decide (key e = "ArrowUp") then [PreventDefault; OnKeyDown fieldKey "up"]
  else if decide (key e = "ArrowDown" ∨ key e = "Enter")
  then [PreventDefault; OnKeyDown fieldKey "down"]
  else if decide (key e = " ") then
    PreventDefault ::
      (if negb readOnly then [OnChangeChecked (VBool (negb (truthy checked)))] else [])
  else [].

(** [handleKeyDown] of [CompactTextInput]. *)
Definition textKeyDown (fieldKey : string) (e : KeyboardEvent) : list KeyEffect :=
  if decide (key e = "Tab") then
    if negb (shiftKey e) then [PreventDefault; OnKeyDown fieldKey "next"]
    else [PreventDefault; OnKeyDown fieldKey "prev"]
  else [].

(** The key handler of a cell of the given component. *)
Definition cellKeyDown (kind : CellKind) (checked : JsVal) (readOnly : bool)
    (fieldKey : string) (e : KeyboardEvent) : list KeyEffect :=
  match kind with
  | NumberCell => numberKeyDown fieldKey e
  | CheckboxCell => checkboxKeyDown checked readOnly fieldKey e
  | TextCell => textKeyDown fieldKey e
  end.

(** [handleKeyDown] of the chart: the key of the element on which it calls
    [focus()]; [document.querySelector] finds the element that carries the
    target key, if one is rendered. *)
Definition targetElement (currentKey direction : string) : option string :=
  navigate currentKey direction ≫= λ targetKey,
    head (filter (λ k, k = targetKey) renderedKeys).

(** A key pressed in a checkbox cell of the chart: the [onChange] calls of
    the handler are [onUpdate(tooth, surfaceType, field, checked)]. *)
Definition pressCheckbox (tooth : string) (surface : Surface) (field : string)
    (readOnly : bool) (e : KeyboardEvent) (chartData : Chart) : Chart :=
  foldl (λ c effect,
           match effect with
           | OnChangeChecked checked => handleUpdate tooth surface field checked c
           | _ => c
           end)
        chartData
        (checkboxKeyDown (checkboxCellValue chartData tooth surface field) readOnly
           (cellKey tooth (surfaceName surface) field) e).

(** ** Error marks *)

(** The tooth headers of the chart in document order: the tooth and the
    surface of its section. *)
Definition headers : list (string * Surface) :=
  '(group, surfaceType) ← sections;
  tooth ← toothGroup group;
  [(tooth, surfaceType)].

(** The class of a tooth header in [ToothSection]:
    [validationErrors.get(`${tooth}-${surfaceType}`)?.size ? "text-red-600" : ""]. *)
Definition headerClass (errors : gmap string (gset string)) (tooth : string)
    (surfaceType : Surface) : string :=
  if truthy (default VUndefined
               ((λ toothErrors : gset string, VNum (Z.of_nat (size toothErrors)))
                  <$> errors !! surfaceKey tooth surfaceType))
  then "text-red-600" else "".

(** The note in the title, [validationErrors.size > 0 && (... errors)]: the
    number it shows, if it is rendered. *)
Definition titleErrors (errors : gmap string (gset string)) : option nat :=
  if decide (0 < size errors) then Some (size errors) else None.

(** ** Vocabulary of the further summary properties *)

Definition plaqueFields : list string :=
  ["plaque_on_probing_distal"; "plaque_on_probing_mid"; "plaque_on_probing_mesial"].

Definition bleedingFields : list string :=
  ["bleeding_on_probing_distal"; "bleeding_on_probing_mid"; "bleeding_on_probing_mesial"].

(** The fields that [summaryStats] reads. *)
Definition summaryFields : list string :=
  (probingDepthFields ++ gingivalMarginFields ++ plaqueFields ++ bleedingFields)%list.

(** ** CSV export ([chart-utils.ts]) *)

(** The text that [Array.prototype.join] gives an element: empty for
    [undefined] and [null], [String(v)] otherwise. *)
Definition joinText (v : JsVal) : string :=
  match v with
  | VUndefined | VNull => ""
  | VBool b => if b then "true" else "false"
  | VNum n => pretty n
  | VStr s => s
  end.

(** [xs.join(sep)] on texts. *)
Definition join (sep : string) (xs : list string) : string := String.concat sep xs.

(** The local array [headers] of [exportToCSV]. *)
Definition csvHeaders : list string :=
  [ "Tooth"; "Surface"; "Mobility"; "Implant"; "Furcation";
    "Bleeding_Distal"; "Bleeding_Mid"; "Bleeding_Mesial";
    "Plaque_Distal"; "Plaque_Mid"; "Plaque_Mesial";
    "GM_Distal"; "GM_Mid"; "GM_Mesial";
    "PD_Distal"; "PD_Mid"; "PD_Mesial";
    "Notes" ].

(** The array [row] of one surface, each element as [join] prints it. *)
Definition csvRow (tooth surface : string) (surfaceData : Obj) : list string :=
  joinText <$>
    [ VStr tooth; VStr surface;
      getProp surfaceData "mobility";
      getProp surfaceData "implant";
      getProp surfaceData "furcation";
      getProp surfaceData "bleeding_on_probing_distal";
      getProp surfaceData "bleeding_on_probing_mid";
      getProp surfaceData "bleeding_on_probing_mesial";
      getProp surfaceData "plaque_on_probing_distal";
      getProp surfaceData "plaque_on_probing_mid";
      getProp surfaceData "plaque_on_probing_mesial";
      getProp surfaceData "gingival_margin_distal";
      getProp surfaceData "gingival_margin_mid";
      getProp surfaceData "gingival_margin_mesial";
      getProp surfaceData "probing_depth_distal";
      getProp surfaceData "probing_depth_mid";
      getProp surfaceData "probing_depth_mesial";
      getProp surfaceData "notes" ].

(** The rows of [exportToCSV] before they are joined.  The argument is
    [Object.entries(data)], every tooth being a [ToothData] whose entries
    are [buccal] and [palatal], in this order. *)
Definition exportRows (entries : list (string * ToothData)) : list (list string) :=
  '(tooth, toothData) ← entries;
  (λ '(surface, surfaceData), csvRow tooth surface surfaceData)
    <$> [("buccal", buccal toothData); ("palatal", palatal toothData)].

Definition exportToCSV (entries : list (string * ToothData)) : string :=
  join (String "010" "") (join "," csvHeaders :: (join "," <$> exportRows entries)).

(** The number of occurrences of a character in a text. *)
Fixpoint countChar (c : ascii) (s : string) : nat :=
  match s with
  | EmptyString => 0
  | String a r => (if Ascii.eqb a c then 1 else 0) + countChar c r
  end.

(** * Properties *)

(** ** Navigation graph: theorems *)

Section Navigation.

Local Open Scope Z_scope.

Lemma catalogue_sizes : length ALL_TEETH = 32%nat ∧ length fields = 16%nat.
Proof. split; reflexivity. Qed.

Lemma nav_map_table :
  Forall (λ i, Forall (λ j, Forall (λ s,
      NAVIGATION_MAP !! cellAt i s j = Some (wrapEntry i s j))
    [Buccal; Palatal]) (seqZ 0 16)) (seqZ 0 32).
Proof. compute_done. Qed.

Lemma nav_map_lookup i s j :
  0 ≤ i < 32 → 0 ≤ j < 16 →
  NAVIGATION_MAP !! cellAt i s j = Some (wrapEntry i s j).
Proof.
  intros Hi Hj.
  pose proof nav_map_table as T.
  rewrite Forall_forall in T.
  specialize (T i). rewrite elem_of_seqZ in T.
  assert (Hi' : 0 ≤ i < 0 + 32) by lia.
  specialize (T Hi'). rewrite Forall_forall in T.
  specialize (T j). rewrite elem_of_seqZ in T.
  assert (Hj' : 0 ≤ j < 0 + 16) by lia.
  specialize (T Hj'). rewrite Forall_forall in T.
  apply T. destruct s; repeat constructor.
Qed.

(** C1. Every cell of the grid has, in the navigation map, the four
    neighbours given by modular wrap-around: [next]/[prev] move the tooth
    index by one modulo 32 and keep surface and field, [down]/[up] move the
    field index by one modulo 16 and keep tooth and surface; [navigate]
    resolves accordingly, and in particular "18-buccal-mobility" goes
    [prev] to "41-buccal-mobility" and "18-buccal-notes" goes [down] to
    "18-buccal-mobility". *)
Theorem navigation_wraps_modularly :
  (∀ i s j, 0 ≤ i < 32 → 0 ≤ j < 16 →
     NAVIGATION_MAP !! cellAt i s j
       = Some {| next := cellAt ((i + 1) mod 32) s j;
                 prev := cellAt ((i - 1 + 32) mod 32) s j;
                 up := cellAt i s ((j - 1 + 16) mod 16);
                 down := cellAt i s ((j + 1) mod 16) |}
     ∧ navigate (cellAt i s j) "next" = Some (cellAt ((i + 1) mod 32) s j)
     ∧ navigate (cellAt i s j) "prev" = Some (cellAt ((i - 1 + 32) mod 32) s j)
     ∧ navigate (cellAt i s j) "down" = Some (cellAt i s ((j + 1) mod 16))
     ∧ navigate (cellAt i s j) "up" = Some (cellAt i s ((j - 1 + 16) mod 16)))
  ∧ length ALL_TEETH = 32%nat ∧ length fields = 16%nat
  ∧ navigate "18-buccal-mobility" "prev" = Some "41-buccal-mobility"
  ∧ navigate "18-buccal-notes" "down" = Some "18-buccal-mobility".
Proof.
  split; [|repeat split; compute_done].
  intros i s j Hi Hj.
  pose proof (nav_map_lookup i s j Hi Hj) as L.
  split; [exact L|].
  unfold navigate. rewrite L. repeat split.
Qed.


End Navigation.

Lemma navigation_wraps_modularly_witness :
  navigate (cellAt 0 Buccal 0) "prev" = Some (cellAt ((0 - 1 + 32) `mod` 32)%Z Buccal 0)
  ∧ navigate (cellAt 0 Buccal 15) "down" = Some (cellAt 0 Buccal ((15 + 1) `mod` 16)%Z)
  ∧ cellAt 0 Buccal 0 = "18-buccal-mobility"
  ∧ cellAt 31 Buccal 0 = "41-buccal-mobility"
  ∧ cellAt 0 Buccal 15 = "18-buccal-notes".
Proof.
  split; [|split; [|repeat split]].
  - apply (proj1 navigation_wraps_modularly 0%Z Buccal 0%Z); lia.
  - apply (proj1 navigation_wraps_modularly 0%Z Buccal 15%Z); lia.
Defined.

(** *** Surface isolation *)

Section NavigationStructure.

Lemma foldl_invariant {B S : Type} (I : S → Prop) (g : S → B → S) (l : list B) :
  ∀ st, I st → (∀ b s, b ∈ l → I s → I (g s b)) → I (foldl g st l).
Proof.
  induction l as [|b l IH]; intros st Hst Hstep; simpl; [exact Hst|].
  apply IH.
  - apply Hstep; [left | exact Hst].
  - intros b' s' Hin. apply Hstep. right. exact Hin.
Qed.

(** An invariant of the threaded state survives [forEach] when every
    callback invocation, at an index and element of the array, keeps it. *)
Lemma forEach_invariant {A S : Type} (I : S → Prop) (arr : list A)
    (body : nat → A → S → S) (st : S) :
  I st →
  (∀ i x s, arr !! i = Some x → I s → I (body i x s)) →
  I (forEach arr body st).
Proof.
  intros Hst Hstep. unfold forEach.
  apply foldl_invariant; [exact Hst|].
  intros [i x] s Hin Hs. simpl.
  apply elem_of_lookup_imap in Hin as (i' & x' & Heq & Hl).
  inversion Heq; subst. apply Hstep; assumption.
Qed.

Lemma nav_map_entries k e : NAVIGATION_MAP !! k = Some e → fromGrid k e.
Proof.
  revert k e. unfold NAVIGATION_MAP, createNavigationMap.
  apply (forEach_invariant (λ m : gmap string NavEntry, ∀ k e, m !! k = Some e → fromGrid k e)).
  { intros k e H. rewrite lookup_empty in H. discriminate. }
  intros i tooth m Ht Hm.
  apply (forEach_invariant (λ m : gmap string NavEntry, ∀ k e, m !! k = Some e → fromGrid k e));
    [exact Hm|].
  intros si surface m1 Hs Hm1.
  assert (∃ s, surface = surfaceName s) as [s ->].
  { destruct si as [|[|si]]; simpl in Hs; inversion Hs;
      [exists Buccal | exists Palatal]; reflexivity. }
  apply (forEach_invariant (λ m : gmap string NavEntry, ∀ k e, m !! k = Some e → fromGrid k e));
    [exact Hm1|].
  intros j field m2 Hf Hm2 k e. cbv zeta.
  rewrite lookup_insert. case_decide as Hk.
  - intros [= <-]. subst k. exists i, tooth, s, j, field. auto.
  - apply Hm2.
Qed.

Lemma at_index_elem (arr : list string) (n : nat) :
  n < length arr → at_index arr n ∈ arr.
Proof.
  intros Hn. unfold at_index.
  destruct (lookup_lt_is_Some_2 arr n Hn) as [x Hx].
  rewrite Hx. simpl. apply list_elem_of_lookup. eauto.
Qed.

(** Every catalogue code is two characters long, so the tooth, surface
    and field of a key are determined by the key. *)
Lemma tooth_two_chars tooth :
  tooth ∈ ALL_TEETH → ∃ a b, tooth = String a (String b EmptyString).
Proof.
  intros Hin.
  assert (Forall (λ t : string, String.length t = 2) ALL_TEETH) as F by compute_done.
  rewrite Forall_forall in F. specialize (F _ Hin).
  destruct tooth as [|a [|b [|c r]]]; simpl in F; try discriminate.
  eauto.
Qed.

Lemma cellKey_components tooth s field tooth' s' field' :
  tooth ∈ ALL_TEETH → tooth' ∈ ALL_TEETH →
  cellKey tooth (surfaceName s) field = cellKey tooth' (surfaceName s') field' →
  tooth = tooth' ∧ s = s' ∧ field = field'.
Proof.
  intros Ht Ht' Heq.
  destruct (tooth_two_chars _ Ht) as (a & b & ->).
  destruct (tooth_two_chars _ Ht') as (a' & b' & ->).
  unfold cellKey in Heq. simpl in Heq.
  destruct s, s'; simpl in Heq; inversion Heq; subst; auto.
Qed.

Lemma nav_resolves_within_surface (k d : string) :
  is_Some (NAVIGATION_MAP !! k) → d ∈ directions →
  ∃ t tooth s field tooth' field',
    navigate k d = Some t ∧
    tooth ∈ ALL_TEETH ∧ field ∈ fields ∧ tooth' ∈ ALL_TEETH ∧ field' ∈ fields ∧
    k = cellKey tooth (surfaceName s) field ∧
    t = cellKey tooth' (surfaceName s) field' ∧
    (d = "up" ∨ d = "down" → tooth' = tooth) ∧
    (d = "next" ∨ d = "prev" → field' = field) ∧
    (onSurface Buccal k → ¬ onSurface Palatal t).
Proof.
  intros [e He] Hd.
  destruct (nav_map_entries k e He) as (i & tooth & s & j & field & Hi & Hj & -> & ->).
  pose proof (lookup_lt_Some _ _ _ Hi) as Li.
  pose proof (lookup_lt_Some _ _ _ Hj) as Lj.
  assert (Ht : tooth ∈ ALL_TEETH) by (apply list_elem_of_lookup; eauto).
  assert (Hf : field ∈ fields) by (apply list_elem_of_lookup; eauto).
  assert (Hiso : ∀ tooth' field', tooth' ∈ ALL_TEETH →
            onSurface Buccal (cellKey tooth (surfaceName s) field) →
            ¬ onSurface Palatal (cellKey tooth' (surfaceName s) field')).
  { intros tooth' field' Ht' (t1 & f1 & Ht1 & _ & E1) (t2 & f2 & Ht2 & _ & E2).
    apply cellKey_components in E1 as (_ & -> & _); [|assumption..].
    apply cellKey_components in E2 as (_ & E2 & _); [|assumption..].
    discriminate. }
  assert (Hnext : at_index ALL_TEETH ((i + 1) `mod` length ALL_TEETH) ∈ ALL_TEETH).
  { apply at_index_elem. apply Nat.mod_upper_bound. discriminate. }
  assert (Hprev : at_index ALL_TEETH
            (if decide (i = 0) then length ALL_TEETH - 1 else i - 1) ∈ ALL_TEETH).
  { apply at_index_elem. destruct catalogue_sizes as [E _].
    rewrite E in *. destruct (decide (i = 0)); lia. }
  assert (Hdown : at_index fields ((j + 1) `mod` length fields) ∈ fields).
  { apply at_index_elem. apply Nat.mod_upper_bound. discriminate. }
  assert (Hup : at_index fields
            (if decide (j = 0) then length fields - 1 else j - 1) ∈ fields).
  { apply at_index_elem. destruct catalogue_sizes as [_ E].
    rewrite E in *. destruct (decide (j = 0)); lia. }
  unfold navigate. rewrite He. clear He.
  unfold directions in Hd.
  repeat (apply elem_of_cons in Hd as [-> | Hd]); [| | | | by apply elem_of_nil in Hd].
  - eexists _, tooth, s, field, _, field. simpl.
    repeat split; try done; try (intros [?|?]; done). by apply Hiso.
  - eexists _, tooth, s, field, _, field. simpl.
    repeat split; try done; try (intros [?|?]; done). by apply Hiso.
  - eexists _, tooth, s, field, tooth, _. simpl.
    repeat split; try done; try (intros [?|?]; done). by apply Hiso.
  - eexists _, tooth, s, field, tooth, _. simpl.
    repeat split; try done; try (intros [?|?]; done). by apply Hiso.
Qed.

Lemma navigate_Some (k d t : string) :
  navigate k d = Some t → is_Some (NAVIGATION_MAP !! k) ∧ d ∈ directions.
Proof.
  unfold navigate, directions. destruct (NAVIGATION_MAP !! k) as [e|]; [|discriminate].
  intros H. split; [eauto|].
  repeat (case_decide; [subst d; set_solver|]). discriminate.
Qed.

(** C2. From every key of the navigation map, each of the four directions
    resolves to a key with the same surface; [up]/[down] keep the tooth and
    [next]/[prev] keep the field.  Hence no move from a buccal cell reaches
    a palatal cell. *)
Theorem navigation_surface_isolation (k d : string) :
  (is_Some (NAVIGATION_MAP !! k) → d ∈ directions → is_Some (navigate k d))
  ∧ (∀ t, navigate k d = Some t →
       ∃ tooth s field tooth' field',
         tooth ∈ ALL_TEETH ∧ field ∈ fields ∧ tooth' ∈ ALL_TEETH ∧ field' ∈ fields ∧
         k = cellKey tooth (surfaceName s) field ∧
         t = cellKey tooth' (surfaceName s) field' ∧
         (d = "up" ∨ d = "down" → tooth' = tooth) ∧
         (d = "next" ∨ d = "prev" → field' = field) ∧
         (onSurface Buccal k → ¬ onSurface Palatal t)).
Proof.
  split.
  - intros Hk Hd.
    destruct (nav_resolves_within_surface k d Hk Hd) as (t & _ & _ & _ & _ & _ & H & _).
    eauto.
  - intros t Ht. destruct (navigate_Some k d t Ht) as [Hk Hd].
    destruct (nav_resolves_within_surface k d Hk Hd)
      as (t' & tooth & s & field & tooth' & field' & H & R).
    rewrite Ht in H. injection H as <-.
    exists tooth, s, field, tooth', field'. exact R.
Qed.


End NavigationStructure.

Lemma navigation_surface_isolation_witness :
  ∃ tooth s field tooth' field',
    tooth ∈ ALL_TEETH ∧ field ∈ fields ∧ tooth' ∈ ALL_TEETH ∧ field' ∈ fields ∧
    "18-buccal-mobility" = cellKey tooth (surfaceName s) field ∧
    "41-buccal-mobility" = cellKey tooth' (surfaceName s) field' ∧
    ("prev" = "up" ∨ "prev" = "down" → tooth' = tooth) ∧
    ("prev" = "next" ∨ "prev" = "prev" → field' = field) ∧
    (onSurface Buccal "18-buccal-mobility" → ¬ onSurface Palatal "41-buccal-mobility").
Proof.
  apply (proj2 (navigation_surface_isolation "18-buccal-mobility" "prev")).
  vm_compute. reflexivity.
Defined.

(** ** Loops *)

Section Loops.

Context {A S : Type}.

(** A callback that ignores the index makes [forEach] a plain left fold. *)
Lemma forEach_fold (arr : list A) (g : A → S → S) (st : S) :
  forEach arr (λ _ x, g x) st = foldl (λ acc x, g x acc) st arr.
Proof.
  unfold forEach.
  assert (G : ∀ (f : nat → A → nat * A), (∀ i x, (f i x).2 = x) →
            ∀ st, foldl (λ acc ix, g ix.2 acc) st (imap f arr)
                  = foldl (λ acc x, g x acc) st arr).
  { induction arr as [|x l IH]; intros f Hf st'; [reflexivity|].
    rewrite imap_cons. simpl. rewrite Hf. apply IH. intros i y. apply Hf. }
  apply G. reflexivity.
Qed.

End Loops.

Lemma lookup_foldl_insert {V : Type} (f : string → V) (l : list string) :
  ∀ (m0 : gmap string V) k,
    foldl (λ m x, <[x := f x]> m) m0 l !! k
    = if decide (k ∈ l) then Some (f k) else m0 !! k.
Proof.
  induction l as [|x l IH]; intros m0 k; cbn [foldl].
  - destruct (decide (k ∈ [])) as [H|H]; [by apply elem_of_nil in H | reflexivity].
  - rewrite IH. destruct (decide (k ∈ l)) as [Hl|Hl].
    + rewrite decide_True; [reflexivity | by right].
    + destruct (decide (k = x)) as [->|Hne].
      * rewrite lookup_insert_eq. rewrite decide_True; [reflexivity | by left].
      * rewrite lookup_insert_ne by done.
        rewrite decide_False; [reflexivity|].
        intros [?|?]%elem_of_cons; done.
Qed.

(** ** Chart initialisation *)

Section Initialisation.

Implicit Types initialValues : gmap string PartialToothData.

Lemma initialChart_lookup initialValues tooth :
  initialChart initialValues !! tooth
  = if decide (tooth ∈ ALL_TEETH)
    then Some {| buccal := spread createDefaultMeasurement (initialValues !! tooth ≫= buccal_opt);
                 palatal := spread createDefaultMeasurement (initialValues !! tooth ≫= palatal_opt) |}
    else None.
Proof.
  unfold initialChart.
  rewrite (forEach_fold ALL_TEETH (λ tooth data, <[tooth := _]> data)).
  rewrite (lookup_foldl_insert (λ tooth, {| buccal := _; palatal := _ |})).
  reflexivity.
Qed.

Lemma spread_lookup (a : Obj) (b : option Obj) field :
  spread a b !! field
  = match b ≫= (λ o : Obj, o !! field) with
    | Some v => Some v
    | None => a !! field
    end.
Proof.
  destruct b as [b|]; simpl; [|reflexivity].
  rewrite lookup_union. destruct (b !! field), (a !! field); reflexivity.
Qed.

Lemma default_measurement_fields :
  createDefaultMeasurement !! "present" = Some (VBool true)
  ∧ (∀ field, field ∈ ["mobility"; "furcation"] ∨ field ∈ gingivalMarginFields
              ∨ field ∈ probingDepthFields →
       createDefaultMeasurement !! field = Some (VNum 0))
  ∧ (∀ field, field ∈ flagFields → createDefaultMeasurement !! field = Some (VBool false))
  ∧ createDefaultMeasurement !! "notes" = Some (VStr "")
  ∧ dom createDefaultMeasurement = list_to_set ("present" :: fields).
Proof.
  split; [reflexivity|]. split; [|split; [|split; [reflexivity|]]].
  - assert (F : Forall (λ field, createDefaultMeasurement !! field = Some (VNum 0))
                  (["mobility"; "furcation"] ++ gingivalMarginFields ++ probingDepthFields)%list)
      by compute_done.
    rewrite Forall_forall in F. intros field H. apply F.
    rewrite !elem_of_app. tauto.
  - assert (F : Forall (λ field, createDefaultMeasurement !! field = Some (VBool false))
                  flagFields) by compute_done.
    rewrite Forall_forall in F. exact F.
  - compute_done.
Qed.

(** C3. The canonical default has [present] true, every count 0, every
    other flag false and empty notes.  Initialisation gives every
    catalogue tooth an entry whose two measurements are, field by field,
    the caller's override where it has the field and the canonical default
    elsewhere; a tooth or surface without override is exactly the default.
    The empty mapping gives the default everywhere, and overriding the
    buccal mobility of one tooth changes that field only. *)
Theorem initialisation_merges_over_defaults initialValues :
  (createDefaultMeasurement !! "present" = Some (VBool true)
   ∧ (∀ field, field ∈ ["mobility"; "furcation"] ∨ field ∈ gingivalMarginFields
               ∨ field ∈ probingDepthFields →
        createDefaultMeasurement !! field = Some (VNum 0))
   ∧ (∀ field, field ∈ flagFields → createDefaultMeasurement !! field = Some (VBool false))
   ∧ createDefaultMeasurement !! "notes" = Some (VStr "")
   ∧ dom createDefaultMeasurement = list_to_set ("present" :: fields))
  ∧ (∀ tooth, tooth ∈ ALL_TEETH →
     ∃ td, initialChart initialValues !! tooth = Some td ∧
       ∀ surface field,
         getSurface td surface !! field
         = match (initialValues !! tooth ≫= (λ p, getSurface_opt p surface))
                   ≫= (λ o : Obj, o !! field) with
           | Some v => Some v
           | None => createDefaultMeasurement !! field
           end)
  ∧ (∀ tooth surface, tooth ∈ ALL_TEETH →
       initialValues !! tooth ≫= (λ p, getSurface_opt p surface) = None →
       (λ td, getSurface td surface) <$> initialChart initialValues !! tooth
       = Some createDefaultMeasurement)
  ∧ (∀ tooth, tooth ∈ ALL_TEETH →
       initialChart ∅ !! tooth
       = Some {| buccal := createDefaultMeasurement; palatal := createDefaultMeasurement |})
  ∧ (∀ T, T ∈ ALL_TEETH →
       initialChart {[ T := {| buccal_opt := Some {[ "mobility" := VNum 2 ]};
                               palatal_opt := None |} ]}
       = <[T := {| buccal := <["mobility" := VNum 2]> createDefaultMeasurement;
                   palatal := createDefaultMeasurement |}]> (initialChart ∅)).
Proof.
  split; [exact default_measurement_fields|].
  repeat split.
  - intros tooth Ht. rewrite initialChart_lookup, decide_True by done.
    eexists; split; [reflexivity|].
    intros [] field; simpl; rewrite spread_lookup;
      destruct (initialValues !! tooth); reflexivity.
  - intros tooth surface Ht Hnone.
    rewrite initialChart_lookup, decide_True by done. simpl.
    destruct surface, (initialValues !! tooth) as [p|]; simpl in *;
      rewrite ?Hnone; reflexivity.
  - intros tooth Ht. rewrite initialChart_lookup, decide_True by done.
    rewrite lookup_empty. reflexivity.
  - intros T HT. apply map_eq. intros tooth.
    rewrite initialChart_lookup.
    destruct (decide (tooth = T)) as [->|Hne].
    + rewrite lookup_insert_eq, decide_True by done.
      rewrite lookup_singleton_eq. unfold spread.
      cbn [mbind option_bind buccal_opt palatal_opt].
      rewrite insert_union_singleton_l. reflexivity.
    + rewrite lookup_insert_ne by done.
      rewrite initialChart_lookup.
      rewrite lookup_singleton_ne by done. rewrite lookup_empty. reflexivity.
Qed.


End Initialisation.

Lemma initialisation_merges_over_defaults_witness :
  ∃ td, initialChart {[ "18" := {| buccal_opt := Some {[ "mobility" := VNum 2 ]};
                                   palatal_opt := None |} ]} !! "18" = Some td
        ∧ getSurface td Buccal !! "mobility" = Some (VNum 2)
        ∧ getSurface td Buccal !! "notes" = Some (VStr "")
        ∧ getSurface td Palatal !! "mobility" = Some (VNum 0).
Proof.
  destruct (proj1 (proj2 (initialisation_merges_over_defaults
              {[ "18" := {| buccal_opt := Some {[ "mobility" := VNum 2 ]};
                            palatal_opt := None |} ]})) "18") as (td & Htd & Hf).
  { unfold ALL_TEETH. simpl. left. }
  exists td. split; [exact Htd|].
  rewrite !Hf. rewrite lookup_singleton_eq.
  repeat split; vm_compute; reflexivity.
Defined.

(** ** Validation of one measurement *)

Section Validation.

Lemma isNullish_absent v : isNullish v = true ↔ absent v.
Proof.
  unfold absent. destruct v; simpl; split; intros H; try done; auto;
    destruct H; discriminate.
Qed.

Lemma outOfRange_strictlyOutside rule v :
  outOfRange rule v = true ↔ strictlyOutside rule v.
Proof.
  unfold strictlyOutside. destruct v as [| | |n|]; simpl; split;
    try discriminate; try (intros (? & ? & _); discriminate).
  - intros H. exists n. split; [reflexivity|].
    apply orb_true_iff in H as [H|H]; apply Z.ltb_lt in H; auto.
  - intros (n' & [= <-] & H). apply orb_true_iff.
    destruct H as [H|H]; apply Z.ltb_lt in H; auto.
Qed.

Lemma validateField_elem data errors field rule code :
  code ∈ validateField data errors (field, rule)
  ↔ code ∈ errors ∨ emits data field rule code.
Proof.
  unfold validateField, emits.
  rewrite <- isNullish_absent, <- outOfRange_strictlyOutside.
  destruct (required rule), (isNullish (getProp data field)),
    (outOfRange rule (getProp data field)); simpl;
    rewrite ?elem_of_union, ?elem_of_singleton; naive_solver.
Qed.

Lemma validate_fold_elem data rules :
  ∀ errors code,
    code ∈ foldl (validateField data) errors rules
    ↔ code ∈ errors ∨ ∃ field rule, (field, rule) ∈ rules ∧ emits data field rule code.
Proof.
  induction rules as [|[field rule] rules IH]; intros errors code; cbn [foldl].
  - split; [auto|]. intros [H|(? & ? & H & _)]; [done | by apply elem_of_nil in H].
  - rewrite IH, validateField_elem. split.
    + intros [[H|H]|(f & r & Hin & H)]; [by left | right | right].
      * exists field, rule. split; [left | done].
      * exists f, r. split; [by right | done].
    + intros [H|(f & r & Hin & H)]; [by left; left|].
      apply elem_of_cons in Hin as [[= -> ->]|Hin]; [by left; right|].
      right. eauto.
Qed.

Lemma validateToothData_elem data code :
  code ∈ validateToothData data
  ↔ ∃ field rule, (field, rule) ∈ VALIDATION_RULES ∧ emits data field rule code.
Proof.
  unfold validateToothData. rewrite validate_fold_elem.
  split; [intros [H|H]; [by apply not_elem_of_empty in H | done] | by right].
Qed.

(** The codes of distinct rules are distinct, and no "required" code is a
    "range" code. *)
Lemma codes_distinct :
  Forall (λ e1 : string * Rule, Forall (λ e2 : string * Rule,
      (e1.1 ++ "_required" = e2.1 ++ "_required" → e1 = e2)
      ∧ (e1.1 ++ "_range" = e2.1 ++ "_range" → e1 = e2)
      ∧ e1.1 ++ "_required" ≠ e2.1 ++ "_range")
    VALIDATION_RULES) VALIDATION_RULES.
Proof. compute_done. Qed.

Lemma codes_distinct_at f1 r1 f2 r2 :
  (f1, r1) ∈ VALIDATION_RULES → (f2, r2) ∈ VALIDATION_RULES →
  (f1 ++ "_required" = f2 ++ "_required" → f1 = f2 ∧ r1 = r2)
  ∧ (f1 ++ "_range" = f2 ++ "_range" → f1 = f2 ∧ r1 = r2)
  ∧ f1 ++ "_required" ≠ f2 ++ "_range".
Proof.
  intros H1 H2. pose proof codes_distinct as D.
  rewrite Forall_forall in D. specialize (D _ H1).
  rewrite Forall_forall in D. specialize (D _ H2).
  simpl in D. destruct D as (Da & Db & Dc).
  split; [|split].
  - intros E. apply Da in E. by inversion E.
  - intros E. apply Db in E. by inversion E.
  - exact Dc.
Qed.

Lemma validate_agree data data' rules :
  (∀ field rule, (field, rule) ∈ rules → getProp data field = getProp data' field) →
  ∀ errors, foldl (validateField data) errors rules = foldl (validateField data') errors rules.
Proof.
  induction rules as [|[field rule] rules IH]; intros Hag errors; cbn [foldl]; [reflexivity|].
  rewrite IH by (intros f r Hin; apply (Hag f r); by right).
  unfold validateField. rewrite (Hag field rule) by left. reflexivity.
Qed.

Lemma rule_table field rule :
  (field, rule) ∈ VALIDATION_RULES
  ↔ (field ∈ ["mobility"; "furcation"] ∧ rule = mkRule 0 3 true)
    ∨ (field ∈ gingivalMarginFields ∧ rule = mkRule (-10) 10 true)
    ∨ (field ∈ probingDepthFields ∧ rule = mkRule 0 15 true).
Proof.
  unfold VALIDATION_RULES, gingivalMarginFields, probingDepthFields.
  rewrite !elem_of_cons, !elem_of_nil. split.
  - intros H. repeat destruct H as [H|H]; try done; inversion H; subst; tauto.
  - intros [[H ->]|[[H ->]|[H ->]]]; repeat destruct H as [H|H]; try done; subst; tauto.
Qed.

(** C5. The violation set of a measurement holds, for each of the eight
    rule fields, the code "<field>_required" exactly when the rule is
    required and the field has no value, and "<field>_range" exactly when
    the field holds a number strictly outside the rule's domain; it holds
    nothing else, and a field without a rule (booleans, notes) has no
    influence on it. *)
Theorem validation_codes (m : Obj) :
  (∀ field rule,
     (field, rule) ∈ VALIDATION_RULES
     ↔ (field ∈ ["mobility"; "furcation"] ∧ rule = mkRule 0 3 true)
       ∨ (field ∈ gingivalMarginFields ∧ rule = mkRule (-10) 10 true)
       ∨ (field ∈ probingDepthFields ∧ rule = mkRule 0 15 true))
  ∧ (∀ field rule, (field, rule) ∈ VALIDATION_RULES →
       (field ++ "_required" ∈ validateToothData m
        ↔ required rule = true ∧ absent (getProp m field))
       ∧ (field ++ "_range" ∈ validateToothData m
          ↔ strictlyOutside rule (getProp m field)))
  ∧ (∀ code, code ∈ validateToothData m →
       ∃ field rule, (field, rule) ∈ VALIDATION_RULES ∧
         (code = field ++ "_required" ∨ code = field ++ "_range"))
  ∧ (∀ field v, field ∉ VALIDATION_RULES.*1 →
       validateToothData (<[field := v]> m) = validateToothData m).
Proof.
  split; [exact rule_table|]. split; [|split].
  - intros field rule Hin. split; rewrite validateToothData_elem; split.
    + intros (f & r & Hin' & [(E & Hr & Ha)|(E & _)]).
      * destruct (codes_distinct_at field rule f r Hin Hin') as (D & _ & _).
        destruct (D E) as [-> ->]. done.
      * destruct (codes_distinct_at field rule f r Hin Hin') as (_ & _ & D). done.
    + intros [Hr Ha]. exists field, rule. split; [done|]. left. done.
    + intros (f & r & Hin' & [(E & _)|(E & Ho)]).
      * destruct (codes_distinct_at f r field rule Hin' Hin) as (_ & _ & D).
        symmetry in E. done.
      * destruct (codes_distinct_at field rule f r Hin Hin') as (_ & D & _).
        destruct (D E) as [-> ->]. done.
    + intros Ho. exists field, rule. split; [done|]. right. done.
  - intros code (f & r & Hin & [(E & _)|(E & _)])%validateToothData_elem;
      exists f, r; auto.
  - intros field v Hnot. unfold validateToothData. apply validate_agree.
    intros f r Hin. unfold getProp.
    rewrite lookup_insert_ne; [reflexivity|].
    intros ->. apply Hnot. apply list_elem_of_fmap. exists (f, r). done.
Qed.


End Validation.

Lemma validation_codes_witness :
  ("probing_depth_mid" ++ "_range" ∈ validateToothData {[ "probing_depth_mid" := VNum 20 ]}
   ↔ strictlyOutside (mkRule 0 15 true)
       (getProp {[ "probing_depth_mid" := VNum 20 ]} "probing_depth_mid"))
  ∧ ("mobility" ++ "_required" ∈ validateToothData {[ "probing_depth_mid" := VNum 20 ]}
     ↔ required (mkRule 0 3 true) = true
       ∧ absent (getProp {[ "probing_depth_mid" := VNum 20 ]} "mobility")).
Proof.
  pose proof (proj1 (proj2 (validation_codes {[ "probing_depth_mid" := VNum 20 ]}))) as H.
  assert (H1 : ("probing_depth_mid", mkRule 0 15 true) ∈ VALIDATION_RULES)
    by (unfold VALIDATION_RULES; do 6 right; left).
  assert (H2 : ("mobility", mkRule 0 3 true) ∈ VALIDATION_RULES)
    by (unfold VALIDATION_RULES; left).
  split.
  - exact (proj2 (H _ _ H1)).
  - exact (proj1 (H _ _ H2)).
Defined.

(** ** Validation of the chart, and the submission gate *)

Section ChartValidation.

Lemma surfaceKey_components tooth s tooth' s' :
  tooth ∈ ALL_TEETH → tooth' ∈ ALL_TEETH →
  surfaceKey tooth s = surfaceKey tooth' s' → tooth = tooth' ∧ s = s'.
Proof.
  intros Ht Ht' Heq.
  destruct (tooth_two_chars _ Ht) as (a & b & ->).
  destruct (tooth_two_chars _ Ht') as (a' & b' & ->).
  unfold surfaceKey in Heq.
  destruct s, s'; simpl in Heq; inversion Heq; subst; auto.
Qed.

(** One iteration of the inner loop of [validationErrors]. *)
Lemma errors_step (c : Chart) tooth s (m : gmap string (gset string))
    (Q : string → gset string → Prop) :
  (∀ k E, m !! k = Some E ↔ Q k E) →
  (∀ k E E', Q k E → errorsFor c tooth s k E' → E = E') →
  ∀ k E,
    match (λ td, getSurface td s) <$> c !! tooth with
    | Some data =>
        let toothErrors := validateToothData data in
        if decide (0 < size toothErrors) then <[surfaceKey tooth s := toothErrors]> m else m
    | None => m
    end !! k = Some E
    ↔ Q k E ∨ errorsFor c tooth s k E.
Proof.
  intros Hm Hcons k E. unfold errorsFor.
  destruct (c !! tooth) as [td|] eqn:Hc; simpl.
  2:{ rewrite Hm. split; [auto|]. intros [H|(td & Htd & _)]; [done | discriminate]. }
  destruct (decide (0 < size (validateToothData (getSurface td s)))) as [Hpos|Hzero].
  - assert (Hne : validateToothData (getSurface td s) ≠ ∅).
    { intros E0. rewrite E0, size_empty in Hpos. lia. }
    destruct (decide (k = surfaceKey tooth s)) as [->|Hk].
    + rewrite lookup_insert_eq. split.
      * intros [= <-]. right. exists td. done.
      * intros [HQ|(td' & [= <-] & _ & -> & _)]; [|done].
        f_equal. symmetry. apply (Hcons (surfaceKey tooth s)); [done|].
        exists td. rewrite Hc. done.
    + rewrite lookup_insert_ne by done. rewrite Hm.
      split; [auto|]. intros [H|(td' & _ & E' & _)]; done.
  - rewrite Hm. split; [auto|].
    intros [H|(td' & [= <-] & _ & -> & Hne)]; [done|].
    exfalso. apply Hzero.
    destruct (decide (size (validateToothData (getSurface td s)) = 0)) as [Hs|Hs]; [|lia].
    apply size_empty_iff in Hs. apply leibniz_equiv in Hs. done.
Qed.

Lemma validationErrors_fold (c : Chart) (teeth : list string) :
  (∀ t, t ∈ teeth → t ∈ ALL_TEETH) →
  ∀ (m : gmap string (gset string)) (seen : list string),
    (∀ t, t ∈ seen → t ∈ ALL_TEETH) →
    (∀ k E, m !! k = Some E ↔ ∃ tooth s, tooth ∈ seen ∧ errorsFor c tooth s k E) →
    ∀ k E,
      foldl (λ acc tooth,
               forEach [Buccal; Palatal] (λ _ surface errors,
                 match (λ td, getSurface td surface) <$> c !! tooth with
                 | Some data =>
                     let toothErrors := validateToothData data in
                     if decide (0 < size toothErrors)
                     then <[surfaceKey tooth surface := toothErrors]> errors
                     else errors
                 | None => errors
                 end) acc) m teeth !! k = Some E
      ↔ ∃ tooth s, tooth ∈ (seen ++ teeth)%list ∧ errorsFor c tooth s k E.
Proof.
  induction teeth as [|tooth teeth IH]; intros Hteeth m seen Hseen Hm k E.
  - cbn [foldl]. rewrite app_nil_r. apply Hm.
  - cbn [foldl].
    assert (Htooth : tooth ∈ ALL_TEETH) by (apply Hteeth; left).
    assert (Hdet : ∀ t1 s1 t2 s2 k' E1 E2, t1 ∈ ALL_TEETH → t2 ∈ ALL_TEETH →
               errorsFor c t1 s1 k' E1 → errorsFor c t2 s2 k' E2 → E1 = E2).
    { intros t1 s1 t2 s2 k' E1 E2 H1 H2 (td1 & Hc1 & Hk1 & -> & _) (td2 & Hc2 & Hk2 & -> & _).
      rewrite Hk1 in Hk2. apply surfaceKey_components in Hk2 as [-> ->]; [|done..].
      rewrite Hc1 in Hc2. by inversion Hc2. }
    rewrite (IH (λ t Ht, Hteeth t (list_elem_of_further _ _ _ Ht)) _ (seen ++ [tooth])%list).
    + rewrite <- app_assoc. reflexivity.
    + intros t [Ht|Ht%list_elem_of_singleton]%elem_of_app; [by apply Hseen | by subst].
    + clear k E. intros k E. unfold forEach. cbn [imap foldl fst snd].
      rewrite (errors_step c tooth Palatal _
                 (λ k E, (∃ t s, t ∈ seen ∧ errorsFor c t s k E) ∨ errorsFor c tooth Buccal k E)).
      * split.
        -- intros [[(t & s & Ht & H)|H]|H].
           ++ exists t, s. split; [apply elem_of_app; by left | done].
           ++ exists tooth, Buccal. split; [apply elem_of_app; right; left | done].
           ++ exists tooth, Palatal. split; [apply elem_of_app; right; left | done].
        -- intros (t & s & [Ht|Ht%list_elem_of_singleton]%elem_of_app & H).
           ++ left. left. eauto.
           ++ subst t. destruct s; auto.
      * clear k E. intros k E.
        apply (errors_step c tooth Buccal m
                 (λ k E, ∃ t s, t ∈ seen ∧ errorsFor c t s k E)); [exact Hm|].
        intros k' E1 E2 (t & s & Ht & H1) H2.
        apply (Hdet t s tooth Buccal k'); auto.
      * intros k' E1 E2 [(t & s & Ht & H1)|H1] H2.
        -- apply (Hdet t s tooth Palatal k'); auto.
        -- apply (Hdet tooth Buccal tooth Palatal k'); auto.
Qed.

Lemma validationErrors_lookup (c : Chart) k E :
  validationErrors c !! k = Some E
  ↔ ∃ tooth s, tooth ∈ ALL_TEETH ∧ errorsFor c tooth s k E.
Proof.
  unfold validationErrors.
  rewrite (forEach_fold ALL_TEETH).
  rewrite (validationErrors_fold c ALL_TEETH (λ _ H, H) ∅ []).
  - reflexivity.
  - intros t Ht. by apply elem_of_nil in Ht.
  - intros k' E'. rewrite lookup_empty. split; [discriminate|].
    intros (t & _ & Ht & _). by apply elem_of_nil in Ht.
Qed.

Lemma inRange_valid (m : Obj) : inRange m → validateToothData m = ∅.
Proof.
  intros Hin. apply leibniz_equiv. apply elem_of_equiv_empty. intros code Hcode.
  apply validateToothData_elem in Hcode as (f & r & Hr & He).
  destruct (Hin f r Hr) as (n & Hn & Hb).
  destruct He as [(_ & _ & [Ha|Ha])|(_ & n' & Hn' & Ho)]; rewrite Hn in *; try discriminate.
  inversion Hn'. subst. lia.
Qed.

Lemma isDataValid_empty (c : Chart) : isDataValid c = true ↔ validationErrors c = ∅.
Proof.
  unfold isDataValid. rewrite bool_decide_eq_true. apply map_size_empty_iff.
Qed.

(** C6. The chart-level result has exactly the keys "<tooth>-<surface>" of
    the catalogue measurements with at least one violation, each mapped to
    its non-empty violation set; a chart whose measurements are all in
    range has the empty result.  Submission is permitted exactly when the
    result is empty: then [onSubmit] is called with the chart, otherwise
    nothing is called; the chart state is unchanged either way. *)
Theorem validation_gates_submission (c : Chart) :
  (∀ k E, validationErrors c !! k = Some E
          ↔ ∃ tooth s td, tooth ∈ ALL_TEETH ∧ c !! tooth = Some td ∧
              k = surfaceKey tooth s ∧
              E = validateToothData (getSurface td s) ∧ E ≠ ∅)
  ∧ (∀ k E, validationErrors c !! k = Some E → E ≠ ∅)
  ∧ ((∀ tooth td s, c !! tooth = Some td → inRange (getSurface td s)) →
     validationErrors c = ∅)
  ∧ (isDataValid c = true ↔ validationErrors c = ∅)
  ∧ (validationErrors c = ∅ → handleSubmit true c = ([OnSubmit c], c))
  ∧ (validationErrors c ≠ ∅ → ∀ onSubmit, handleSubmit onSubmit c = ([], c)).
Proof.
  assert (L : ∀ k E, validationErrors c !! k = Some E
          ↔ ∃ tooth s td, tooth ∈ ALL_TEETH ∧ c !! tooth = Some td ∧
              k = surfaceKey tooth s ∧
              E = validateToothData (getSurface td s) ∧ E ≠ ∅).
  { intros k E. rewrite validationErrors_lookup. unfold errorsFor. naive_solver. }
  split; [exact L|]. split; [|split; [|split; [|split]]].
  - intros k E (?&?&?&?&?&?&?&?)%L. done.
  - intros Hall. apply map_empty. intros k.
    destruct (validationErrors c !! k) as [E|] eqn:HE; [|reflexivity].
    apply L in HE as (tooth & s & td & _ & Hc & _ & -> & Hne).
    exfalso. apply Hne. apply inRange_valid. by apply (Hall tooth).
  - apply isDataValid_empty.
  - intros He. unfold handleSubmit.
    apply isDataValid_empty in He. rewrite He. reflexivity.
  - intros Hne onSubmit. unfold handleSubmit.
    destruct (isDataValid c) eqn:Hv; [|reflexivity].
    apply isDataValid_empty in Hv. done.
Qed.


End ChartValidation.

Lemma validation_gates_submission_witness :
  handleSubmit true (initialChart ∅) = ([OnSubmit (initialChart ∅)], initialChart ∅)
  ∧ handleSubmit true oneDepthTwenty = ([], oneDepthTwenty).
Proof.
  split.
  - apply (proj1 (proj2 (proj2 (proj2 (proj2 (validation_gates_submission (initialChart ∅))))))).
    vm_compute. reflexivity.
  - apply (proj2 (proj2 (proj2 (proj2 (proj2 (validation_gates_submission oneDepthTwenty)))))).
    assert (Hb : bool_decide (validationErrors oneDepthTwenty = ∅) = false)
      by (vm_compute; reflexivity).
    apply bool_decide_eq_false in Hb. exact Hb.
Defined.

(** ** Single-field update *)

Section UpdateOnValues.

Lemma handleUpdate_lookup tooth surface field value (prev : Chart) tooth' :
  handleUpdate tooth surface field value prev !! tooth'
  = if decide (tooth' = tooth)
    then let td := default {| buccal := createDefaultMeasurement;
                              palatal := createDefaultMeasurement |} (prev !! tooth) in
         Some (setSurface td surface (<[field := value]> (getSurface td surface)))
    else prev !! tooth'.
Proof.
  unfold handleUpdate.
  destruct (prev !! tooth) as [td|] eqn:Hp; cbn [default].
  - rewrite Hp. rewrite lookup_insert. case_decide; [subst; by rewrite decide_True|].
    by rewrite decide_False.
  - rewrite lookup_insert_eq. rewrite lookup_insert. case_decide as H.
    + subst. by rewrite decide_True.
    + rewrite decide_False by done. by rewrite lookup_insert_ne.
Qed.

End UpdateOnValues.


Section UpdateOnStore.

(** The heap [<[nd := X]> (h ++ l)]: an assignment to the object at [nd]
    after the allocation of the objects [l]. *)
Lemma heap_after_at (h l : Store.Heap) nd X :
  nd < length h → <[nd := X]> (h ++ l)%list !! nd = Some X.
Proof. intros H. apply list_lookup_insert_eq. rewrite length_app. lia. Qed.

Lemma heap_after_old (h l : Store.Heap) nd X : extendsExcept nd h (<[nd := X]> (h ++ l)%list).
Proof.
  intros i o Hne Hi. rewrite list_lookup_insert_ne by done.
  by apply lookup_app_l_Some.
Qed.

Lemma heap_after_new (h l : Store.Heap) nd X k o :
  nd < length h → l !! k = Some o → <[nd := X]> (h ++ l)%list !! (length h + k) = Some o.
Proof.
  intros H Hk. rewrite list_lookup_insert_ne by lia.
  rewrite lookup_app_r by lia. replace (length h + k - length h) with k by lia. done.
Qed.

Lemma replaceField_run h nd teeth tooth t refs surface m field value :
  h !! nd = Some (Store.ChartObj teeth) →
  teeth !! tooth = Some t →
  h !! t = Some (Store.ToothObj refs.1 refs.2) →
  h !! Store.surfaceRef refs surface = Some (Store.MeasurementObj m) →
  Store.replaceField nd tooth surface field value h
  = Some (tt, <[nd := Store.ChartObj (<[tooth := length h + 1]> teeth)]>
                (h ++ [ Store.MeasurementObj (<[field := value]> m);
                        Store.withSurfaceRef refs surface (length h) ])%list).
Proof.
  intros Hnd Hteeth Ht Hm.
  unfold Store.replaceField, Store.bind, Store.loadChart. rewrite Hnd, Hteeth.
  unfold Store.loadTooth. rewrite Ht. destruct refs as [b p]. cbn [fst snd] in *.
  unfold Store.loadMeasurement. rewrite Hm.
  unfold Store.alloc, Store.setTooth.
  rewrite <- app_assoc. cbn [app].
  rewrite (lookup_app_l_Some _ _ _ _ Hnd).
  rewrite length_app. cbn [length]. reflexivity.
Qed.

Lemma ensureTooth_present h nd teeth tooth t :
  h !! nd = Some (Store.ChartObj teeth) → teeth !! tooth = Some t →
  Store.ensureTooth nd tooth h = Some (tt, h).
Proof.
  intros Hnd Hteeth. unfold Store.ensureTooth, Store.bind, Store.loadChart.
  rewrite Hnd, Hteeth. reflexivity.
Qed.

Lemma ensureTooth_missing h nd teeth tooth :
  h !! nd = Some (Store.ChartObj teeth) → teeth !! tooth = None →
  Store.ensureTooth nd tooth h
  = Some (tt, <[nd := Store.ChartObj (<[tooth := length h + 2]> teeth)]>
                (h ++ [ Store.MeasurementObj createDefaultMeasurement;
                        Store.MeasurementObj createDefaultMeasurement;
                        Store.ToothObj (length h) (length h + 1) ])%list).
Proof.
  intros Hnd Hteeth. unfold Store.ensureTooth, Store.bind, Store.loadChart.
  rewrite Hnd, Hteeth. unfold Store.alloc, Store.setTooth.
  rewrite <- !app_assoc. cbn [app].
  rewrite (lookup_app_l_Some _ _ _ _ Hnd).
  rewrite !length_app. cbn [length].
  replace (length h + 1 + 1) with (length h + 2) by lia. reflexivity.
Qed.

(** Reading through a reference does not depend on the chart object. *)
Lemma readMeasurement_stable nd h h' teeth l m :
  extendsExcept nd h h' → h !! nd = Some (Store.ChartObj teeth) →
  Store.readMeasurement h l = Some m → Store.readMeasurement h' l = Some m.
Proof.
  unfold Store.readMeasurement. intros E Hnd H.
  destruct (h !! l) as [o|] eqn:Hl; [|discriminate].
  assert (l ≠ nd) as Hne.
  { intros ->. rewrite Hnd in Hl. inversion Hl; subst. discriminate. }
  rewrite (E _ _ Hne Hl). exact H.
Qed.

Lemma readTooth_stable nd h h' teeth l td :
  extendsExcept nd h h' → h !! nd = Some (Store.ChartObj teeth) →
  Store.readTooth h l = Some td → Store.readTooth h' l = Some td.
Proof.
  unfold Store.readTooth. intros E Hnd H.
  destruct (h !! l) as [o|] eqn:Hl; [|discriminate].
  assert (l ≠ nd) as Hne.
  { intros ->. rewrite Hnd in Hl. inversion Hl; subst. discriminate. }
  rewrite (E _ _ Hne Hl).
  destruct o as [|b p|]; try discriminate.
  destruct (Store.readMeasurement h b) as [mb|] eqn:Hb; [|discriminate].
  destruct (Store.readMeasurement h p) as [mp|] eqn:Hp; [|discriminate].
  rewrite (readMeasurement_stable _ _ _ _ _ _ E Hnd Hb).
  rewrite (readMeasurement_stable _ _ _ _ _ _ E Hnd Hp).
  exact H.
Qed.

Lemma readTooth_inv h t td :
  Store.readTooth h t = Some td →
  ∃ b p, h !! t = Some (Store.ToothObj b p)
         ∧ h !! b = Some (Store.MeasurementObj (buccal td))
         ∧ h !! p = Some (Store.MeasurementObj (palatal td)).
Proof.
  unfold Store.readTooth, Store.readMeasurement. intros H.
  destruct (h !! t) as [[|b p|]|]; try discriminate.
  destruct (h !! b) as [[mb| |]|] eqn:Hb; try discriminate.
  destruct (h !! p) as [[mp| |]|] eqn:Hp; try discriminate.
  inversion H; subst. exists b, p. auto.
Qed.

Lemma represents_tooth (h : Store.Heap) nd (c : Chart) (teeth : gmap string Store.loc) tooth td :
  h !! nd = Some (Store.ChartObj teeth) →
  (∀ tooth, c !! tooth = teeth !! tooth ≫= Store.readTooth h
            ∧ (is_Some (teeth !! tooth) → is_Some (c !! tooth))) →
  c !! tooth = Some td →
  ∃ t, teeth !! tooth = Some t ∧ Store.readTooth h t = Some td.
Proof.
  intros Hnd Hall Hc. destruct (Hall tooth) as [Heq _].
  rewrite Hc in Heq. destruct (teeth !! tooth) as [t|]; [|discriminate].
  exists t. split; [reflexivity|]. symmetry. exact Heq.
Qed.

(** The final assignment of [handleUpdate], on a chart object that has
    the tooth. *)
Lemma represents_replaceField (h : Store.Heap) nd (c : Chart) tooth td s field value :
  Store.represents h nd c → c !! tooth = Some td →
  ∃ h', Store.replaceField nd tooth s field value h = Some (tt, h')
    ∧ Store.represents h' nd (<[tooth := setSurface td s (<[field := value]> (getSurface td s))]> c)
    ∧ extendsExcept nd h h'
    ∧ (∀ tooth', tooth' ≠ tooth → Store.toothRef h' nd tooth' = Store.toothRef h nd tooth')
    ∧ Store.measurementRef h' nd tooth (otherSurface s) = Store.measurementRef h nd tooth (otherSurface s).
Proof.
  intros (teeth & Hnd & Hall) Hc.
  destruct (represents_tooth _ _ _ _ _ _ Hnd Hall Hc) as (t & Hteeth & Hread).
  destruct (readTooth_inv _ _ _ Hread) as (b & p & Ht & Hb & Hp).
  pose proof (lookup_lt_Some _ _ _ Hnd) as Lnd.
  assert (Hm : h !! Store.surfaceRef (b, p) s = Some (Store.MeasurementObj (getSurface td s)))
    by (destruct s; assumption).
  eexists. split;
    [apply (replaceField_run h nd teeth tooth t (b, p) s (getSurface td s) field value); done|].
  set (l := [Store.MeasurementObj (<[field:=value]> (getSurface td s));
             Store.withSurfaceRef (b, p) s (length h)]).
  set (X := Store.ChartObj (<[tooth:=length h + 1]> teeth)).
  pose proof (heap_after_old h l nd X) as Hold.
  pose proof (heap_after_at h l nd X Lnd) as Hat.
  pose proof (heap_after_new h l nd X 0 _ Lnd eq_refl) as H0.
  rewrite Nat.add_0_r in H0.
  assert (H1 : <[nd:=X]> (h ++ l)%list !! (length h + 1)
               = Some (Store.withSurfaceRef (b, p) s (length h))).
  { by apply heap_after_new. }
  assert (Hb' : <[nd:=X]> (h ++ l)%list !! b = Some (Store.MeasurementObj (buccal td))).
  { apply Hold; [|done]. intros ->. rewrite Hnd in Hb. discriminate. }
  assert (Hp' : <[nd:=X]> (h ++ l)%list !! p = Some (Store.MeasurementObj (palatal td))).
  { apply Hold; [|done]. intros ->. rewrite Hnd in Hp. discriminate. }
  split; [|split; [exact Hold|split]].
  - exists (<[tooth:=length h + 1]> teeth). split; [exact Hat|].
    intros tooth0. destruct (decide (tooth0 = tooth)) as [->|Hne].
    + rewrite !lookup_insert_eq. split; [|eauto]. cbn [mbind option_bind].
      unfold Store.readTooth, Store.readMeasurement. rewrite H1.
      destruct s; cbn [Store.withSurfaceRef fst snd]; rewrite H0, ?Hb', ?Hp'; reflexivity.
    + rewrite !lookup_insert_ne by done.
      destruct (Hall tooth0) as [Heq Hsome]. split; [|exact Hsome].
      rewrite Heq. destruct (teeth !! tooth0) as [tl|] eqn:Htl; [|reflexivity].
      cbn [mbind option_bind].
      destruct Hsome as [td0 Htd0]; [eauto|].
      rewrite Htd0 in Heq. cbn [mbind option_bind] in Heq. symmetry in Heq.
      rewrite Heq. symmetry.
      apply (readTooth_stable nd h _ teeth); done.
  - intros tooth' Hne. unfold Store.toothRef. rewrite Hat, Hnd.
    subst X. cbv beta iota. by rewrite lookup_insert_ne.
  - unfold Store.measurementRef, Store.toothRef. rewrite Hat, Hnd. subst X. cbv beta iota.
    rewrite lookup_insert_eq, Hteeth, H1, Ht. destruct s; reflexivity.
Qed.

(** The defensive branch of [handleUpdate]. *)
Lemma represents_ensureTooth (h : Store.Heap) nd (c : Chart) tooth :
  Store.represents h nd c →
  ∃ h', Store.ensureTooth nd tooth h = Some (tt, h')
    ∧ Store.represents h' nd
        (match c !! tooth with
         | None => <[tooth := {| buccal := createDefaultMeasurement;
                                 palatal := createDefaultMeasurement |}]> c
         | Some _ => c
         end)
    ∧ extendsExcept nd h h'
    ∧ (∀ tooth', tooth' ≠ tooth → Store.toothRef h' nd tooth' = Store.toothRef h nd tooth')
    ∧ (is_Some (c !! tooth) → h' = h).
Proof.
  intros (teeth & Hnd & Hall).
  destruct (c !! tooth) as [td|] eqn:Hc.
  - destruct (represents_tooth _ _ _ _ _ _ Hnd Hall Hc) as (t & Hteeth & _).
    exists h. split; [by apply (ensureTooth_present h nd teeth tooth t)|].
    split; [by exists teeth|]. split; [by intros l o _ H|]. split; done.
  - assert (Hteeth : teeth !! tooth = None).
    { destruct (Hall tooth) as [_ Hs]. destruct (teeth !! tooth) eqn:E; [|done].
      destruct Hs as [? Hs]; [eauto|]. rewrite Hc in Hs. discriminate. }
    pose proof (lookup_lt_Some _ _ _ Hnd) as Lnd.
    eexists. split; [by apply (ensureTooth_missing h nd teeth tooth)|].
    set (l := [Store.MeasurementObj createDefaultMeasurement;
               Store.MeasurementObj createDefaultMeasurement;
               Store.ToothObj (length h) (length h + 1)]).
    set (X := Store.ChartObj (<[tooth:=length h + 2]> teeth)).
    pose proof (heap_after_old h l nd X) as Hold.
    pose proof (heap_after_at h l nd X Lnd) as Hat.
    pose proof (heap_after_new h l nd X 0 _ Lnd eq_refl) as H0.
    rewrite Nat.add_0_r in H0.
    pose proof (heap_after_new h l nd X 1 _ Lnd eq_refl) as H1.
    pose proof (heap_after_new h l nd X 2 _ Lnd eq_refl) as H2.
    split; [|split; [exact Hold|split; [|by intros [? ?]]]].
    + exists (<[tooth:=length h + 2]> teeth). split; [exact Hat|].
      intros tooth0. destruct (decide (tooth0 = tooth)) as [->|Hne].
      * rewrite !lookup_insert_eq. split; [|eauto]. cbn [mbind option_bind].
        unfold Store.readTooth, Store.readMeasurement. rewrite H2, H0, H1. reflexivity.
      * rewrite !lookup_insert_ne by done.
        destruct (Hall tooth0) as [Heq Hsome]. split; [|exact Hsome].
        rewrite Heq. destruct (teeth !! tooth0) as [tl|] eqn:Htl; [|reflexivity].
        cbn [mbind option_bind].
        destruct Hsome as [td0 Htd0]; [eauto|].
        rewrite Htd0 in Heq. cbn [mbind option_bind] in Heq. symmetry in Heq.
        rewrite Heq. symmetry.
        apply (readTooth_stable nd h _ teeth); done.
    + intros tooth' Hne. unfold Store.toothRef. rewrite Hat, Hnd.
      subst X. cbv beta iota. by rewrite lookup_insert_ne.
Qed.

Lemma readMeasurement_extends h h' l m :
  extends h h' → Store.readMeasurement h l = Some m → Store.readMeasurement h' l = Some m.
Proof.
  unfold Store.readMeasurement. intros E H.
  destruct (h !! l) as [o|] eqn:Hl; [|discriminate].
  rewrite (E _ _ Hl). exact H.
Qed.

Lemma readTooth_extends h h' l td :
  extends h h' → Store.readTooth h l = Some td → Store.readTooth h' l = Some td.
Proof.
  unfold Store.readTooth. intros E H.
  destruct (h !! l) as [[|b p|]|] eqn:Hl; try discriminate.
  rewrite (E _ _ Hl).
  destruct (Store.readMeasurement h b) as [mb|] eqn:Hb; [|discriminate].
  destruct (Store.readMeasurement h p) as [mp|] eqn:Hp; [|discriminate].
  rewrite (readMeasurement_extends _ _ _ _ E Hb), (readMeasurement_extends _ _ _ _ E Hp).
  exact H.
Qed.

(** The shallow copy [{ ...prev }]. *)
Lemma represents_copy (h : Store.Heap) prev (c : Chart) teeth :
  h !! prev = Some (Store.ChartObj teeth) →
  Store.represents h prev c →
  Store.represents (h ++ [Store.ChartObj teeth])%list (length h) c.
Proof.
  intros Hprev (teeth' & Hprev' & Hall).
  rewrite Hprev in Hprev'. inversion Hprev'; subst teeth'. clear Hprev'.
  exists teeth. split; [by apply list_lookup_middle|].
  intros tooth. destruct (Hall tooth) as [Heq Hsome]. split; [|exact Hsome].
  rewrite Heq. destruct (teeth !! tooth) as [tl|] eqn:Htl; [|reflexivity].
  cbn [mbind option_bind].
  destruct Hsome as [td0 Htd0]; [eauto|].
  rewrite Htd0 in Heq. cbn [mbind option_bind] in Heq. symmetry in Heq.
  rewrite Heq. symmetry.
  apply (readTooth_extends h); [|done].
  intros l o Hl. by apply lookup_app_l_Some.
Qed.

Lemma handleUpdate_value_steps tooth surface field value (c : Chart) :
  handleUpdate tooth surface field value c
  = let td := default {| buccal := createDefaultMeasurement;
                         palatal := createDefaultMeasurement |} (c !! tooth) in
    <[tooth := setSurface td surface (<[field := value]> (getSurface td surface))]>
      (match c !! tooth with
       | None => <[tooth := {| buccal := createDefaultMeasurement;
                               palatal := createDefaultMeasurement |}]> c
       | Some _ => c
       end).
Proof.
  unfold handleUpdate. destruct (c !! tooth) as [td|] eqn:Hc; cbn [default].
  - by rewrite Hc.
  - by rewrite lookup_insert_eq.
Qed.

(** [handleUpdate] on the store: it runs without getting stuck, returns a
    fresh chart object standing for the updated chart, leaves every object
    of the input heap as it was, and shares with the input chart object the
    references of all other teeth and of the untouched surface. *)
Lemma handleUpdate_on_store (h : Store.Heap) prev (c : Chart) tooth surface field value :
  Store.represents h prev c →
  ∃ h', Store.handleUpdate tooth surface field value prev h = Some (length h, h')
    ∧ Store.represents h' (length h) (handleUpdate tooth surface field value c)
    ∧ extends h h'
    ∧ (∀ tooth', tooth' ≠ tooth →
         Store.toothRef h' (length h) tooth' = Store.toothRef h prev tooth')
    ∧ (is_Some (c !! tooth) →
         Store.measurementRef h' (length h) tooth (otherSurface surface)
         = Store.measurementRef h prev tooth (otherSurface surface)).
Proof.
  intros R. pose proof R as (teeth & Hprev & Hall).
  pose proof (represents_copy h prev c teeth Hprev R) as R1.
  set (h1 := (h ++ [Store.ChartObj teeth])%list) in *.
  assert (E1 : extends h h1) by (intros l o Hl; by apply lookup_app_l_Some).
  assert (T1 : ∀ tooth', Store.toothRef h1 (length h) tooth' = Store.toothRef h prev tooth').
  { intros tooth'. unfold Store.toothRef, h1. rewrite list_lookup_middle by done.
    by rewrite Hprev. }
  destruct (represents_ensureTooth h1 (length h) c tooth R1)
    as (h2 & Run2 & R2 & E2 & T2 & Same2).
  set (td := default {| buccal := createDefaultMeasurement;
                        palatal := createDefaultMeasurement |} (c !! tooth)).
  assert (Hc2 : match c !! tooth with
                | None => <[tooth := {| buccal := createDefaultMeasurement;
                                        palatal := createDefaultMeasurement |}]> c
                | Some _ => c
                end !! tooth = Some td).
  { subst td. destruct (c !! tooth) eqn:Hc; cbn [default]; [done|].
    by rewrite lookup_insert_eq. }
  destruct (represents_replaceField h2 (length h) _ tooth td surface field value R2 Hc2)
    as (h3 & Run3 & R3 & E3 & T3 & M3).
  exists h3. split; [|split; [|split; [|split]]].
  - unfold Store.handleUpdate, Store.bind, Store.loadChart. rewrite Hprev.
    unfold Store.alloc. fold h1. rewrite Run2, Run3. reflexivity.
  - rewrite handleUpdate_value_steps. exact R3.
  - intros l o Hl. pose proof (lookup_lt_Some _ _ _ Hl) as Ll.
    apply E3; [lia|]. apply E2; [lia|]. by apply E1.
  - intros tooth' Hne. rewrite T3, T2 by done. apply T1.
  - intros Hsome. rewrite M3. rewrite (Same2 Hsome).
    unfold Store.measurementRef. rewrite T1.
    destruct (Store.toothRef h prev tooth) as [t|]; [|reflexivity].
    destruct Hsome as [td0 Htd0].
    destruct (represents_tooth _ _ _ _ _ _ Hprev Hall Htd0) as (t' & Ht' & Hread).
    destruct (h !! t) as [o|] eqn:Ho.
    + by rewrite (E1 _ _ Ho).
    + destruct (h1 !! t) as [o|] eqn:Ho1; [|reflexivity].
      unfold h1 in Ho1. apply lookup_app_Some in Ho1 as [Ho1|[Hlen Ho1]].
      * rewrite Ho in Ho1. discriminate.
      * destruct (t - length h) as [|k]; simpl in Ho1; [|discriminate].
        by inversion Ho1.
Qed.

End UpdateOnStore.

(** ** The frame of an update *)

Section UpdateFrame.

(** C7. An update changes only the targeted field of the targeted surface
    of the targeted tooth: the other fields of that measurement, the other
    surface of that tooth and all other teeth keep their values.  On the
    store of objects, the update returns a fresh chart object, changes no
    object of the input, and the new chart object holds the very
    references of the input chart object for all other teeth (and, within
    the targeted tooth, for the untouched surface's measurement). *)
Theorem update_changes_only_its_target :
  (∀ (c : Chart) tooth surface field value td,
     c !! tooth = Some td →
     ∃ td', handleUpdate tooth surface field value c !! tooth = Some td'
       ∧ getSurface td' surface !! field = Some value
       ∧ (∀ f, f ≠ field → getSurface td' surface !! f = getSurface td surface !! f)
       ∧ getSurface td' (otherSurface surface) = getSurface td (otherSurface surface)
       ∧ (∀ tooth', tooth' ≠ tooth →
            handleUpdate tooth surface field value c !! tooth' = c !! tooth'))
  ∧ (∀ (h : Store.Heap) prev (c : Chart) tooth surface field value,
       Store.represents h prev c →
       ∃ new h',
         Store.handleUpdate tooth surface field value prev h = Some (new, h')
         ∧ Store.represents h' new (handleUpdate tooth surface field value c)
         ∧ (length h ≤ new)%nat
         ∧ extends h h'
         ∧ (∀ tooth', tooth' ≠ tooth →
              Store.toothRef h' new tooth' = Store.toothRef h prev tooth')
         ∧ (is_Some (c !! tooth) →
              Store.measurementRef h' new tooth (otherSurface surface)
              = Store.measurementRef h prev tooth (otherSurface surface))).
Proof.
  split.
  - intros c tooth surface field value td Hc.
    exists (setSurface td surface (<[field := value]> (getSurface td surface))).
    split; [|split; [|split; [|split]]].
    + rewrite handleUpdate_lookup, decide_True by done. rewrite Hc. reflexivity.
    + destruct surface; cbn [setSurface getSurface buccal palatal]; apply lookup_insert_eq.
    + intros f Hf.
      destruct surface; cbn [setSurface getSurface buccal palatal];
        by apply lookup_insert_ne.
    + destruct surface; reflexivity.
    + intros tooth' Hne. rewrite handleUpdate_lookup. by rewrite decide_False.
  - intros h prev c tooth surface field value R.
    destruct (handleUpdate_on_store h prev c tooth surface field value R)
      as (h' & Run & R' & E & T & M).
    exists (length h), h'. repeat split; try done.
Qed.


End UpdateFrame.

Lemma update_changes_only_its_target_witness :
  (∃ td', handleUpdate "18" Buccal "mobility" (VNum 2)
            {[ "18" := {| buccal := createDefaultMeasurement;
                          palatal := createDefaultMeasurement |} ]} !! "18" = Some td'
     ∧ getSurface td' Buccal !! "mobility" = Some (VNum 2)
     ∧ getSurface td' Palatal = createDefaultMeasurement)
  ∧ (∃ new h',
       Store.handleUpdate "18" Buccal "mobility" (VNum 2) 3
         [ Store.MeasurementObj createDefaultMeasurement;
           Store.MeasurementObj createDefaultMeasurement;
           Store.ToothObj 0 1;
           Store.ChartObj {[ "18" := 2 ]} ] = Some (new, h')
       ∧ (4 ≤ new)%nat
       ∧ Store.measurementRef h' new "18" Palatal = Some 1).
Proof.
  split.
  - destruct (proj1 update_changes_only_its_target
                {[ "18" := {| buccal := createDefaultMeasurement;
                              palatal := createDefaultMeasurement |} ]}
                "18" Buccal "mobility" (VNum 2)
                {| buccal := createDefaultMeasurement; palatal := createDefaultMeasurement |})
      as (td' & H1 & H2 & _ & H4 & _).
    { apply lookup_singleton_eq. }
    exists td'. auto.
  - destruct (proj2 update_changes_only_its_target
                [ Store.MeasurementObj createDefaultMeasurement;
                  Store.MeasurementObj createDefaultMeasurement;
                  Store.ToothObj 0 1;
                  Store.ChartObj {[ "18" := 2 ]} ] 3
                {[ "18" := {| buccal := createDefaultMeasurement;
                              palatal := createDefaultMeasurement |} ]}
                "18" Buccal "mobility" (VNum 2))
      as (new & h' & Run & _ & Hnew & _ & _ & HM).
    { exists {[ "18" := 2 ]}. split; [reflexivity|].
      intros tooth. destruct (decide (tooth = "18")) as [->|Hne].
      - rewrite !lookup_singleton_eq. split; [reflexivity | eauto].
      - rewrite !lookup_singleton_ne by done. split; [reflexivity|].
        intros [? H]. discriminate. }
    exists new, h'. split; [exact Run|]. split; [exact Hnew|].
    cbn [otherSurface] in HM. rewrite HM.
    + reflexivity.
    + rewrite lookup_singleton_eq. eauto.
Defined.

(** ** Number input: what a committed edit stores *)

Section NumberInput.

Local Open Scope Z_scope.

Lemma jsOr_number n : jsOr (VNum n) (VNum 0) = VNum n.
Proof.
  unfold jsOr, truthy. destruct (n =? 0) eqn:E; [|reflexivity].
  apply Z.eqb_eq in E. by subst.
Qed.

Lemma storedNumber_handleUpdate tooth surface field n (c : Chart) :
  storedNumber (handleUpdate tooth surface field (VNum n) c) tooth surface field = Some n.
Proof.
  unfold storedNumber. rewrite handleUpdate_lookup, decide_True by done.
  cbv zeta. unfold getProp.
  destruct surface; cbn [setSurface getSurface buccal palatal];
    by rewrite lookup_insert_eq.
Qed.

Lemma commitNumber_stores (c : Chart) tooth surface field props text td old :
  c !! tooth = Some td →
  getProp (getSurface td surface) field = VNum old →
  storedNumber (commitNumber tooth surface field props text c) tooth surface field
  = Some (Z.max (default 0 props.1)
            (Z.min (default 15 props.2) (default 0 (parseInt text)))).
Proof.
  intros Hc Hold. unfold commitNumber. rewrite Hc. cbn [fmap option_fmap option_map default].
  unfold id. rewrite Hold, jsOr_number. unfold numberInputEffect.
  destruct (decide _) as [Hne|Heq].
  - apply storedNumber_handleUpdate.
  - unfold storedNumber. rewrite Hc, Hold. f_equal.
    apply dec_stable in Heq. by inversion Heq.
Qed.

Lemma props_match_rules field rule :
  (field, rule) ∈ VALIDATION_RULES →
  ∃ props, (field, props) ∈ numberInputProps
           ∧ default 0 props.1 = min rule ∧ default 15 props.2 = max rule.
Proof.
  intros Hin.
  assert (F : Forall (λ e : string * Rule,
                Exists (λ p : string * (option Z * option Z),
                  p.1 = e.1 ∧ default 0 p.2.1 = min e.2 ∧ default 15 p.2.2 = max e.2)
                  numberInputProps) VALIDATION_RULES) by compute_done.
  rewrite Forall_forall in F. specialize (F _ Hin).
  apply Exists_exists in F as ([f props] & Hp & Hf & Hmin & Hmax).
  cbn [fst snd] in *. subst f. exists props. auto.
Qed.

(** A decimal digit is not white space, a sign, a point or a hex marker. *)
Lemma decimal_digit_char c :
  match digitValue c with
  | Some d =>
      if d <? 10
      then (0 <=? d) && negb (isWhiteSpace c) && negb (c =? "-")%char
           && negb (c =? "+")%char && negb (c =? ".")%char
           && negb (c =? "x")%char && negb (c =? "X")%char
      else true
  | None => true
  end = true.
Proof. destruct c as [[] [] [] [] [] [] [] []]; reflexivity. Qed.

Lemma radixDigits_decimal s :
  Forall (λ d, 0 ≤ d < 10) (radixDigits 10 s).1.
Proof.
  induction s as [|c r IH]; cbn [radixDigits]; [constructor|].
  pose proof (decimal_digit_char c) as Hc.
  destruct (digitValue c) as [d|]; [|constructor].
  destruct (d <? 10) eqn:Hd; [|constructor].
  destruct (radixDigits 10 r) as [ds rest]. cbn [fst] in *.
  constructor; [|exact IH].
  apply Z.ltb_lt in Hd. repeat (apply andb_true_iff in Hc as [Hc _]).
  apply Z.leb_le in Hc. lia.
Qed.

Lemma mathInt_from acc ds :
  Forall (λ d, 0 ≤ d < 10) ds → 0 ≤ acc →
  acc * 10 ^ Z.of_nat (length ds)
  ≤ foldl (λ acc d, acc * 10 + d) acc ds
  < (acc + 1) * 10 ^ Z.of_nat (length ds).
Proof.
  intros F. revert acc. induction F as [|d ds Hd F IH]; intros acc Hacc.
  - cbn [foldl length]. change (10 ^ Z.of_nat 0) with 1. lia.
  - cbn [foldl length]. specialize (IH (acc * 10 + d) ltac:(lia)).
    rewrite Nat2Z.inj_succ, Z.pow_succ_r by lia.
    assert (0 < 10 ^ Z.of_nat (length ds)) by (apply Z.pow_pos_nonneg; lia).
    nia.
Qed.

Lemma mathInt_bound ds :
  Forall (λ d, 0 ≤ d < 10) ds → 0 ≤ mathInt 10 ds < 10 ^ Z.of_nat (length ds).
Proof.
  intros F. unfold mathInt. pose proof (mathInt_from 0 ds F ltac:(lia)). lia.
Qed.

Lemma Qtruncate_integer a : Qtruncate (inject_Z a) = a ∧ Qtruncate (- inject_Z a) = - a.
Proof.
  unfold Qtruncate. cbn [inject_Z Qopp Qnum Qden].
  rewrite !Z.quot_1_r. done.
Qed.

Lemma Qtruncate_fraction a f k :
  0 ≤ a → 0 ≤ k → 0 ≤ f < 10 ^ k →
  Qtruncate (inject_Z a + (f # Z.to_pos (10 ^ k))) = a ∧
  Qtruncate (- (inject_Z a + (f # Z.to_pos (10 ^ k)))) = - a.
Proof.
  intros Ha Hk Hf.
  assert (P : 0 < 10 ^ k) by (apply Z.pow_pos_nonneg; lia).
  unfold Qtruncate. cbn [inject_Z Qplus Qopp Qnum Qden].
  rewrite Pos.mul_1_l, Z2Pos.id by exact P. rewrite Z.mul_1_r.
  assert (E : (a * 10 ^ k + f) ÷ 10 ^ k = a).
  { rewrite Z.quot_div_nonneg by nia.
    rewrite Z.div_add_l by lia. rewrite Z.div_small by lia. lia. }
  split; [exact E|]. rewrite Z.quot_opp_l by lia. by rewrite E.
Qed.

Lemma decimalMagnitude_head c r q :
  decimalMagnitude (String c r) = Some q →
  isWhiteSpace c = false ∧ (c =? "-")%char = false ∧ (c =? "+")%char = false.
Proof.
  unfold decimalMagnitude. cbn [radixDigits].
  pose proof (decimal_digit_char c) as Hc.
  assert (Hpoint : (if (c =? ".")%char then
             let '(fp, rest') := radixDigits 10 r in
             match rest', ([] ++ fp)%list with
             | EmptyString, _ :: _ =>
                 Some (inject_Z (mathInt 10 [])
                       + (mathInt 10 fp # Z.to_pos (10 ^ Z.of_nat (length fp))))%Q
             | _, _ => None
             end
           else None) = Some q →
          isWhiteSpace c = false ∧ (c =? "-")%char = false ∧ (c =? "+")%char = false).
  { destruct (c =? ".")%char eqn:E; [|discriminate].
    apply Ascii.eqb_eq in E. subst c. intros _. repeat split. }
  destruct (digitValue c) as [d|]; [|exact Hpoint].
  destruct (d <? 10); [|exact Hpoint].
  intros _. repeat (apply andb_true_iff in Hc as [Hc ?]).
  repeat match goal with H : negb _ = true |- _ => apply negb_true_iff in H end.
  auto.
Qed.

Lemma decimalMagnitude_no_prefix body q :
  decimalMagnitude body = Some q → stripPrefix body = (10, body).
Proof.
  intros H. destruct body as [|c0 [|c1 r]]; try reflexivity.
  unfold stripPrefix.
  destruct (c0 =? "0")%char eqn:E0; [|reflexivity].
  destruct ((c1 =? "x")%char || (c1 =? "X")%char) eqn:E1; [|reflexivity].
  exfalso. apply Ascii.eqb_eq in E0. subst c0.
  apply orb_true_iff in E1 as [E1|E1]; apply Ascii.eqb_eq in E1; subst c1;
    unfold decimalMagnitude in H; simpl in H; discriminate.
Qed.

Lemma parse_decimal_body sign body q :
  decimalMagnitude body = Some q →
  default 0 (match (radixDigits 10 body).1 with
             | [] => None
             | digits => Some (sign * mathInt 10 digits)
             end) = sign * Qtruncate q
  ∧ Qtruncate (- q) = - Qtruncate q.
Proof.
  unfold decimalMagnitude.
  pose proof (radixDigits_decimal body) as Fip.
  destruct (radixDigits 10 body) as [ip rest]. cbn [fst] in *.
  assert (Hip : default 0 (match ip with
                           | [] => None
                           | _ => Some (sign * mathInt 10 ip)
                           end) = sign * mathInt 10 ip).
  { destruct ip; cbn [default]; [|reflexivity]. unfold mathInt. cbn [foldl]. lia. }
  destruct rest as [|c fr].
  - destruct ip as [|d ds] eqn:Eip; [discriminate|]. rewrite <- Eip in *.
    intros [= <-]. destruct (Qtruncate_integer (mathInt 10 ip)) as [T1 T2].
    rewrite T1, T2. split; [|reflexivity].
    rewrite <- Hip. subst ip. reflexivity.
  - destruct (c =? ".")%char; [|discriminate].
    pose proof (radixDigits_decimal fr) as Ffp.
    destruct (radixDigits 10 fr) as [fp rest']. cbn [fst] in *.
    destruct rest'; [|discriminate].
    destruct (ip ++ fp)%list; [discriminate|].
    intros [= <-].
    pose proof (mathInt_bound ip Fip) as Bip.
    pose proof (mathInt_bound fp Ffp) as Bfp.
    destruct (Qtruncate_fraction (mathInt 10 ip) (mathInt 10 fp) (Z.of_nat (length fp)))
      as [T1 T2]; [lia.. |].
    rewrite T1, T2. split; [|reflexivity].
    rewrite <- Hip. destruct ip; reflexivity.
Qed.

(** On plain decimal text [Number.parseInt] rounds toward zero. *)
Lemma parseInt_decimal text q :
  decimalValue text = Some q → default 0 (parseInt text) = Qtruncate q.
Proof.
  destruct text as [|c r]; [discriminate|].
  unfold decimalValue. destruct (c =? "-")%char eqn:Em.
  - apply Ascii.eqb_eq in Em. subst c.
    destruct (decimalMagnitude r) as [q0|] eqn:Hm; [|discriminate].
    intros [= <-]. unfold parseInt.
    change (stripSign (trimStart (String "-" r))) with ((-1), r).
    cbv beta iota. rewrite (decimalMagnitude_no_prefix r q0 Hm). cbv beta iota.
    destruct (parse_decimal_body (-1) r q0 Hm) as [P1 P2].
    rewrite P1, P2. lia.
  - intros Hm. destruct (decimalMagnitude_head c r q Hm) as (Hw & _ & Hp).
    unfold parseInt. cbn [trimStart]. rewrite Hw.
    unfold stripSign. rewrite Em, Hp.
    cbv beta iota. rewrite (decimalMagnitude_no_prefix _ q Hm). cbv beta iota.
    destruct (parse_decimal_body 1 _ q Hm) as [P1 _].
    rewrite P1. lia.
Qed.

(** C4, as amended.  For every rule field, a committed edit of raw text [v]
    stores [max(min, min(max, n))], where [min] and [max] are the field's
    declared domain and [n] is [Number.parseInt(v)], or 0 when that is
    [NaN]; on plain decimal text [n] is [v] rounded toward zero.  A
    probing-depth field given "99" stores 15 and mobility given "-5"
    stores 0. *)
Theorem committed_number_is_clamped :
  (∀ (c : Chart) tooth surface field rule td old text,
     (field, rule) ∈ VALIDATION_RULES →
     c !! tooth = Some td →
     getProp (getSurface td surface) field = VNum old →
     ∃ props, (field, props) ∈ numberInputProps ∧
       storedNumber (commitNumber tooth surface field props text c) tooth surface field
       = Some (Z.max (min rule) (Z.min (max rule) (default 0 (parseInt text)))))
  ∧ (∀ text q, decimalValue text = Some q → default 0 (parseInt text) = Qtruncate q)
  ∧ (∀ (c : Chart) tooth surface td old,
       c !! tooth = Some td →
       getProp (getSurface td surface) "probing_depth_mid" = VNum old →
       storedNumber (commitNumber tooth surface "probing_depth_mid" (None, Some 15) "99" c)
         tooth surface "probing_depth_mid" = Some 15)
  ∧ (∀ (c : Chart) tooth surface td old,
       c !! tooth = Some td →
       getProp (getSurface td surface) "mobility" = VNum old →
       storedNumber (commitNumber tooth surface "mobility" (None, Some 3) "-5" c)
         tooth surface "mobility" = Some 0).
Proof.
  split; [|split; [exact parseInt_decimal|split]].
  - intros c tooth surface field rule td old text Hr Hc Hold.
    destruct (props_match_rules field rule Hr) as (props & Hp & Hmin & Hmax).
    exists props. split; [exact Hp|].
    rewrite (commitNumber_stores c tooth surface field props text td old Hc Hold).
    by rewrite Hmin, Hmax.
  - intros c tooth surface td old Hc Hold.
    by rewrite (commitNumber_stores c tooth surface _ _ _ td old Hc Hold).
  - intros c tooth surface td old Hc Hold.
    by rewrite (commitNumber_stores c tooth surface _ _ _ td old Hc Hold).
Qed.


(** The wording with [floor] fails on a negative fraction: the
    gingival-margin input given "-5.7" stores -5, not -6. *)
Lemma floor_of_negative_fraction_is_not_stored :
  storedNumber
    (commitNumber "18" Buccal "gingival_margin_mid" (Some (-10), Some 10) "-5.7"
       {[ "18" := {| buccal := createDefaultMeasurement;
                     palatal := createDefaultMeasurement |} ]})
    "18" Buccal "gingival_margin_mid" = Some (-5)
  ∧ decimalValue "-5.7" = Some (- (5 + (7 # 10)))%Q
  ∧ floorClamp (-10) 10 "-5.7" = -6
  ∧ storedNumber
      (commitNumber "18" Buccal "gingival_margin_mid" (Some (-10), Some 10) "-5.7"
         {[ "18" := {| buccal := createDefaultMeasurement;
                       palatal := createDefaultMeasurement |} ]})
      "18" Buccal "gingival_margin_mid" ≠ Some (floorClamp (-10) 10 "-5.7").
Proof.
  assert (E : storedNumber
    (commitNumber "18" Buccal "gingival_margin_mid" (Some (-10), Some 10) "-5.7"
       {[ "18" := {| buccal := createDefaultMeasurement;
                     palatal := createDefaultMeasurement |} ]})
    "18" Buccal "gingival_margin_mid" = Some (-5)) by (vm_compute; reflexivity).
  split; [exact E|]. split; [reflexivity|]. split; [reflexivity|].
  rewrite E. discriminate.
Qed.

End NumberInput.

Lemma committed_number_is_clamped_witness :
  ∃ props, ("gingival_margin_mid", props) ∈ numberInputProps ∧
    storedNumber
      (commitNumber "18" Buccal "gingival_margin_mid" props "-5.7"
         {[ "18" := {| buccal := createDefaultMeasurement;
                       palatal := createDefaultMeasurement |} ]})
      "18" Buccal "gingival_margin_mid"
    = Some (Z.max (-10) (Z.min 10 (default 0%Z (parseInt "-5.7")))).
Proof.
  apply (proj1 committed_number_is_clamped
           {[ "18" := {| buccal := createDefaultMeasurement;
                         palatal := createDefaultMeasurement |} ]}
           "18" Buccal "gingival_margin_mid" (mkRule (-10) 10 true)
           {| buccal := createDefaultMeasurement; palatal := createDefaultMeasurement |}
           0%Z "-5.7").
  - unfold VALIDATION_RULES. do 3 right. left.
  - apply lookup_singleton_eq.
  - reflexivity.
Defined.

(** ** Where values are clamped *)

Section InputBoundary.

Lemma slice0_length n s : (String.length (slice0 n s) ≤ n)%nat.
Proof.
  revert s. induction n as [|n IH]; intros [|c r]; cbn [slice0 String.length]; try lia.
  specialize (IH r). lia.
Qed.

Lemma handleUpdate_stored tooth surface field value (c : Chart) :
  ∃ td', handleUpdate tooth surface field value c !! tooth = Some td'
         ∧ getProp (getSurface td' surface) field = value.
Proof.
  rewrite handleUpdate_lookup, decide_True by done. cbv zeta.
  eexists. split; [reflexivity|]. unfold getProp.
  destruct surface; cbn [setSurface getSurface buccal palatal];
    by rewrite lookup_insert_eq.
Qed.

(** C10. The update stores the value it is given, whatever it is: a number
    outside the field's domain or a note of any length is stored as such,
    and the out-of-range number then shows up in the validation result
    (and blocks submission).  Clamping and truncation are done by the input
    components before they call the update: a number input only passes
    values within its bounds, the text input only texts of at most 100
    characters. *)
Theorem update_stores_value_unchanged :
  (∀ (c : Chart) tooth surface field value,
     ∃ td', handleUpdate tooth surface field value c !! tooth = Some td'
            ∧ getProp (getSurface td' surface) field = value)
  ∧ (∀ (c : Chart) tooth surface field rule n,
       tooth ∈ ALL_TEETH → (field, rule) ∈ VALIDATION_RULES →
       (n < min rule ∨ max rule < n)%Z →
       ∃ E, validationErrors (handleUpdate tooth surface field (VNum n) c)
              !! surfaceKey tooth surface = Some E
            ∧ field ++ "_range" ∈ E
            ∧ isDataValid (handleUpdate tooth surface field (VNum n) c) = false)
  ∧ (∀ min max value text n,
       (min ≤ max)%Z → numberInputEffect min max value text = Some n →
       (min ≤ n ≤ max)%Z)
  ∧ (∀ value text t,
       textInputEffect value text = Some t →
       t = slice0 100 text ∧ (String.length t ≤ 100)%nat).
Proof.
  split; [|split; [|split]].
  - intros c tooth surface field value. apply handleUpdate_stored.
  - intros c tooth surface field rule n Ht Hr Hout.
    destruct (handleUpdate_stored tooth surface field (VNum n) c) as (td' & Hc' & Hv).
    set (E := validateToothData (getSurface td' surface)).
    assert (Hcode : field ++ "_range" ∈ E).
    { apply validateToothData_elem. exists field, rule. split; [done|].
      right. split; [reflexivity|]. rewrite Hv. exists n. done. }
    assert (HE : validationErrors (handleUpdate tooth surface field (VNum n) c)
                   !! surfaceKey tooth surface = Some E).
    { apply validationErrors_lookup. exists tooth, surface. split; [done|].
      exists td'. repeat split; try done. intros H0. rewrite H0 in Hcode.
      by apply not_elem_of_empty in Hcode. }
    exists E. split; [exact HE|]. split; [exact Hcode|].
    destruct (isDataValid _) eqn:Hv'; [|reflexivity].
    apply isDataValid_empty in Hv'. rewrite Hv', lookup_empty in HE. discriminate.
  - intros min max value text n Hmm. unfold numberInputEffect.
    destruct (decide _); [|discriminate]. intros [= <-]. lia.
  - intros value text t. unfold textInputEffect.
    destruct (decide _); [|discriminate]. intros H.
    assert (t = slice0 100 text) as -> by congruence.
    split; [reflexivity | apply slice0_length].
Qed.


End InputBoundary.

Lemma update_stores_value_unchanged_witness :
  (∃ E, validationErrors (handleUpdate "18" Buccal "probing_depth_mid" (VNum 20) ∅)
          !! surfaceKey "18" Buccal = Some E
        ∧ "probing_depth_mid" ++ "_range" ∈ E
        ∧ isDataValid (handleUpdate "18" Buccal "probing_depth_mid" (VNum 20) ∅) = false)
  ∧ (0 ≤ 15 ≤ 15)%Z.
Proof.
  split.
  - apply (proj1 (proj2 update_stores_value_unchanged) ∅ "18" Buccal
             "probing_depth_mid" (mkRule 0 15 true) 20%Z).
    + unfold ALL_TEETH. simpl. left.
    + unfold VALIDATION_RULES. do 6 right. left.
    + right. reflexivity.
  - apply (proj1 (proj2 (proj2 update_stores_value_unchanged)) 0%Z 15%Z (VNum 0) "99" 15%Z).
    + discriminate.
    + reflexivity.
Defined.

(** ** Summary statistics *)

Section SummaryStatistics.

Lemma truthy_jsOr a b : truthy (jsOr a b) = truthy a || truthy b.
Proof. unfold jsOr. destruct (truthy a) eqn:E; [by rewrite E | reflexivity]. Qed.

Lemma collect_sites (ms : list Obj) :
  ∀ st,
    foldl (λ st m, collectSite m st) st ms
    = {| depths := depths st ++ (ms ≫= siteDepths);
         margins := margins st ++ (ms ≫= siteMargins);
         plaqueCount := plaqueCount st + sitesWith anyPlaque ms;
         bleedingCount := bleedingCount st + sitesWith anyBleeding ms;
         totalSites := totalSites st + length ms |}.
Proof.
  induction ms as [|m ms IH]; intros st.
  - cbn [foldl mbind list_bind app]. unfold sitesWith. cbn [List.filter length].
    rewrite !app_nil_r, !Nat.add_0_r. by destruct st.
  - cbn [foldl]. rewrite IH. unfold collectSite at 1 2 3 4 5.
    cbn [depths margins plaqueCount bleedingCount totalSites].
    rewrite !truthy_jsOr. fold (anyPlaque m). fold (anyBleeding m).
    unfold sitesWith. cbn [List.filter mbind list_bind length].
    rewrite <- !app_assoc.
    f_equal; try reflexivity.
    + destruct (anyPlaque m); cbn [length]; lia.
    + destruct (anyBleeding m); cbn [length]; lia.
    + lia.
Qed.

Lemma collectStats_fold (c : Chart) (teeth : list string) :
  ∀ st,
    foldl (λ acc tooth,
             forEach [Buccal; Palatal] (λ _ surface stats,
               match (λ td, getSurface td surface) <$> c !! tooth with
               | Some data => collectSite data stats
               | None => stats
               end) acc) st teeth
    = foldl (λ st m, collectSite m st) st (sitesOf c teeth).
Proof.
  induction teeth as [|tooth teeth IH]; intros st; [reflexivity|].
  cbn [foldl]. rewrite IH. unfold sitesOf. cbn [mbind list_bind].
  rewrite foldl_app. f_equal.
  unfold forEach. cbn [imap foldl fst snd].
  destruct (c !! tooth) as [td|]; reflexivity.
Qed.

Lemma collectStats_sites (c : Chart) :
  collectStats c
  = {| depths := sites c ≫= siteDepths;
       margins := sites c ≫= siteMargins;
       plaqueCount := sitesWith anyPlaque (sites c);
       bleedingCount := sitesWith anyBleeding (sites c);
       totalSites := length (sites c) |}.
Proof.
  unfold collectStats. rewrite (forEach_fold ALL_TEETH).
  rewrite collectStats_fold, collect_sites. reflexivity.
Qed.

Lemma sitesOf_length (c : Chart) teeth :
  (∀ tooth, tooth ∈ teeth → is_Some (c !! tooth)) →
  length (sitesOf c teeth) = 2 * length teeth.
Proof.
  induction teeth as [|tooth teeth IH]; intros Hall; [reflexivity|].
  unfold sitesOf. cbn [mbind list_bind]. rewrite length_app.
  fold (sitesOf c teeth). rewrite IH by (intros t Ht; apply Hall; by right).
  destruct (Hall tooth) as [td ->]; [left|]. cbn [length]. lia.
Qed.

(** The charts the component can hold have all 32 teeth: the initial chart
    has them and an update keeps them. *)
Lemma initialChart_populated initialValues : fullyPopulated (initialChart initialValues).
Proof.
  intros tooth Ht. rewrite initialChart_lookup, decide_True by done. eauto.
Qed.

Lemma handleUpdate_populated tooth surface field value (c : Chart) :
  fullyPopulated c → fullyPopulated (handleUpdate tooth surface field value c).
Proof.
  intros Hc tooth' Ht. rewrite handleUpdate_lookup.
  case_decide; [eauto | by apply Hc].
Qed.

Lemma sites_length (c : Chart) : fullyPopulated c → length (sites c) = 64.
Proof. intros H. unfold sites. by rewrite sitesOf_length. Qed.

Lemma sitesOf_populated_length (c : Chart) (f : Obj → list JsVal) teeth :
  (∀ m, length (f m) = 3) →
  length (sitesOf c teeth ≫= f) = 3 * length (sitesOf c teeth).
Proof.
  intros Hf. induction (sitesOf c teeth) as [|m ms IH]; [reflexivity|].
  cbn [mbind list_bind] in *. rewrite length_app, IH, Hf. cbn [length]. lia.
Qed.

Lemma sumNumbers_numbers zs : sumNumbers (VNum <$> zs) = Some (sumList zs).
Proof.
  unfold sumNumbers.
  assert (G : ∀ a, foldl (λ acc x, match acc, x with
                                   | Some a, VNum b => Some (a + b)%Z
                                   | _, _ => None
                                   end) (Some a) (VNum <$> zs)
                   = Some (a + sumList zs)%Z).
  { induction zs as [|z zs IH]; intros a; cbn [fmap list_fmap foldl sumList foldr].
    - f_equal. lia.
    - rewrite IH. f_equal. unfold sumList. lia. }
  apply (G 0%Z).
Qed.

Lemma siteMargins_insert f v (m : Obj) :
  f ∉ gingivalMarginFields → siteMargins (<[f := v]> m) = siteMargins m.
Proof.
  intros Hf. unfold siteMargins, getProp.
  rewrite !lookup_insert_ne; [reflexivity|..];
    intros ->; apply Hf; unfold gingivalMarginFields; set_solver.
Qed.

Lemma margins_after_update (c : Chart) tooth surface f v teeth :
  is_Some (c !! tooth) → f ∉ gingivalMarginFields →
  sitesOf (handleUpdate tooth surface f v c) teeth ≫= siteMargins
  = sitesOf c teeth ≫= siteMargins.
Proof.
  intros [td Htd] Hf. induction teeth as [|t teeth IH]; [reflexivity|].
  unfold sitesOf in *. cbn [mbind list_bind]. rewrite !bind_app, IH. f_equal.
  rewrite handleUpdate_lookup. destruct (decide (t = tooth)) as [->|Hne]; [|reflexivity].
  rewrite Htd. cbn [default].
  destruct surface; cbn [setSurface getSurface buccal palatal mbind list_bind];
    rewrite siteMargins_insert by done; reflexivity.
Qed.

(** A percentage of 64 sites printed with no fraction digits is the nearest
    whole number in decimal digits, the upper one on a tie. *)
Lemma toFixed_percent_of_64 (k : nat) :
  toFixed 0 ((Z.of_nat k # 64) * 100) = pretty (N.of_nat ((25 * k + 8) / 16)).
Proof.
  unfold toFixed. cbn [Qmult Qnum Qden Qabs].
  rewrite bool_decide_eq_false_2 by lia.
  rewrite decide_True by reflexivity.
  lazymatch goal with |- "" +:+ ?a = _ => change ("" +:+ a) with a end.
  f_equal. rewrite Z.abs_eq by lia.
  unfold Qfloor. cbn [Qmult Qplus inject_Z Qnum Qden].
  change (10 ^ Z.of_nat 0)%Z with 1%Z.
  change (Z.pos (64 * 1 * 1 * 2)) with (8 * 16)%Z.
  change (Z.pos (64 * 1 * 1)) with 64%Z.
  replace (Z.of_nat k * 100 * 1 * 2 + 1 * 64)%Z
    with (8 * (25 * Z.of_nat k + 8))%Z by lia.
  rewrite Z.div_mul_cancel_l by lia.
  apply N2Z.inj. rewrite Z2N.id by (apply Z.div_pos; lia).
  rewrite nat_N_Z, Nat2Z.inj_div. f_equal. lia.
Qed.

(** C9. On a chart that has all 32 teeth, the plaque and the bleeding
    percentage are taken over the 64 site records: the number of sites with
    some plaque (some bleeding) flag set, times 100 over 64, printed with
    no fraction digits, that is, as the nearest whole number.  With 16 such
    sites the plaque percentage is "25". *)
Theorem percentages_over_all_sites (c : Chart) :
  fullyPopulated c →
  length (sites c) = 64
  ∧ totalSites (collectStats c) = 64
  ∧ plaqueCount (collectStats c) = sitesWith anyPlaque (sites c)
  ∧ bleedingCount (collectStats c) = sitesWith anyBleeding (sites c)
  ∧ plaquePercent (summaryStats c)
    = toFixed 0 ((Z.of_nat (sitesWith anyPlaque (sites c)) # 64) * 100)
  ∧ bleedingPercent (summaryStats c)
    = toFixed 0 ((Z.of_nat (sitesWith anyBleeding (sites c)) # 64) * 100)
  ∧ plaquePercent (summaryStats c)
    = pretty (N.of_nat ((25 * sitesWith anyPlaque (sites c) + 8) / 16))
  ∧ bleedingPercent (summaryStats c)
    = pretty (N.of_nat ((25 * sitesWith anyBleeding (sites c) + 8) / 16))
  ∧ (sitesWith anyPlaque (sites c) = 16 → plaquePercent (summaryStats c) = "25").
Proof.
  intros Hfull. pose proof (sites_length c Hfull) as L.
  assert (P : plaquePercent (summaryStats c)
              = toFixed 0 ((Z.of_nat (sitesWith anyPlaque (sites c)) # 64) * 100)).
  { unfold summaryStats. cbv zeta. cbn [plaquePercent].
    rewrite collectStats_sites. cbn [totalSites plaqueCount]. rewrite L.
    rewrite decide_True by lia. reflexivity. }
  assert (B : bleedingPercent (summaryStats c)
              = toFixed 0 ((Z.of_nat (sitesWith anyBleeding (sites c)) # 64) * 100)).
  { unfold summaryStats. cbv zeta. cbn [bleedingPercent].
    rewrite collectStats_sites. cbn [totalSites bleedingCount]. rewrite L.
    rewrite decide_True by lia. reflexivity. }
  rewrite collectStats_sites. cbn [totalSites plaqueCount bleedingCount].
  repeat split; try done.
  - rewrite P. apply toFixed_percent_of_64.
  - rewrite B. apply toFixed_percent_of_64.
  - intros H16. rewrite P, H16. reflexivity.
Qed.

(** C8. The statistic shown as "Mean Attachment Level" is the mean of the
    gingival-margin values alone, printed with one fraction digit: on a
    chart with all 32 teeth these are the 3 margins of each of the 64 site
    records, 192 values; probing depths have no part in it. *)
Theorem attachment_level_is_mean_margin (c : Chart) :
  ("Mean Attachment Level", meanMargin (summaryStats c)) ∈ summaryPanel (summaryStats c)
  ∧ meanMargin (summaryStats c) = toFixed 1 <$> meanOf (sites c ≫= siteMargins)
  ∧ (fullyPopulated c →
       length (sites c ≫= siteMargins) = 192
       ∧ ∀ zs, sites c ≫= siteMargins = VNum <$> zs →
           meanMargin (summaryStats c) = Some (toFixed 1 (sumList zs # 192)))
  ∧ (∀ tooth surface field value,
       is_Some (c !! tooth) → field ∈ probingDepthFields →
       meanMargin (summaryStats (handleUpdate tooth surface field value c))
       = meanMargin (summaryStats c)).
Proof.
  assert (M : ∀ c : Chart,
            meanMargin (summaryStats c) = toFixed 1 <$> meanOf (sites c ≫= siteMargins)).
  { intros c0. unfold summaryStats. cbv zeta. cbn [meanMargin].
    rewrite collectStats_sites. reflexivity. }
  split; [|split; [apply M|split]].
  - unfold summaryPanel. right. left.
  - intros Hfull.
    assert (L : length (sites c ≫= siteMargins) = 192).
    { unfold sites. rewrite sitesOf_populated_length by done.
      fold (sites c). rewrite sites_length by done. reflexivity. }
    split; [exact L|]. intros zs Hzs. rewrite M. unfold meanOf.
    rewrite L. rewrite decide_True by lia.
    rewrite Hzs, sumNumbers_numbers. reflexivity.
  - intros tooth surface field value Hsome Hf. rewrite !M.
    unfold sites. rewrite margins_after_update; [reflexivity | done |].
    unfold probingDepthFields, gingivalMarginFields in *.
    intros Hg. set_solver.
Qed.

Lemma plaqueOnFirstEight_populated : fullyPopulated plaqueOnFirstEight.
Proof.
  assert (F : Forall (λ tooth, is_Some (plaqueOnFirstEight !! tooth)) ALL_TEETH)
    by compute_done.
  intros tooth Ht. rewrite Forall_forall in F. by apply F.
Qed.

Lemma allDepthsThree_populated : fullyPopulated allDepthsThree.
Proof.
  assert (F : Forall (λ tooth, is_Some (allDepthsThree !! tooth)) ALL_TEETH)
    by compute_done.
  intros tooth Ht. rewrite Forall_forall in F. by apply F.
Qed.



End SummaryStatistics.

Lemma attachment_level_is_mean_margin_witness :
  meanMargin (summaryStats allDepthsThree) = Some (toFixed 1 (sumList (replicate 192 0%Z) # 192))
  ∧ toFixed 1 (sumList (replicate 192 0%Z) # 192) = "0.0"
  ∧ meanDepth (summaryStats allDepthsThree) = Some "3.0"
  ∧ calculateAttachmentLevel 0 3 = 3%Z.
Proof.
  split; [|split; [|split]]; [|reflexivity|vm_compute; reflexivity|reflexivity].
  apply (proj1 (proj2 (proj2 (attachment_level_is_mean_margin allDepthsThree))));
    [exact allDepthsThree_populated|].
  vm_compute. reflexivity.
Defined.

Lemma percentages_over_all_sites_witness :
  sitesWith anyPlaque (sites plaqueOnFirstEight) = 16
  ∧ plaquePercent (summaryStats plaqueOnFirstEight) = "25".
Proof.
  assert (H16 : sitesWith anyPlaque (sites plaqueOnFirstEight) = 16)
    by (vm_compute; reflexivity).
  split; [exact H16|].
  apply (percentages_over_all_sites plaqueOnFirstEight plaqueOnFirstEight_populated).
  exact H16.
Defined.

(** ** Sample evaluations *)

Example parseInt_examples :
  parseInt "99" = Some 99%Z ∧ parseInt "-5" = Some (-5)%Z ∧ parseInt "-5.7" = Some (-5)%Z
  ∧ parseInt "abc" = None ∧ parseInt "" = None ∧ parseInt "1e3" = Some 1%Z
  ∧ parseInt "  12px" = Some 12%Z ∧ parseInt "0x1f" = Some 31%Z ∧ parseInt ".5" = None
  ∧ parseInt "-0.5" = Some 0%Z.
Proof. repeat split. Qed.

Example decimalValue_examples :
  decimalValue "-5.7" = Some (- (5 + (7 # 10)))%Q ∧ decimalValue "99" = Some 99%Q
  ∧ decimalValue "abc" = None ∧ decimalValue "1e3" = None ∧ decimalValue ".5" = Some (0 + (5 # 10))%Q
  ∧ decimalValue "-" = None ∧ decimalValue "." = None ∧ decimalValue "0x1f" = None
  ∧ floorClamp (-10) 10 "-5.7" = (-6)%Z ∧ Qtruncate (- (5 + (7 # 10)))%Q = (-5)%Z.
Proof. repeat split. Qed.

Example toFixed_examples :
  toFixed 1 (1 # 4) = "0.3" ∧ toFixed 1 (- (1 # 4)) = "-0.3" ∧ toFixed 1 0 = "0.0"
  ∧ toFixed 1 (- (4 # 100)) = "-0.0" ∧ toFixed 1 (123456 # 1000) = "123.5"
  ∧ toFixed 0 ((16 # 64) * 100) = "25" ∧ toFixed 0 ((8 # 64) * 100) = "13"
  ∧ toFixed 0 0 = "0" ∧ toFixed 1 (7 # 192) = "0.0" ∧ toFixed 1 (10 # 1) = "10.0".
Proof. repeat split. Qed.
(** * Further properties *)

(** ** The navigation graph as a grid *)

Section NavigationGrid.

Local Open Scope Z_scope.

(** The keys of the map are the cells of the grid. *)
Lemma nav_key_cell k :
  is_Some (NAVIGATION_MAP !! k)
  ↔ ∃ i s j, 0 ≤ i < 32 ∧ 0 ≤ j < 16 ∧ k = cellAt i s j.
Proof.
  split.
  - intros [e He].
    destruct (nav_map_entries k e He) as (i & tooth & s & j & field & Hi & Hj & -> & _).
    pose proof (lookup_lt_Some _ _ _ Hi) as Li.
    pose proof (lookup_lt_Some _ _ _ Hj) as Lj.
    destruct catalogue_sizes as [E1 E2]. rewrite E1 in Li. rewrite E2 in Lj.
    exists (Z.of_nat i), s, (Z.of_nat j).
    split; [lia|]. split; [lia|].
    unfold cellAt, at_index. rewrite !Nat2Z.id, Hi, Hj. reflexivity.
  - intros (i & s & j & Hi & Hj & ->). rewrite nav_map_lookup by done. eauto.
Qed.

Lemma navigate_cell i s j :
  0 ≤ i < 32 → 0 ≤ j < 16 →
  navigate (cellAt i s j) "next" = Some (cellAt ((i + 1) mod 32) s j)
  ∧ navigate (cellAt i s j) "prev" = Some (cellAt ((i - 1 + 32) mod 32) s j)
  ∧ navigate (cellAt i s j) "down" = Some (cellAt i s ((j + 1) mod 16))
  ∧ navigate (cellAt i s j) "up" = Some (cellAt i s ((j - 1 + 16) mod 16)).
Proof.
  intros Hi Hj. unfold navigate. rewrite nav_map_lookup by done. repeat split.
Qed.

Lemma teeth_NoDup : NoDup ALL_TEETH ∧ NoDup fields.
Proof. split; compute_done. Qed.

Lemma at_index_inj (arr : list string) (a b : nat) :
  NoDup arr → (a < length arr)%nat → (b < length arr)%nat →
  at_index arr a = at_index arr b → a = b.
Proof.
  intros ND La Lb. unfold at_index.
  destruct (lookup_lt_is_Some_2 arr a La) as [x Hx].
  destruct (lookup_lt_is_Some_2 arr b Lb) as [y Hy].
  rewrite Hx, Hy. simpl. intros ->.
  by apply (NoDup_lookup arr a b y).
Qed.

(** A cell key determines its indices and its surface. *)
Lemma cellAt_inj i s j i' s' j' :
  0 ≤ i < 32 → 0 ≤ j < 16 → 0 ≤ i' < 32 → 0 ≤ j' < 16 →
  cellAt i s j = cellAt i' s' j' → i = i' ∧ s = s' ∧ j = j'.
Proof.
  intros Hi Hj Hi' Hj' Heq. unfold cellAt in Heq.
  destruct catalogue_sizes as [E1 E2]. destruct teeth_NoDup as [N1 N2].
  apply cellKey_components in Heq as (Ht & Hs & Hf);
    [|apply at_index_elem; rewrite E1; lia..].
  apply at_index_inj in Ht; [|done|rewrite E1; lia..].
  apply at_index_inj in Hf; [|done|rewrite E2; lia..].
  split; [lia|]. split; [done|lia].
Qed.

Lemma directions_cases d :
  d ∈ directions ↔ d = "next" ∨ d = "prev" ∨ d = "up" ∨ d = "down".
Proof. unfold directions. rewrite !elem_of_cons, elem_of_nil. tauto. Qed.

Lemma navigation_is_closed_aux (k d : string) :
  is_Some (NAVIGATION_MAP !! k) → d ∈ directions →
  ∃ t, navigate k d = Some t ∧ is_Some (NAVIGATION_MAP !! t).
Proof.
  intros (i & s & j & Hi & Hj & ->)%nav_key_cell Hd.
  destruct (navigate_cell i s j Hi Hj) as (N & P & D & U).
  assert (B1 : 0 ≤ (i + 1) mod 32 < 32) by (apply Z.mod_pos_bound; lia).
  assert (B2 : 0 ≤ (i - 1 + 32) mod 32 < 32) by (apply Z.mod_pos_bound; lia).
  assert (B3 : 0 ≤ (j + 1) mod 16 < 16) by (apply Z.mod_pos_bound; lia).
  assert (B4 : 0 ≤ (j - 1 + 16) mod 16 < 16) by (apply Z.mod_pos_bound; lia).
  apply directions_cases in Hd as [-> | [-> | [-> | ->]]].
  - exists (cellAt ((i + 1) mod 32) s j). split; [exact N|]. apply nav_key_cell. eauto 10.
  - exists (cellAt ((i - 1 + 32) mod 32) s j). split; [exact P|]. apply nav_key_cell. eauto 10.
  - exists (cellAt i s ((j - 1 + 16) mod 16)). split; [exact U|]. apply nav_key_cell. eauto 10.
  - exists (cellAt i s ((j + 1) mod 16)). split; [exact D|]. apply nav_key_cell. eauto 10.
Qed.

(** X1. Navigation never leaves the grid: from a key of the map, each of
    the four directions resolves, and to a key of the map. *)
Theorem navigation_is_closed (k d : string) :
  is_Some (NAVIGATION_MAP !! k) → d ∈ directions →
  ∃ t, navigate k d = Some t ∧ is_Some (NAVIGATION_MAP !! t).
Proof. apply navigation_is_closed_aux. Qed.

Lemma wrap_inverse n i :
  0 ≤ i < n →
  ((i + 1) mod n - 1 + n) mod n = i ∧ ((i - 1 + n) mod n + 1) mod n = i.
Proof.
  intros Hi. split.
  - destruct (decide (i + 1 = n)) as [E|E].
    + rewrite E, Z.mod_same by lia. replace (0 - 1 + n) with i by lia.
      apply Z.mod_small. lia.
    + rewrite (Z.mod_small (i + 1)) by lia. replace (i + 1 - 1 + n) with (i + 1 * n) by lia.
      rewrite Z.mod_add by lia. apply Z.mod_small. lia.
  - destruct (decide (i = 0)) as [E|E].
    + subst i. replace (0 - 1 + n) with (n - 1) by lia.
      rewrite (Z.mod_small (n - 1)) by lia. replace (n - 1 + 1) with n by lia.
      apply Z.mod_same. lia.
    + replace (i - 1 + n) with (i - 1 + 1 * n) by lia.
      rewrite Z.mod_add by lia. rewrite (Z.mod_small (i - 1)) by lia.
      replace (i - 1 + 1) with i by lia. apply Z.mod_small. lia.
Qed.

(** X2. A move is undone by the opposite move: [prev] after [next], [next]
    after [prev], [up] after [down] and [down] after [up] lead back to the
    key one started from. *)
Theorem navigation_moves_are_inverse (k d t : string) :
  navigate k d = Some t → navigate t (opposite d) = Some k.
Proof.
  intros Ht. destruct (navigate_Some k d t Ht) as [Hk Hd].
  apply nav_key_cell in Hk as (i & s & j & Hi & Hj & ->).
  destruct (navigate_cell i s j Hi Hj) as (N & P & D & U).
  destruct (wrap_inverse 32 i Hi) as [I1 I2].
  destruct (wrap_inverse 16 j Hj) as [J1 J2].
  assert (B1 : 0 ≤ (i + 1) mod 32 < 32) by (apply Z.mod_pos_bound; lia).
  assert (B2 : 0 ≤ (i - 1 + 32) mod 32 < 32) by (apply Z.mod_pos_bound; lia).
  assert (B3 : 0 ≤ (j + 1) mod 16 < 16) by (apply Z.mod_pos_bound; lia).
  assert (B4 : 0 ≤ (j - 1 + 16) mod 16 < 16) by (apply Z.mod_pos_bound; lia).
  apply directions_cases in Hd as [-> | [-> | [-> | ->]]].
  - rewrite N in Ht. injection Ht as <-. change (opposite "next") with "prev".
    destruct (navigate_cell _ s j B1 Hj) as (_ & R & _). rewrite R, I1. reflexivity.
  - rewrite P in Ht. injection Ht as <-. change (opposite "prev") with "next".
    destruct (navigate_cell _ s j B2 Hj) as (R & _). rewrite R, I2. reflexivity.
  - rewrite U in Ht. injection Ht as <-. change (opposite "up") with "down".
    destruct (navigate_cell i s _ Hi B4) as (_ & _ & R & _). rewrite R, J2. reflexivity.
  - rewrite D in Ht. injection Ht as <-. change (opposite "down") with "up".
    destruct (navigate_cell i s _ Hi B3) as (_ & _ & _ & R). rewrite R, J1. reflexivity.
Qed.

Lemma navigation_is_noop_outside_grid_aux (k d : string) :
  navigate k d = None ↔ NAVIGATION_MAP !! k = None ∨ d ∉ directions.
Proof.
  split.
  - intros Hn. destruct (decide (d ∈ directions)) as [Hd|Hd]; [left | by right].
    apply eq_None_not_Some. intros Hk.
    destruct (navigation_is_closed_aux k d Hk Hd) as (t & Ht & _).
    congruence.
  - intros H. destruct (navigate k d) as [t|] eqn:Ht; [|reflexivity].
    destruct (navigate_Some k d t Ht) as [[e He] Hd].
    clear Ht. destruct H as [H|H]; [congruence | exact (False_ind _ (H Hd))].
Qed.


(** X4. The map has one entry for each of the 32 x 2 x 16 cells and no
    other: 1024 keys, and a key is in the map exactly when it is the key
    of a catalogue tooth, a surface and a field of the field order. *)
Theorem navigation_map_has_one_entry_per_cell :
  size NAVIGATION_MAP = 1024%nat
  ∧ ∀ k, is_Some (NAVIGATION_MAP !! k)
         ↔ ∃ tooth s field, tooth ∈ ALL_TEETH ∧ field ∈ fields
                            ∧ k = cellKey tooth (surfaceName s) field.
Proof.
  split; [vm_compute; reflexivity|].
  intros k. rewrite nav_key_cell. destruct catalogue_sizes as [E1 E2]. split.
  - intros (i & s & j & Hi & Hj & ->). unfold cellAt.
    eexists _, s, _. split; [|split; [|reflexivity]]; apply at_index_elem; lia.
  - intros (tooth & s & field & Ht & Hf & ->).
    apply list_elem_of_lookup in Ht as [i Hi]. apply list_elem_of_lookup in Hf as [j Hj].
    pose proof (lookup_lt_Some _ _ _ Hi). pose proof (lookup_lt_Some _ _ _ Hj).
    exists (Z.of_nat i), s, (Z.of_nat j). split; [lia|]. split; [lia|].
    unfold cellAt, at_index. by rewrite !Nat2Z.id, Hi, Hj.
Qed.


Lemma wrap_returns_32 i m :
  0 ≤ i < 32 → 0 ≤ m →
  ((i + m) mod 32 = i ↔ m mod 32 = 0) ∧ ((i - m) mod 32 = i ↔ m mod 32 = 0).
Proof.
  intros Hi Hm. split; split; intros H; Z.to_euclidean_division_equations; lia.
Qed.

Lemma wrap_returns_16 j m :
  0 ≤ j < 16 → 0 ≤ m →
  ((j + m) mod 16 = j ↔ m mod 16 = 0) ∧ ((j - m) mod 16 = j ↔ m mod 16 = 0).
Proof.
  intros Hj Hm. split; split; intros H; Z.to_euclidean_division_equations; lia.
Qed.

Lemma navigateN_cell (n : nat) i s j :
  0 ≤ i < 32 → 0 ≤ j < 16 →
  navigateN n "next" (cellAt i s j) = Some (cellAt ((i + Z.of_nat n) mod 32) s j)
  ∧ navigateN n "prev" (cellAt i s j) = Some (cellAt ((i - Z.of_nat n) mod 32) s j)
  ∧ navigateN n "down" (cellAt i s j) = Some (cellAt i s ((j + Z.of_nat n) mod 16))
  ∧ navigateN n "up" (cellAt i s j) = Some (cellAt i s ((j - Z.of_nat n) mod 16)).
Proof.
  revert i j. induction n as [|n IH]; intros i j Hi Hj.
  - cbn [navigateN]. rewrite !Z.add_0_r, !Z.sub_0_r, !Z.mod_small by lia.
    clear. repeat split; reflexivity.
  - cbn [navigateN]. destruct (navigate_cell i s j Hi Hj) as (N & P & D & U).
    rewrite N, P, D, U. cbn [mbind option_bind].
    assert (B1 : 0 ≤ (i + 1) mod 32 < 32) by (apply Z.mod_pos_bound; lia).
    assert (B2 : 0 ≤ (i - 1 + 32) mod 32 < 32) by (apply Z.mod_pos_bound; lia).
    assert (B3 : 0 ≤ (j + 1) mod 16 < 16) by (apply Z.mod_pos_bound; lia).
    assert (B4 : 0 ≤ (j - 1 + 16) mod 16 < 16) by (apply Z.mod_pos_bound; lia).
    destruct (IH _ j B1 Hj) as (-> & _).
    destruct (IH _ j B2 Hj) as (_ & -> & _).
    destruct (IH i _ Hi B3) as (_ & _ & -> & _).
    destruct (IH i _ Hi B4) as (_ & _ & _ & ->).
    rewrite Zplus_mod_idemp_l, !Zminus_mod_idemp_l.
    replace (i - 1 + 32 - Z.of_nat n) with (i - Z.of_nat (S n) + 1 * 32) by lia.
    replace (j - 1 + 16 - Z.of_nat n) with (j - Z.of_nat (S n) + 1 * 16) by lia.
    rewrite !Z.mod_add by lia. rewrite Zplus_mod_idemp_l.
    replace (i + 1 + Z.of_nat n) with (i + Z.of_nat (S n)) by lia.
    replace (j + 1 + Z.of_nat n) with (j + Z.of_nat (S n)) by lia.
    clear. repeat split; reflexivity.
Qed.

(** X5. Each axis is one cycle through all its cells: pressing a direction
    [n] times from a key of the map always resolves, and leads back to that
    key exactly when [n] is a multiple of the axis length (32 teeth for
    [next]/[prev], 16 fields for [up]/[down]). *)
Theorem navigation_axes_are_cycles (k d : string) (n : nat) :
  is_Some (NAVIGATION_MAP !! k) → d ∈ directions →
  is_Some (navigateN n d k)
  ∧ (navigateN n d k = Some k ↔ (n mod axisLength d = 0)%nat).
Proof.
  intros (i & s & j & Hi & Hj & ->)%nav_key_cell Hd.
  destruct (navigateN_cell n i s j Hi Hj) as (N & P & D & U).
  destruct (wrap_returns_32 i (Z.of_nat n)) as [W1 W2]; [lia..|].
  destruct (wrap_returns_16 j (Z.of_nat n)) as [W3 W4]; [lia..|].
  assert (M32 : Z.of_nat n mod 32 = 0 ↔ (n mod 32 = 0)%nat).
  { change 32 with (Z.of_nat 32). rewrite <- Nat2Z.inj_mod. lia. }
  assert (M16 : Z.of_nat n mod 16 = 0 ↔ (n mod 16 = 0)%nat).
  { change 16 with (Z.of_nat 16). rewrite <- Nat2Z.inj_mod. lia. }
  assert (B1 : 0 ≤ (i + Z.of_nat n) mod 32 < 32) by (apply Z.mod_pos_bound; lia).
  assert (B2 : 0 ≤ (i - Z.of_nat n) mod 32 < 32) by (apply Z.mod_pos_bound; lia).
  assert (B3 : 0 ≤ (j + Z.of_nat n) mod 16 < 16) by (apply Z.mod_pos_bound; lia).
  assert (B4 : 0 ≤ (j - Z.of_nat n) mod 16 < 16) by (apply Z.mod_pos_bound; lia).
  assert (C : ∀ i' j', 0 ≤ i' < 32 → 0 ≤ j' < 16 →
            (Some (cellAt i' s j') = Some (cellAt i s j) ↔ i' = i ∧ j' = j)).
  { intros i' j' Hi' Hj'. split.
    - intros [= E]. apply cellAt_inj in E; tauto.
    - intros [-> ->]. reflexivity. }
  apply directions_cases in Hd as [-> | [-> | [-> | ->]]].
  - rewrite N. split; [eauto|]. change (axisLength "next") with 32%nat.
    rewrite C by done. tauto.
  - rewrite P. split; [eauto|]. change (axisLength "prev") with 32%nat.
    rewrite C by done. tauto.
  - rewrite U. split; [eauto|]. change (axisLength "up") with 16%nat.
    rewrite C by done. tauto.
  - rewrite D. split; [eauto|]. change (axisLength "down") with 16%nat.
    rewrite C by done. tauto.
Qed.

(** X6. The two axes are independent: moving along the teeth and then along
    the fields reaches the same key as moving along the fields and then
    along the teeth, for any key and any two such directions. *)
Theorem navigation_axes_commute (k a b : string) :
  a ∈ ["next"; "prev"] → b ∈ ["up"; "down"] →
  navigate k a ≫= (λ t, navigate t b) = navigate k b ≫= (λ t, navigate t a).
Proof.
  intros Ha Hb.
  destruct (decide (is_Some (NAVIGATION_MAP !! k))) as [Hk|Hk].
  2:{ assert (E : ∀ d, navigate k d = None).
      { intros d. apply navigation_is_noop_outside_grid_aux. left.
        by apply eq_None_not_Some. }
      rewrite !E. cbn [mbind option_bind]. reflexivity. }
  apply nav_key_cell in Hk as (i & s & j & Hi & Hj & ->).
  destruct (navigate_cell i s j Hi Hj) as (N & P & D & U).
  assert (B1 : 0 ≤ (i + 1) mod 32 < 32) by (apply Z.mod_pos_bound; lia).
  assert (B2 : 0 ≤ (i - 1 + 32) mod 32 < 32) by (apply Z.mod_pos_bound; lia).
  assert (B3 : 0 ≤ (j + 1) mod 16 < 16) by (apply Z.mod_pos_bound; lia).
  assert (B4 : 0 ≤ (j - 1 + 16) mod 16 < 16) by (apply Z.mod_pos_bound; lia).
  destruct (navigate_cell _ s j B1 Hj) as (_ & _ & D1 & U1).
  destruct (navigate_cell _ s j B2 Hj) as (_ & _ & D2 & U2).
  destruct (navigate_cell i s _ Hi B3) as (N3 & P3 & _).
  destruct (navigate_cell i s _ Hi B4) as (N4 & P4 & _).
  rewrite !elem_of_cons, !elem_of_nil in Ha, Hb.
  destruct Ha as [-> | [-> | []]], Hb as [-> | [-> | []]];
    rewrite ?N, ?P, ?D, ?U; cbn [mbind option_bind];
    rewrite ?D1, ?U1, ?D2, ?U2, ?N3, ?P3, ?N4, ?P4; reflexivity.
Qed.

End NavigationGrid.

Lemma navigation_is_closed_witness :
  ∃ t, navigate "18-buccal-mobility" "next" = Some t ∧ is_Some (NAVIGATION_MAP !! t).
Proof.
  apply (navigation_is_closed "18-buccal-mobility" "next").
  - exists (navEntry 0 "18" "buccal" 0 "mobility"). vm_compute. reflexivity.
  - unfold directions. left.
Defined.

Lemma navigation_moves_are_inverse_witness :
  navigate "18-buccal-mobility" "next" = Some "17-buccal-mobility"
  ∧ navigate "17-buccal-mobility" (opposite "next") = Some "18-buccal-mobility".
Proof.
  assert (H : navigate "18-buccal-mobility" "next" = Some "17-buccal-mobility")
    by (vm_compute; reflexivity).
  split; [exact H|].
  exact (navigation_moves_are_inverse "18-buccal-mobility" "next" "17-buccal-mobility" H).
Defined.

Lemma navigation_axes_are_cycles_witness :
  is_Some (navigateN 32 "next" "18-buccal-mobility")
  ∧ (navigateN 32 "next" "18-buccal-mobility" = Some "18-buccal-mobility"
     ↔ (32 mod axisLength "next" = 0)%nat).
Proof.
  apply (navigation_axes_are_cycles "18-buccal-mobility" "next" 32).
  - exists (navEntry 0 "18" "buccal" 0 "mobility"). vm_compute. reflexivity.
  - unfold directions. left.
Defined.

Lemma navigation_axes_commute_witness :
  navigate "18-buccal-mobility" "next" ≫= (λ t, navigate t "down")
  = navigate "18-buccal-mobility" "down" ≫= (λ t, navigate t "next").
Proof.
  apply (navigation_axes_commute "18-buccal-mobility" "next" "down").
  - left.
  - right. left.
Defined.

(** ** Algebra of updates *)

Section UpdateAlgebra.

Lemma setSurface_get td s m : getSurface (setSurface td s m) s = m.
Proof. by destruct s. Qed.

Lemma setSurface_get_other td s s' m :
  s' ≠ s → getSurface (setSurface td s m) s' = getSurface td s'.
Proof. by destruct s, s'. Qed.

Lemma setSurface_set td s m1 m2 : setSurface (setSurface td s m1) s m2 = setSurface td s m2.
Proof. by destruct s. Qed.

Lemma setSurface_commute td s1 s2 m1 m2 :
  s1 ≠ s2 →
  setSurface (setSurface td s1 m1) s2 m2 = setSurface (setSurface td s2 m2) s1 m1.
Proof. by destruct s1, s2. Qed.

Lemma handleUpdate_overwrite tooth surface field a b (c : Chart) :
  handleUpdate tooth surface field b (handleUpdate tooth surface field a c)
  = handleUpdate tooth surface field b c.
Proof.
  apply map_eq. intros t. rewrite !handleUpdate_lookup.
  destruct (decide (t = tooth)) as [->|Hne]; [|reflexivity].
  rewrite ?decide_True by done. cbv zeta. cbn [default]. unfold id.
  rewrite setSurface_set, setSurface_get, insert_insert_eq. reflexivity.
Qed.

(** X7. On one cell the last write wins: an update overwrites an earlier
    update of the same tooth, surface and field, so applying the same
    update twice equals applying it once. *)
Theorem update_last_write_wins tooth surface field v1 v2 (c : Chart) :
  handleUpdate tooth surface field v2 (handleUpdate tooth surface field v1 c)
  = handleUpdate tooth surface field v2 c
  ∧ handleUpdate tooth surface field v2 (handleUpdate tooth surface field v2 c)
    = handleUpdate tooth surface field v2 c.
Proof. split; apply handleUpdate_overwrite. Qed.

(** X8. Updates of different cells commute: when the two updates differ in
    tooth, surface or field, either order gives the same chart. *)
Theorem updates_of_different_cells_commute t1 s1 f1 v1 t2 s2 f2 v2 (c : Chart) :
  (t1, s1, f1) ≠ (t2, s2, f2) →
  handleUpdate t1 s1 f1 v1 (handleUpdate t2 s2 f2 v2 c)
  = handleUpdate t2 s2 f2 v2 (handleUpdate t1 s1 f1 v1 c).
Proof.
  intros Hne. apply map_eq. intros t. rewrite !handleUpdate_lookup.
  destruct (decide (t = t1)) as [E1|N1], (decide (t = t2)) as [E2|N2].
  - subst t t2. rewrite ?decide_True by done. cbv zeta. cbn [default]. unfold id.
    generalize (default {| buccal := createDefaultMeasurement;
                           palatal := createDefaultMeasurement |} (c !! t1)).
    intros td. f_equal.
    destruct (decide (s1 = s2)) as [->|Hs].
    + rewrite !setSurface_set, !setSurface_get.
      rewrite insert_insert_ne; [reflexivity|]. intros ->. by apply Hne.
    + rewrite !setSurface_get_other by done.
      by rewrite setSurface_commute.
  - subst t. rewrite ?decide_True by done. rewrite ?decide_False by done. reflexivity.
  - subst t. rewrite ?decide_True by done. rewrite ?decide_False by done. reflexivity.
  - rewrite ?decide_False by done. reflexivity.
Qed.

Lemma updates_of_different_cells_commute_witness :
  handleUpdate "18" Buccal "mobility" (VNum 1)
    (handleUpdate "18" Buccal "furcation" (VNum 2) ∅)
  = handleUpdate "18" Buccal "furcation" (VNum 2)
      (handleUpdate "18" Buccal "mobility" (VNum 1) ∅).
Proof.
  apply (updates_of_different_cells_commute "18" Buccal "mobility" (VNum 1)
           "18" Buccal "furcation" (VNum 2) ∅).
  intros [=].
Defined.



End UpdateAlgebra.

(** ** Sequences of updates on the store *)

Section UpdateSequences.

Lemma extends_trans h1 h2 h3 : extends h1 h2 → extends h2 h3 → extends h1 h3.
Proof. intros E1 E2 l o H. apply E2, E1, H. Qed.

Lemma represents_extends (h h' : Store.Heap) l (c : Chart) :
  extends h h' → Store.represents h l c → Store.represents h' l c.
Proof.
  intros E (teeth & Hl & Hall). exists teeth. split; [by apply E|].
  intros tooth. destruct (Hall tooth) as [Heq Hsome]. split; [|exact Hsome].
  rewrite Heq. destruct (teeth !! tooth) as [tl|] eqn:Htl; [|reflexivity].
  cbn [mbind option_bind].
  destruct Hsome as [td0 Htd0]; [eauto|].
  rewrite Htd0 in Heq. cbn [mbind option_bind] in Heq. symmetry in Heq.
  rewrite Heq. symmetry. by apply (readTooth_extends h).
Qed.

(** X10. Any sequence of edits runs on the store without getting stuck, and
    the chart object it ends with stands for the chart obtained by applying
    the updaters in order; every chart object passed on the way, the first
    one included, still stands for the chart it stood for: old states are
    never altered. *)
Theorem edits_on_store_keep_old_states (edits : list Edit) (h : Store.Heap) prev (c : Chart) :
  Store.represents h prev c →
  ∃ new h',
    runEdits edits prev h = Some (new, h')
    ∧ Store.represents h' new (applyEdits edits c)
    ∧ Store.represents h' prev c
    ∧ extends h h'.
Proof.
  revert h prev c. induction edits as [|e edits IH]; intros h prev c R.
  - exists prev, h. repeat split; try done. by intros l o H.
  - cbn [runEdits applyEdits foldl]. unfold Store.bind.
    destruct (handleUpdate_on_store h prev c (editTooth e) (editSurface e)
                (editField e) (editValue e) R) as (h1 & Run & R1 & E1 & _).
    rewrite Run.
    destruct (IH h1 (length h) _ R1) as (new & h' & Run' & R' & _ & E').
    exists new, h'. split; [exact Run'|]. split; [exact R'|].
    split; [|by apply (extends_trans h h1)].
    apply (represents_extends h); [by apply (extends_trans h h1) | done].
Qed.

Lemma edits_on_store_keep_old_states_witness :
  ∃ new h',
    runEdits [mkEdit "18" Buccal "mobility" (VNum 2); mkEdit "18" Palatal "notes" (VStr "x")]
      0 [Store.ChartObj ∅] = Some (new, h')
    ∧ Store.represents h' new
        (applyEdits [mkEdit "18" Buccal "mobility" (VNum 2);
                     mkEdit "18" Palatal "notes" (VStr "x")] ∅)
    ∧ Store.represents h' 0 ∅
    ∧ extends [Store.ChartObj ∅] h'.
Proof.
  apply (edits_on_store_keep_old_states
           [mkEdit "18" Buccal "mobility" (VNum 2); mkEdit "18" Palatal "notes" (VStr "x")]
           [Store.ChartObj ∅] 0 ∅).
  exists ∅. split; [reflexivity|]. intros tooth. rewrite !lookup_empty.
  split; [reflexivity|]. intros [? H]. discriminate.
Defined.

End UpdateSequences.

(** ** Initial chart *)

Section InitialChart.

(** X11. Whatever the initial values, the initial chart has exactly the 32
    catalogue teeth as keys; entries of the initial values for other teeth
    are ignored. *)
Theorem initial_chart_has_catalogue_keys (initialValues : gmap string PartialToothData) :
  dom (initialChart initialValues) = list_to_set ALL_TEETH
  ∧ size (initialChart initialValues) = 32
  ∧ ∀ initialValues' : gmap string PartialToothData,
      (∀ tooth, tooth ∈ ALL_TEETH → initialValues !! tooth = initialValues' !! tooth) →
      initialChart initialValues = initialChart initialValues'.
Proof.
  assert (D : dom (initialChart initialValues) = list_to_set ALL_TEETH).
  { apply set_eq. intros t. rewrite elem_of_dom, elem_of_list_to_set, initialChart_lookup.
    case_decide as Hd; split; intros Hx; try done; try eauto; try by destruct Hx. }
  split; [exact D|]. split.
  - rewrite <- size_dom, D. rewrite size_list_to_set; [reflexivity|]. compute_done.
  - intros iv' Hag. apply map_eq. intros t. rewrite !initialChart_lookup.
    case_decide as Ht; [|reflexivity]. by rewrite (Hag t Ht).
Qed.

Lemma initial_chart_has_catalogue_keys_witness :
  initialChart {[ "99" := {| buccal_opt := Some {[ "mobility" := VNum 3 ]};
                             palatal_opt := None |} ]}
  = initialChart ∅.
Proof.
  apply (proj2 (proj2 (initial_chart_has_catalogue_keys
           {[ "99" := {| buccal_opt := Some {[ "mobility" := VNum 3 ]};
                         palatal_opt := None |} ]}))).
  intros tooth Ht. rewrite lookup_empty. apply lookup_singleton_ne.
  intros <-. revert Ht. compute_done.
Defined.

(** X12. Initial values are not validated when the chart is built: a value
    given for a field of a catalogue tooth is stored as it is, and if it is
    a number outside the field's domain, or [null]/[undefined] for a rule
    field, the corresponding code is in the chart's validation result and
    submission is blocked. *)
Theorem initial_values_are_stored_unvalidated
    (initialValues : gmap string PartialToothData) tooth s (o : Obj) field v :
  tooth ∈ ALL_TEETH →
  initialValues !! tooth ≫= (λ p, getSurface_opt p s) = Some o →
  o !! field = Some v →
  ∃ td, initialChart initialValues !! tooth = Some td
    ∧ getProp (getSurface td s) field = v
    ∧ ∀ rule, (field, rule) ∈ VALIDATION_RULES →
        (strictlyOutside rule v →
           field ++ "_range" ∈ violationsAt (initialChart initialValues) tooth s
           ∧ validationErrors (initialChart initialValues) !! surfaceKey tooth s
             = Some (violationsAt (initialChart initialValues) tooth s)
           ∧ isDataValid (initialChart initialValues) = false)
        ∧ (absent v →
           field ++ "_required" ∈ violationsAt (initialChart initialValues) tooth s
           ∧ validationErrors (initialChart initialValues) !! surfaceKey tooth s
             = Some (violationsAt (initialChart initialValues) tooth s)
           ∧ isDataValid (initialChart initialValues) = false).
Proof.
  intros Ht Ho Hv.
  pose proof (initialChart_lookup initialValues tooth) as L.
  rewrite decide_True in L by done.
  eexists. split; [exact L|].
  assert (G : getProp (getSurface {|
               buccal := spread createDefaultMeasurement (initialValues !! tooth ≫= buccal_opt);
               palatal := spread createDefaultMeasurement (initialValues !! tooth ≫= palatal_opt)
             |} s) field = v).
  { unfold getProp.
    destruct s; cbn [getSurface buccal palatal]; rewrite spread_lookup;
      destruct (initialValues !! tooth) as [p|]; cbn [mbind option_bind getSurface_opt] in *;
      try discriminate; rewrite Ho; cbn [mbind option_bind]; rewrite Hv; reflexivity. }
  split; [exact G|].
  intros rule Hr.
  assert (K : ∀ code, emits (getSurface {|
               buccal := spread createDefaultMeasurement (initialValues !! tooth ≫= buccal_opt);
               palatal := spread createDefaultMeasurement (initialValues !! tooth ≫= palatal_opt)
             |} s) field rule code →
            code ∈ violationsAt (initialChart initialValues) tooth s
            ∧ validationErrors (initialChart initialValues) !! surfaceKey tooth s
              = Some (violationsAt (initialChart initialValues) tooth s)
            ∧ isDataValid (initialChart initialValues) = false).
  { intros code He. unfold violationsAt. rewrite L. cbn [fmap option_fmap option_map default].
    assert (Hin : code ∈ validateToothData (getSurface {|
               buccal := spread createDefaultMeasurement (initialValues !! tooth ≫= buccal_opt);
               palatal := spread createDefaultMeasurement (initialValues !! tooth ≫= palatal_opt)
             |} s)).
    { apply validateToothData_elem. eauto. }
    assert (HE : validationErrors (initialChart initialValues) !! surfaceKey tooth s
                 = Some (validateToothData (getSurface {|
               buccal := spread createDefaultMeasurement (initialValues !! tooth ≫= buccal_opt);
               palatal := spread createDefaultMeasurement (initialValues !! tooth ≫= palatal_opt)
             |} s))).
    { apply validationErrors_lookup. exists tooth, s. split; [done|].
      eexists. split; [exact L|]. repeat split.
      intros H0. rewrite H0 in Hin. by apply not_elem_of_empty in Hin. }
    split; [exact Hin|]. split; [exact HE|].
    destruct (isDataValid _) eqn:Hd; [|reflexivity].
    apply isDataValid_empty in Hd. rewrite Hd, lookup_empty in HE. discriminate. }
  split.
  - intros Hout. apply K. right. split; [reflexivity|]. by rewrite G.
  - intros Hab. apply K. left. split; [reflexivity|].
    split; [|by rewrite G].
    apply rule_table in Hr as [[_ ->]|[[_ ->]|[_ ->]]]; reflexivity.
Qed.

Lemma initial_values_are_stored_unvalidated_witness :
  ∃ td, oneDepthTwenty !! "18" = Some td
    ∧ getProp (getSurface td Buccal) "probing_depth_mid" = VNum 20
    ∧ ∀ rule, ("probing_depth_mid", rule) ∈ VALIDATION_RULES →
        (strictlyOutside rule (VNum 20) →
           "probing_depth_mid" ++ "_range" ∈ violationsAt oneDepthTwenty "18" Buccal
           ∧ validationErrors oneDepthTwenty !! surfaceKey "18" Buccal
             = Some (violationsAt oneDepthTwenty "18" Buccal)
           ∧ isDataValid oneDepthTwenty = false)
        ∧ (absent (VNum 20) →
           "probing_depth_mid" ++ "_required" ∈ violationsAt oneDepthTwenty "18" Buccal
           ∧ validationErrors oneDepthTwenty !! surfaceKey "18" Buccal
             = Some (violationsAt oneDepthTwenty "18" Buccal)
           ∧ isDataValid oneDepthTwenty = false).
Proof.
  apply (initial_values_are_stored_unvalidated
           {[ "18" := {| buccal_opt := Some {[ "probing_depth_mid" := VNum 20 ]};
                         palatal_opt := None |} ]}
           "18" Buccal {[ "probing_depth_mid" := VNum 20 ]} "probing_depth_mid" (VNum 20)).
  - unfold ALL_TEETH. cbn. left.
  - rewrite lookup_singleton_eq. reflexivity.
  - apply lookup_singleton_eq.
Defined.

End InitialChart.

(** ** More on validation *)

Section ValidationMore.

(** X13. A measurement has no violation exactly when every rule field holds
    a value that is neither [undefined]/[null] nor a number outside the
    rule's domain; the default measurement is such a measurement. *)
Theorem measurement_validity (m : Obj) :
  (validateToothData m = ∅
   ↔ ∀ field rule, (field, rule) ∈ VALIDATION_RULES →
       ¬ absent (getProp m field) ∧ ¬ strictlyOutside rule (getProp m field))
  ∧ validateToothData createDefaultMeasurement = ∅.
Proof.
  split; [|compute_done].
  split.
  - intros He field rule Hr.
    assert (N : ∀ code, ¬ emits m field rule code).
    { intros code Hc. assert (code ∈ validateToothData m) as Hin
        by (apply validateToothData_elem; eauto).
      rewrite He in Hin. by apply not_elem_of_empty in Hin. }
    split.
    + intros Ha. apply (N (field ++ "_required")). left. split; [reflexivity|].
      split; [|done].
      apply rule_table in Hr as [[_ ->]|[[_ ->]|[_ ->]]]; reflexivity.
    + intros Ho. apply (N (field ++ "_range")). right. done.
  - intros Hall. apply leibniz_equiv. apply elem_of_equiv_empty. intros code Hin.
    apply validateToothData_elem in Hin as (f & r & Hr & He).
    destruct (Hall f r Hr) as [Ha Ho].
    destruct He as [(_ & _ & H)|(_ & H)]; done.
Qed.

(** X14. Only numbers and missing values are ever flagged: writing a string
    or a boolean into any field, a numeric one included, adds no violation. *)
Theorem non_numbers_are_never_flagged (m : Obj) field v :
  ¬ absent v → (∀ n, v ≠ VNum n) →
  validateToothData (<[field := v]> m) ⊆ validateToothData m.
Proof.
  intros Ha Hn code Hin.
  apply validateToothData_elem in Hin as (f & r & Hr & He).
  apply validateToothData_elem. exists f, r. split; [done|].
  unfold emits, getProp in *.
  destruct (decide (field = f)) as [->|Hne].
  - rewrite lookup_insert_eq in He. cbn [default] in He.
    destruct He as [(_ & _ & H)|(_ & n & H & _)]; [done | by apply Hn in H].
  - by rewrite lookup_insert_ne in He.
Qed.

Lemma non_numbers_are_never_flagged_witness :
  validateToothData (<["mobility" := VStr "7"]> createDefaultMeasurement)
  ⊆ validateToothData createDefaultMeasurement.
Proof.
  apply (non_numbers_are_never_flagged createDefaultMeasurement "mobility" (VStr "7")).
  - intros [H|H]; discriminate.
  - intros n; discriminate.
Defined.

(** X15. A rule field never has both of its codes in the violation set: a
    missing value is not a number. *)
Theorem required_and_range_exclude_each_other (m : Obj) field rule :
  (field, rule) ∈ VALIDATION_RULES →
  ¬ (field ++ "_required" ∈ validateToothData m
     ∧ field ++ "_range" ∈ validateToothData m).
Proof.
  intros Hr [H1 H2].
  apply validateToothData_elem in H1 as (f1 & r1 & Hr1 & He1).
  apply validateToothData_elem in H2 as (f2 & r2 & Hr2 & He2).
  destruct He1 as [(E1 & _ & Ha)|(E1 & _)].
  2:{ destruct (codes_distinct_at field rule f1 r1 Hr Hr1) as (_ & _ & D). done. }
  destruct He2 as [(E2 & _)|(E2 & n & Hn & _)].
  1:{ destruct (codes_distinct_at f2 r2 field rule Hr2 Hr) as (_ & _ & D).
      symmetry in E2. done. }
  destruct (codes_distinct_at field rule f1 r1 Hr Hr1) as (D1 & _ & _).
  destruct (codes_distinct_at field rule f2 r2 Hr Hr2) as (_ & D2 & _).
  destruct (D1 E1) as [<- _]. destruct (D2 E2) as [<- _].
  rewrite Hn in Ha. destruct Ha; discriminate.
Qed.

Lemma required_and_range_exclude_each_other_witness :
  ¬ ("mobility" ++ "_required" ∈ validateToothData ∅
     ∧ "mobility" ++ "_range" ∈ validateToothData ∅).
Proof.
  apply (required_and_range_exclude_each_other ∅ "mobility" (mkRule 0 3 true)).
  unfold VALIDATION_RULES. left.
Defined.

End ValidationMore.

(** ** Validation and edits *)

Section ValidationAndEdits.

Lemma errorsFor_violationsAt (c : Chart) tooth s k E :
  errorsFor c tooth s k E
  ↔ k = surfaceKey tooth s ∧ E = violationsAt c tooth s ∧ E ≠ ∅.
Proof.
  unfold errorsFor, violationsAt.
  destruct (c !! tooth) as [td|]; cbn [fmap option_fmap option_map from_option]; unfold id.
  - split.
    + intros (td' & [= <-] & -> & -> & Hne). auto.
    + intros (-> & -> & Hne). exists td. auto.
  - split.
    + intros (td' & H & _). discriminate.
    + intros (_ & -> & Hne). exfalso. by apply Hne.
Qed.

(** The validation result is a function of the violation sets of the
    catalogue teeth. *)
Lemma validationErrors_violationsAt (c c' : Chart) :
  (∀ tooth s, tooth ∈ ALL_TEETH → violationsAt c tooth s = violationsAt c' tooth s) →
  validationErrors c = validationErrors c'.
Proof.
  intros Hag. apply map_eq. intros k. apply option_eq. intros E.
  rewrite !validationErrors_lookup.
  split; intros (tooth & s & Ht & He); exists tooth, s; (split; [done|]);
    apply errorsFor_violationsAt; apply errorsFor_violationsAt in He;
    [rewrite <- (Hag tooth s Ht) | rewrite (Hag tooth s Ht)]; done.
Qed.

Lemma validationErrors_empty_iff (c : Chart) :
  validationErrors c = ∅ ↔ ∀ tooth s, tooth ∈ ALL_TEETH → violationsAt c tooth s = ∅.
Proof.
  split.
  - intros He tooth s Ht.
    destruct (decide (violationsAt c tooth s = ∅)) as [|Hne]; [done|].
    assert (validationErrors c !! surfaceKey tooth s = Some (violationsAt c tooth s)) as H.
    { apply validationErrors_lookup. exists tooth, s. split; [done|].
      by apply errorsFor_violationsAt. }
    rewrite He, lookup_empty in H. discriminate.
  - intros Hall. apply map_empty. intros k.
    destruct (validationErrors c !! k) as [E|] eqn:HE; [|reflexivity].
    apply validationErrors_lookup in HE as (tooth & s & Ht & He).
    apply errorsFor_violationsAt in He as (_ & -> & Hne).
    by rewrite Hall in Hne.
Qed.

Lemma default_measurement_valid : validateToothData createDefaultMeasurement = ∅.
Proof. compute_done. Qed.

Lemma violationsAt_handleUpdate (c : Chart) tooth s field value tooth' s' :
  violationsAt (handleUpdate tooth s field value c) tooth' s'
  = if decide (tooth' = tooth ∧ s' = s)
    then validateToothData
           (<[field := value]>
              (getSurface (default {| buccal := createDefaultMeasurement;
                                      palatal := createDefaultMeasurement |}
                                   (c !! tooth)) s))
    else violationsAt c tooth' s'.
Proof.
  unfold violationsAt. rewrite handleUpdate_lookup.
  destruct (decide (tooth' = tooth)) as [->|Hne].
  - cbn [fmap option_fmap option_map from_option]. cbv zeta. unfold id.
    destruct (decide (s' = s)) as [->|Hs].
    + rewrite decide_True by done. by rewrite setSurface_get.
    + rewrite decide_False by (intros [_ ?]; done).
      rewrite setSurface_get_other by done.
      destruct (c !! tooth) as [td|];
        cbn [fmap option_fmap option_map from_option]; unfold id; [reflexivity|].
      destruct s'; apply default_measurement_valid.
  - rewrite decide_False by (intros [? _]; done). reflexivity.
Qed.

(** X16. Only catalogue teeth count: an update of a tooth outside the
    catalogue never changes the validation result, so it can neither block
    nor unblock submission; and the result never has more than 64 entries. *)
Theorem validation_ignores_other_teeth (c : Chart) tooth s field value :
  tooth ∉ ALL_TEETH →
  validationErrors (handleUpdate tooth s field value c) = validationErrors c
  ∧ isDataValid (handleUpdate tooth s field value c) = isDataValid c
  ∧ (size (validationErrors c) ≤ 64)%nat.
Proof.
  intros Ht.
  assert (E : validationErrors (handleUpdate tooth s field value c) = validationErrors c).
  { apply validationErrors_violationsAt. intros tooth' s' Ht'.
    rewrite violationsAt_handleUpdate. rewrite decide_False; [reflexivity|].
    intros [-> _]. done. }
  split; [exact E|]. split; [unfold isDataValid; by rewrite E|].
  set (keys := ALL_TEETH ≫= λ t, [surfaceKey t Buccal; surfaceKey t Palatal]).
  assert (S : dom (validationErrors c) ⊆ list_to_set keys).
  { intros k [E' Hk]%elem_of_dom.
    apply validationErrors_lookup in Hk as (t & s' & Ht' & He).
    apply errorsFor_violationsAt in He as (-> & _).
    apply elem_of_list_to_set. unfold keys. apply list_elem_of_bind.
    exists t. split; [|done]. destruct s'; [left | right; left]. }
  rewrite <- size_dom. etrans; [apply (subseteq_size _ _ S)|].
  rewrite size_list_to_set by compute_done. reflexivity.
Qed.

Lemma validation_ignores_other_teeth_witness :
  validationErrors (handleUpdate "99" Buccal "mobility" (VNum 9) ∅) = validationErrors ∅
  ∧ isDataValid (handleUpdate "99" Buccal "mobility" (VNum 9) ∅) = isDataValid ∅
  ∧ (size (validationErrors (∅ : Chart)) ≤ 64)%nat.
Proof.
  apply (validation_ignores_other_teeth ∅ "99" Buccal "mobility" (VNum 9)).
  compute_done.
Defined.

(** X17. Flags and notes have no part in validation: an update of a field
    without a rule leaves the validation result, and with it the submission
    gate, as it was. *)
Theorem unruled_fields_do_not_affect_validation (c : Chart) tooth s field value :
  field ∉ VALIDATION_RULES.*1 →
  validationErrors (handleUpdate tooth s field value c) = validationErrors c
  ∧ isDataValid (handleUpdate tooth s field value c) = isDataValid c.
Proof.
  intros Hf.
  assert (E : validationErrors (handleUpdate tooth s field value c) = validationErrors c).
  { apply validationErrors_violationsAt. intros tooth' s' _.
    rewrite violationsAt_handleUpdate. case_decide as Hd; [|reflexivity].
    destruct Hd as [-> ->].
    transitivity (validateToothData
                    (getSurface (default {| buccal := createDefaultMeasurement;
                                            palatal := createDefaultMeasurement |}
                                         (c !! tooth)) s)).
    - unfold validateToothData. apply validate_agree.
      intros f r Hr. unfold getProp. rewrite lookup_insert_ne; [reflexivity|].
      intros ->. apply Hf. apply list_elem_of_fmap. by exists (f, r).
    - unfold violationsAt. destruct (c !! tooth) as [td|];
        cbn [fmap option_fmap option_map from_option]; unfold id; [reflexivity|].
      destruct s; apply default_measurement_valid. }
  split; [exact E|]. unfold isDataValid. by rewrite E.
Qed.

Lemma unruled_fields_do_not_affect_validation_witness :
  validationErrors (handleUpdate "18" Buccal "notes" (VStr "x") oneDepthTwenty)
  = validationErrors oneDepthTwenty
  ∧ isDataValid (handleUpdate "18" Buccal "notes" (VStr "x") oneDepthTwenty)
    = isDataValid oneDepthTwenty.
Proof.
  apply (unruled_fields_do_not_affect_validation oneDepthTwenty "18" Buccal "notes" (VStr "x")).
  compute_done.
Defined.

Lemma rules_match_props field props :
  (field, props) ∈ numberInputProps →
  ∃ rule, (field, rule) ∈ VALIDATION_RULES
          ∧ default 0%Z props.1 = min rule ∧ default 15%Z props.2 = max rule
          ∧ (min rule ≤ max rule)%Z.
Proof.
  intros Hin.
  assert (F : Forall (λ p : string * (option Z * option Z),
                Exists (λ e : string * Rule,
                  e.1 = p.1 ∧ default 0%Z p.2.1 = min e.2 ∧ default 15%Z p.2.2 = max e.2
                  ∧ (min e.2 ≤ max e.2)%Z)
                  VALIDATION_RULES) numberInputProps) by compute_done.
  rewrite Forall_forall in F. specialize (F _ Hin).
  apply Exists_exists in F as ([f rule] & Hr & Hf & Hmin & Hmax & Hle).
  cbn [fst snd] in *. subst f. exists rule. auto.
Qed.

Lemma rule_unique field r1 r2 :
  (field, r1) ∈ VALIDATION_RULES → (field, r2) ∈ VALIDATION_RULES → r1 = r2.
Proof.
  intros H1 H2. destruct (codes_distinct_at field r1 field r2 H1 H2) as (D & _).
  by destruct (D eq_refl).
Qed.

(** Writing an in-range number into a rule field removes that field's
    violations and adds none. *)
Lemma validate_in_range_write (m : Obj) field rule n :
  (field, rule) ∈ VALIDATION_RULES → (min rule ≤ n ≤ max rule)%Z →
  validateToothData (<[field := VNum n]> m) ⊆ validateToothData m
  ∧ field ++ "_range" ∉ validateToothData (<[field := VNum n]> m).
Proof.
  intros Hr Hn.
  assert (K : ∀ f r code, (f, r) ∈ VALIDATION_RULES →
            emits (<[field := VNum n]> m) f r code → f ≠ field ∧ emits m f r code).
  { intros f r code Hfr He. unfold emits, getProp in *.
    destruct (decide (field = f)) as [->|Hne].
    - exfalso. rewrite lookup_insert_eq in He. cbn [from_option] in He. unfold id in He.
      rewrite (rule_unique f r rule Hfr Hr) in He.
      destruct He as [(_ & _ & [H|H])|(_ & n' & [= <-] & H)]; try discriminate. lia.
    - rewrite lookup_insert_ne in He by done. auto. }
  split.
  - intros code (f & r & Hfr & He)%validateToothData_elem.
    apply validateToothData_elem. exists f, r. split; [done|]. by apply (K f r code).
  - intros (f & r & Hfr & He)%validateToothData_elem.
    destruct (K f r _ Hfr He) as [Hne He'].
    destruct He' as [(E & _)|(E & _)].
    + destruct (codes_distinct_at f r field rule Hfr Hr) as (_ & _ & D).
      symmetry in E. done.
    + destruct (codes_distinct_at field rule f r Hr Hfr) as (_ & D & _).
      destruct (D E) as [-> _]. done.
Qed.

(** X18. A committed number edit never adds a violation and always leaves
    the edited field without a range violation; all other measurements keep
    their violations.  Hence a chart that may be submitted may still be
    submitted after the edit. *)
Theorem number_edits_keep_validity (c : Chart) tooth s field props text :
  (field, props) ∈ numberInputProps →
  violationsAt (commitNumber tooth s field props text c) tooth s ⊆ violationsAt c tooth s
  ∧ (field ++ "_range" ∉ violationsAt (commitNumber tooth s field props text c) tooth s)
  ∧ (∀ tooth' s', (tooth', s') ≠ (tooth, s) →
       violationsAt (commitNumber tooth s field props text c) tooth' s'
       = violationsAt c tooth' s')
  ∧ (isDataValid c = true → isDataValid (commitNumber tooth s field props text c) = true).
Proof.
  intros Hp. destruct (rules_match_props field props Hp) as (rule & Hr & Hmin & Hmax & Hle).
  set (n := Z.max (default 0%Z props.1)
              (Z.min (default 15%Z props.2) (default 0%Z (parseInt text)))).
  assert (Hn : (min rule ≤ n ≤ max rule)%Z) by (subst n; lia).
  set (m0 := getSurface (default {| buccal := createDefaultMeasurement;
                                    palatal := createDefaultMeasurement |} (c !! tooth)) s).
  assert (V0 : violationsAt c tooth s = validateToothData m0).
  { unfold violationsAt, m0. destruct (c !! tooth) as [td|];
      cbn [fmap option_fmap option_map from_option]; unfold id; [reflexivity|].
    symmetry. destruct s; apply default_measurement_valid. }
  assert (Cases : (commitNumber tooth s field props text c
                   = handleUpdate tooth s field (VNum n) c)
                  ∨ (commitNumber tooth s field props text c = c
                     ∧ field ++ "_range" ∉ violationsAt c tooth s)).
  { unfold commitNumber, numberInputEffect. fold n.
    destruct (decide _) as [Hne|Heq]; [by left|]. right. split; [reflexivity|].
    apply dec_stable in Heq. unfold violationsAt.
    destruct (c !! tooth) as [td|];
      cbn [fmap option_fmap option_map from_option] in *; unfold id in *;
      [|apply not_elem_of_empty].
    intros (f & r & Hfr & He)%validateToothData_elem.
    destruct He as [(E & _)|(E & n' & Hn' & Hout)].
    - destruct (codes_distinct_at f r field rule Hfr Hr) as (_ & _ & D).
      symmetry in E. done.
    - destruct (codes_distinct_at field rule f r Hr Hfr) as (_ & D & _).
      destruct (D E) as [<- <-]. rewrite Hn', jsOr_number in Heq.
      inversion Heq. lia. }
  assert (Sub : violationsAt (commitNumber tooth s field props text c) tooth s
                ⊆ violationsAt c tooth s
                ∧ field ++ "_range" ∉ violationsAt (commitNumber tooth s field props text c) tooth s).
  { destruct Cases as [->|[-> Hno]]; [|done].
    rewrite violationsAt_handleUpdate, decide_True by done. fold m0. rewrite V0.
    by apply validate_in_range_write with rule. }
  assert (Oth : ∀ tooth' s', (tooth', s') ≠ (tooth, s) →
            violationsAt (commitNumber tooth s field props text c) tooth' s'
            = violationsAt c tooth' s').
  { intros tooth' s' Hne. destruct Cases as [->|[-> _]]; [|reflexivity].
    rewrite violationsAt_handleUpdate, decide_False; [reflexivity|].
    intros [-> ->]. done. }
  destruct Sub as [Sub Hno]. repeat split; try done.
  rewrite !isDataValid_empty, !validationErrors_empty_iff. intros Hall tooth' s' Ht'.
  destruct (decide ((tooth', s') = (tooth, s))) as [[= -> ->]|Hne].
  - apply leibniz_equiv. apply elem_of_equiv_empty. intros code Hc.
    apply Sub in Hc. rewrite Hall in Hc by done. by apply not_elem_of_empty in Hc.
  - rewrite Oth by done. by apply Hall.
Qed.

End ValidationAndEdits.

Lemma number_edits_keep_validity_witness :
  violationsAt (commitNumber "18" Buccal "probing_depth_mid" (None, Some 15%Z) "20" oneDepthTwenty)
               "18" Buccal
  ⊆ violationsAt oneDepthTwenty "18" Buccal
  ∧ ("probing_depth_mid" ++ "_range"
     ∉ violationsAt (commitNumber "18" Buccal "probing_depth_mid" (None, Some 15%Z) "20"
                       oneDepthTwenty) "18" Buccal)
  ∧ (∀ tooth' s', (tooth', s') ≠ ("18", Buccal) →
       violationsAt (commitNumber "18" Buccal "probing_depth_mid" (None, Some 15%Z) "20"
                       oneDepthTwenty) tooth' s'
       = violationsAt oneDepthTwenty tooth' s')
  ∧ (isDataValid oneDepthTwenty = true →
     isDataValid (commitNumber "18" Buccal "probing_depth_mid" (None, Some 15%Z) "20"
                    oneDepthTwenty) = true).
Proof.
  apply (number_edits_keep_validity oneDepthTwenty "18" Buccal "probing_depth_mid"
           (None, Some 15%Z) "20").
  unfold numberInputProps. repeat constructor.
Defined.

(** ** Cells: mounting and settling *)

Section Cells.








Lemma cell_value_handleUpdate tooth s field v (c : Chart) :
  default VUndefined ((λ td, getProp (getSurface td s) field)
                        <$> handleUpdate tooth s field v c !! tooth) = v.
Proof.
  destruct (handleUpdate_stored tooth s field v c) as (td' & Hc' & Hv).
  rewrite Hc'. exact Hv.
Qed.

(** X20. A number commit settles at once: run again on the chart it has
    produced, with the same text, the commit effect makes no call, so the
    commit is idempotent. *)
Theorem number_commit_settles (c : Chart) tooth s field props text :
  numberInputEffect (default 0%Z props.1) (default 15%Z props.2)
    (numberCellValue (commitNumber tooth s field props text c) tooth s field) text = None
  ∧ commitNumber tooth s field props text (commitNumber tooth s field props text c)
    = commitNumber tooth s field props text c.
Proof.
  assert (E : numberInputEffect (default 0%Z props.1) (default 15%Z props.2)
                (numberCellValue (commitNumber tooth s field props text c) tooth s field) text
              = None).
  { unfold commitNumber at 1. cbv zeta. fold (numberCellValue c tooth s field).
    destruct (numberInputEffect _ _ (numberCellValue c tooth s field) text) as [n|] eqn:Hn;
      [|exact Hn].
    unfold numberCellValue. rewrite cell_value_handleUpdate, jsOr_number.
    unfold numberInputEffect in *. destruct (decide _) as [_|]; [|discriminate].
    injection Hn as Hn. rewrite Hn. by rewrite decide_False by (intros H; by apply H). }
  split; [exact E|].
  unfold commitNumber at 1. cbv zeta.
  fold (numberCellValue (commitNumber tooth s field props text c) tooth s field).
  by rewrite E.
Qed.

Lemma slice0_id n s : slice0 n s = s ↔ (String.length s ≤ n)%nat.
Proof.
  revert s. induction n as [|n IH]; intros [|ch r]; cbn [slice0 String.length].
  - split; [lia | done].
  - split; [discriminate | lia].
  - split; [lia | done].
  - rewrite <- Nat.succ_le_mono, <- IH. split; [by intros [= ->] | by intros ->].
Qed.

Lemma jsOr_string t : jsOr (VStr t) (VStr "") = VStr t.
Proof.
  unfold jsOr, truthy. destruct (String.eqb t "") eqn:E; [|reflexivity].
  apply String.eqb_eq in E. by subst.
Qed.

(** X21. A notes commit settles when the text has at most 100 characters.
    With a longer text the commit effect calls again on the chart it has
    produced, but with the same truncated text, so the chart no longer
    changes: the commit is idempotent. *)
Theorem text_commit_settles (c : Chart) tooth s text :
  (textInputEffect (notesCellValue (commitText tooth s text c) tooth s) text = None
   ↔ textInputEffect (notesCellValue c tooth s) text = None
     ∨ (String.length text ≤ 100)%nat)
  ∧ (∀ t, textInputEffect (notesCellValue (commitText tooth s text c) tooth s) text = Some t →
          notesCellValue (commitText tooth s text c) tooth s = VStr t)
  ∧ commitText tooth s text (commitText tooth s text c) = commitText tooth s text c.
Proof.
  assert (V : ∀ t, notesCellValue (handleUpdate tooth s "notes" (VStr t) c) tooth s = VStr t).
  { intros t. unfold notesCellValue. by rewrite cell_value_handleUpdate, jsOr_string. }
  assert (U : ∀ c0 : Chart, commitText tooth s text c0
              = match textInputEffect (notesCellValue c0 tooth s) text with
                | Some t => handleUpdate tooth s "notes" (VStr t) c0
                | None => c0
                end) by reflexivity.
  assert (F : ∀ v t, textInputEffect v text = Some t → t = slice0 100 text).
  { intros v t. unfold textInputEffect. destruct (decide _); congruence. }
  destruct (textInputEffect (notesCellValue c tooth s) text) as [t0|] eqn:H0.
  - pose proof (F _ _ H0) as ->.
    assert (C' : commitText tooth s text c
                 = handleUpdate tooth s "notes" (VStr (slice0 100 text)) c)
      by (by rewrite U, H0).
    rewrite C', V. split; [|split].
    + unfold textInputEffect. split.
      * destruct (decide _) as [|Heq]; [discriminate|]. intros _. right.
        apply dec_stable in Heq. apply slice0_id. congruence.
      * intros [?|Hlen]; [discriminate|]. apply slice0_id in Hlen.
        rewrite decide_False; [reflexivity|]. intros Hne. apply Hne. congruence.
    + intros t Ht. by rewrite (F _ _ Ht).
    + rewrite U, V.
      destruct (textInputEffect (VStr (slice0 100 text)) text) as [t1|] eqn:H1; [|reflexivity].
      rewrite (F _ _ H1). apply handleUpdate_overwrite.
  - assert (C' : commitText tooth s text c = c) by (by rewrite U, H0).
    rewrite C'. split; [|split].
    + split; [by left | intros _; exact H0].
    + intros t. rewrite H0. discriminate.
    + exact C'.
Qed.

End Cells.


Lemma text_commit_settles_witness :
  textInputEffect (notesCellValue (commitText "18" Buccal "bleeds" ∅) "18" Buccal) "bleeds"
  = None.
Proof.
  apply (proj1 (text_commit_settles ∅ "18" Buccal "bleeds")).
  right. vm_compute. lia.
Defined.

(** ** Rendered grid and keyboard *)

Section Keyboard.

Lemma rendered_keys_NoDup : NoDup renderedKeys.
Proof. apply (bool_decide_unpack _). vm_compute. exact I. Qed.

Lemma rendered_keys_in_map :
  Forall (λ k, is_Some (NAVIGATION_MAP !! k)) renderedKeys.
Proof. apply (bool_decide_unpack _). vm_compute. exact I. Qed.

Lemma grid_cells_rendered :
  Forall (λ s, Forall (λ i, Forall (λ j, cellAt i s j ∈ renderedKeys) (seqZ 0 16)) (seqZ 0 32))
         [Buccal; Palatal].
Proof. apply (bool_decide_unpack _). vm_compute. exact I. Qed.

Lemma rendered_keys_grid k : k ∈ renderedKeys ↔ is_Some (NAVIGATION_MAP !! k).
Proof.
  split.
  - intros Hk. pose proof rendered_keys_in_map as F. rewrite Forall_forall in F. by apply F.
  - intros (i & s & j & Hi & Hj & ->)%nav_key_cell.
    pose proof grid_cells_rendered as F. rewrite Forall_forall in F.
    assert (Hs : s ∈ [Buccal; Palatal]) by (destruct s; [left | right; left]).
    specialize (F s Hs). rewrite Forall_forall in F.
    specialize (F i ltac:(apply elem_of_seqZ; lia)). rewrite Forall_forall in F.
    apply F. apply elem_of_seqZ. lia.
Qed.

Lemma head_filter_elem (l : list string) t :
  t ∈ l → head (filter (λ k, k = t) l) = Some t.
Proof.
  induction l as [|a l IH]; [by intros ?%elem_of_nil|].
  intros Ht. rewrite filter_cons. destruct (decide (a = t)) as [-> | Hne]; [reflexivity|].
  apply IH. apply elem_of_cons in Ht as [-> | Ht]; [done | exact Ht].
Qed.

Lemma targetElement_navigate k d : targetElement k d = navigate k d.
Proof.
  unfold targetElement. destruct (navigate k d) as [t|] eqn:Ht; [|reflexivity].
  cbn [mbind option_bind]. apply head_filter_elem. apply rendered_keys_grid.
  destruct (navigate_Some k d t Ht) as [Hk Hd].
  destruct (navigation_is_closed_aux k d Hk Hd) as (t' & Ht' & Hin).
  assert (t = t') as -> by congruence. exact Hin.
Qed.

(** X22. The chart renders exactly the cells of the navigation map, each
    once: 1024 elements with distinct keys, so a navigation target always
    has its element and the key handler of the chart finds it. *)
Theorem every_navigation_target_is_rendered :
  NoDup renderedKeys
  ∧ length renderedKeys = 1024%nat
  ∧ (∀ k, k ∈ renderedKeys ↔ is_Some (NAVIGATION_MAP !! k))
  ∧ (∀ k d, targetElement k d = navigate k d).
Proof.
  split; [exact rendered_keys_NoDup|]. split; [vm_compute; reflexivity|].
  split; [exact rendered_keys_grid | exact targetElement_navigate].
Qed.

Lemma key_handler_shape kind checked readOnly k e :
  cellKeyDown kind checked readOnly k e = []
  ∨ (∃ d, cellKeyDown kind checked readOnly k e = [PreventDefault; OnKeyDown k d]
          ∧ d ∈ directions)
  ∨ (kind = CheckboxCell ∧ key e = " "
     ∧ cellKeyDown kind checked readOnly k e
       = PreventDefault ::
           (if readOnly then [] else [OnChangeChecked (VBool (negb (truthy checked)))])).
Proof.
  assert (D : ∀ d, d ∈ ["next"; "prev"; "up"; "down"] →
            ∃ d', [PreventDefault; OnKeyDown k d] = [PreventDefault; OnKeyDown k d']
                  ∧ d' ∈ directions).
  { intros d Hd. exists d. split; [reflexivity | exact Hd]. }
  destruct kind; cbn [cellKeyDown];
    unfold numberKeyDown, checkboxKeyDown, textKeyDown;
    repeat (destruct (decide _)); destruct (shiftKey e); cbn [negb orb];
    try (by left);
    try (right; left; apply D; set_solver);
    try (destruct (bool_decide _); (by left) || (right; left; apply D; set_solver)).
  - right; right. by destruct readOnly.
  - right; right. by destruct readOnly.
Qed.

(** X23. A key pressed in a cell of the chart either is left to the
    browser, or is taken over by the cell (the default is prevented) and
    moves the focus to a rendered cell along one of the four directions,
    or, in a checkbox cell, is the space bar.  No key does two things. *)
Theorem keys_move_focus_within_the_grid k kind checked readOnly e :
  (k, kind) ∈ renderedCells →
  cellKeyDown kind checked readOnly k e = []
  ∨ (∃ d t, cellKeyDown kind checked readOnly k e = [PreventDefault; OnKeyDown k d]
            ∧ d ∈ directions ∧ targetElement k d = Some t ∧ t ∈ renderedKeys)
  ∨ (kind = CheckboxCell ∧ key e = " "
     ∧ cellKeyDown kind checked readOnly k e
       = PreventDefault ::
           (if readOnly then [] else [OnChangeChecked (VBool (negb (truthy checked)))])).
Proof.
  intros Hk.
  assert (Hin : k ∈ renderedKeys).
  { unfold renderedKeys. apply list_elem_of_fmap. by exists (k, kind). }
  apply rendered_keys_grid in Hin.
  destruct (key_handler_shape kind checked readOnly k e) as [H | [(d & H & Hd) | H]].
  - by left.
  - right; left. destruct (navigation_is_closed_aux k d Hin Hd) as (t & Ht & Hmap).
    exists d, t. split; [exact H|]. split; [exact Hd|].
    split; [by rewrite targetElement_navigate | by apply rendered_keys_grid].
  - by right; right.
Qed.

(** X24. Number and checkbox cells handle the navigation keys alike, the
    space bar apart.  The notes cell handles only Tab; Shift+Tab moves back
    there, while number and checkbox cells leave it to the browser. *)
Theorem key_handlers_compared checked readOnly k e :
  (key e ≠ " " → checkboxKeyDown checked readOnly k e = numberKeyDown k e)
  ∧ (textKeyDown k e ≠ [] → key e = "Tab")
  ∧ (key e = "Tab" →
       if shiftKey e
       then textKeyDown k e = [PreventDefault; OnKeyDown k "prev"] ∧ numberKeyDown k e = []
       else textKeyDown k e = numberKeyDown k e ∧ numberKeyDown k e ≠ [])
  ∧ (key e = "ArrowLeft" → numberKeyDown k e = [PreventDefault; OnKeyDown k "prev"]).
Proof.
  unfold checkboxKeyDown, numberKeyDown, textKeyDown. repeat split.
  - intros Hsp. repeat (destruct (decide _)); try done.
  - destruct (decide _); done.
  - intros ->. destruct (shiftKey e); split; try reflexivity. discriminate.
  - intros ->. by destruct (shiftKey e).
Qed.

Lemma handleUpdate_same tooth s field v td (c : Chart) :
  c !! tooth = Some td → getSurface td s !! field = Some v →
  handleUpdate tooth s field v c = c.
Proof.
  intros Hc Hv. apply map_eq. intros t. rewrite handleUpdate_lookup.
  destruct (decide (t = tooth)) as [-> | Hne]; [|reflexivity].
  rewrite Hc. cbv zeta. cbn [default from_option]. unfold id.
  rewrite insert_id by exact Hv. by destruct td, s.
Qed.

Lemma jsOr_bool b : jsOr (VBool b) (VBool false) = VBool b.
Proof. by destruct b. Qed.

(** X25. In a checkbox cell only the space bar changes the chart, and not
    when the chart is read-only.  It stores the negation of the flag's
    truthiness; pressed twice it stores the truthiness itself, which gives
    the chart back when the flag held a boolean. *)
Theorem space_bar_toggles_the_flag tooth s field e (c : Chart) :
  pressCheckbox tooth s field true e c = c
  ∧ (key e ≠ " " → pressCheckbox tooth s field false e c = c)
  ∧ (key e = " " →
       pressCheckbox tooth s field false e c
       = handleUpdate tooth s field
           (VBool (negb (truthy (checkboxCellValue c tooth s field)))) c
       ∧ pressCheckbox tooth s field false e (pressCheckbox tooth s field false e c)
         = handleUpdate tooth s field (VBool (truthy (checkboxCellValue c tooth s field))) c
       ∧ (∀ td b, c !! tooth = Some td → getSurface td s !! field = Some (VBool b) →
            pressCheckbox tooth s field false e (pressCheckbox tooth s field false e c) = c)).
Proof.
  assert (N : ∀ (c0 : Chart) ro checked, key e ≠ " " →
            foldl (λ c1 effect, match effect with
                                | OnChangeChecked v => handleUpdate tooth s field v c1
                                | _ => c1
                                end) c0
              (checkboxKeyDown checked ro (cellKey tooth (surfaceName s) field) e) = c0).
  { intros c0 ro checked Hk. unfold checkboxKeyDown.
    repeat (destruct (decide _)); try done;
      destruct (shiftKey e); cbn [negb orb]; try reflexivity;
      destruct (bool_decide _); reflexivity. }
  assert (P : ∀ c0 : Chart, key e = " " →
            pressCheckbox tooth s field false e c0
            = handleUpdate tooth s field
                (VBool (negb (truthy (checkboxCellValue c0 tooth s field)))) c0).
  { intros c0 Hk. unfold pressCheckbox, checkboxKeyDown. rewrite Hk. reflexivity. }
  split; [|split].
  - destruct (decide (key e = " ")) as [Hk | Hk]; [|by apply N].
    unfold pressCheckbox, checkboxKeyDown. rewrite Hk. reflexivity.
  - intros Hk. by apply N.
  - intros Hk.
    assert (T : pressCheckbox tooth s field false e (pressCheckbox tooth s field false e c)
                = handleUpdate tooth s field
                    (VBool (truthy (checkboxCellValue c tooth s field))) c).
    { rewrite (P c Hk), P by exact Hk. unfold checkboxCellValue at 1.
      rewrite cell_value_handleUpdate, jsOr_bool. cbn [truthy]. rewrite negb_involutive.
      apply handleUpdate_overwrite. }
    split; [by apply P|]. split; [exact T|].
    intros td b Hc Hv. rewrite T. unfold checkboxCellValue, getProp. rewrite Hc.
    cbn [fmap option_fmap option_map from_option]. unfold id. rewrite Hv.
    cbn [from_option]. rewrite jsOr_bool. cbn [truthy].
    by apply handleUpdate_same with td.
Qed.

End Keyboard.

Lemma keys_move_focus_within_the_grid_witness :
  cellKeyDown NumberCell VUndefined false "18-buccal-mobility" (mkKeyboardEvent "Tab" false) = []
  ∨ (∃ d t, cellKeyDown NumberCell VUndefined false "18-buccal-mobility"
              (mkKeyboardEvent "Tab" false)
            = [PreventDefault; OnKeyDown "18-buccal-mobility" d]
            ∧ d ∈ directions ∧ targetElement "18-buccal-mobility" d = Some t
            ∧ t ∈ renderedKeys)
  ∨ (NumberCell = CheckboxCell ∧ key (mkKeyboardEvent "Tab" false) = " "
     ∧ cellKeyDown NumberCell VUndefined false "18-buccal-mobility"
         (mkKeyboardEvent "Tab" false)
       = PreventDefault ::
           (if false then [] else [OnChangeChecked (VBool (negb (truthy VUndefined)))])).
Proof.
  apply (keys_move_focus_within_the_grid "18-buccal-mobility" NumberCell VUndefined false
           (mkKeyboardEvent "Tab" false)).
  apply (bool_decide_unpack _). vm_compute. exact I.
Defined.

Lemma key_handlers_compared_witness :
  textKeyDown "18-buccal-notes" (mkKeyboardEvent "Tab" true)
  = [PreventDefault; OnKeyDown "18-buccal-notes" "prev"]
  ∧ numberKeyDown "18-buccal-notes" (mkKeyboardEvent "Tab" true) = [].
Proof.
  apply (proj1 (proj2 (proj2 (key_handlers_compared VUndefined false "18-buccal-notes"
                                (mkKeyboardEvent "Tab" true))))).
  reflexivity.
Defined.

Lemma space_bar_toggles_the_flag_witness :
  pressCheckbox "18" Buccal "implant" false (mkKeyboardEvent " " false)
    (pressCheckbox "18" Buccal "implant" false (mkKeyboardEvent " " false)
       {[ "18" := {| buccal := createDefaultMeasurement;
                     palatal := createDefaultMeasurement |} ]})
  = {[ "18" := {| buccal := createDefaultMeasurement; palatal := createDefaultMeasurement |} ]}.
Proof.
  apply (proj2 (proj2 (proj2 (proj2 (space_bar_toggles_the_flag "18" Buccal "implant"
                                       (mkKeyboardEvent " " false)
                                       {[ "18" := {| buccal := createDefaultMeasurement;
                                                     palatal := createDefaultMeasurement |} ]}))
                        eq_refl))
           {| buccal := createDefaultMeasurement; palatal := createDefaultMeasurement |} false).
  - vm_compute. reflexivity.
  - vm_compute. reflexivity.
Defined.

(** ** Error marks *)

Section ErrorMarks.

Lemma headers_catalogue :
  NoDup headers
  ∧ Forall (λ h : string * Surface, h.1 ∈ ALL_TEETH) headers
  ∧ Forall (λ tooth, (tooth, Buccal) ∈ headers ∧ (tooth, Palatal) ∈ headers) ALL_TEETH.
Proof. split; [|split]; apply (bool_decide_unpack _); vm_compute; exact I. Qed.

Lemma headers_elem tooth s : (tooth, s) ∈ headers ↔ tooth ∈ ALL_TEETH.
Proof.
  destruct headers_catalogue as (_ & F1 & F2). split.
  - intros H. exact (proj1 (Forall_forall _ _) F1 _ H).
  - intros H. destruct (proj1 (Forall_forall _ _) F2 _ H) as [Hb Hp]. by destruct s.
Qed.

Lemma headerClass_red (c : Chart) tooth s :
  tooth ∈ ALL_TEETH →
  headerClass (validationErrors c) tooth s = "text-red-600" ↔ violationsAt c tooth s ≠ ∅.
Proof.
  intros Ht. unfold headerClass.
  destruct (validationErrors c !! surfaceKey tooth s) as [E|] eqn:HE.
  - apply validationErrors_lookup in HE as (tooth' & s' & Ht' & He).
    apply errorsFor_violationsAt in He as (Hk & -> & Hne).
    destruct (surfaceKey_components _ _ _ _ Ht Ht' Hk) as [<- <-].
    cbn [fmap option_fmap option_map from_option truthy]. unfold id.
    assert (size (violationsAt c tooth s) ≠ 0) by (by intros ?%size_empty_inv%leibniz_equiv).
    unfold truthy.
    replace (Z.of_nat (size (violationsAt c tooth s)) =? 0)%Z with false
      by (symmetry; apply Z.eqb_neq; lia).
    done.
  - cbn [fmap option_fmap option_map from_option truthy]. split; [discriminate|].
    intros Hne. exfalso.
    assert (validationErrors c !! surfaceKey tooth s = Some (violationsAt c tooth s)) as H.
    { apply validationErrors_lookup. exists tooth, s. split; [done|].
      by apply errorsFor_violationsAt. }
    congruence.
Qed.

(** X26. A tooth header is marked red exactly when the measurement of that
    tooth on the section's surface has a violation, and the number in the
    title is the number of red headers, not of violations; the title shows
    no number exactly when the chart may be submitted. *)
Theorem error_marks_follow_validation (c : Chart) :
  (∀ tooth s, (tooth, s) ∈ headers →
     headerClass (validationErrors c) tooth s = "text-red-600"
     ↔ violationsAt c tooth s ≠ ∅)
  ∧ size (validationErrors c)
    = length (filter (λ h, headerClass (validationErrors c) h.1 h.2 = "text-red-600") headers)
  ∧ (titleErrors (validationErrors c) = None ↔ isDataValid c = true).
Proof.
  split; [|split].
  - intros tooth s Hh. apply headerClass_red. by apply headers_elem in Hh.
  - set (red := filter (λ h, headerClass (validationErrors c) h.1 h.2 = "text-red-600") headers).
    assert (D : dom (validationErrors c)
                = list_to_set ((λ h : string * Surface, surfaceKey h.1 h.2) <$> red)).
    { apply set_eq. intros k. rewrite elem_of_dom, elem_of_list_to_set, list_elem_of_fmap.
      split.
      - intros [E HE]. apply validationErrors_lookup in HE as (tooth & s & Ht & He).
        apply errorsFor_violationsAt in He as (-> & -> & Hne).
        exists (tooth, s). split; [reflexivity|]. subst red. apply list_elem_of_filter.
        split; [by apply headerClass_red | by apply headers_elem].
      - intros ([tooth s] & -> & Hr). subst red. apply list_elem_of_filter in Hr as [Hr Hh].
        cbn [fst snd] in *. apply headers_elem in Hh.
        apply headerClass_red in Hr; [|done].
        exists (violationsAt c tooth s). apply validationErrors_lookup.
        exists tooth, s. split; [done|]. by apply errorsFor_violationsAt. }
    rewrite <- size_dom, D, size_list_to_set, length_fmap; [reflexivity|].
    apply NoDup_fmap_2_strong.
    + intros [t1 s1] [t2 s2] H1 H2 Heq. subst red.
      apply list_elem_of_filter in H1 as [_ H1]. apply list_elem_of_filter in H2 as [_ H2].
      apply headers_elem in H1. apply headers_elem in H2. cbn [fst snd] in Heq.
      destruct (surfaceKey_components _ _ _ _ H1 H2 Heq) as [-> ->]. reflexivity.
    + subst red. apply NoDup_filter. apply headers_catalogue.
  - unfold titleErrors, isDataValid. rewrite bool_decide_eq_true.
    destruct (decide _); split; try done; lia.
Qed.

End ErrorMarks.

Lemma error_marks_follow_validation_witness :
  headerClass (validationErrors oneDepthTwenty) "18" Buccal = "text-red-600"
  ↔ violationsAt oneDepthTwenty "18" Buccal ≠ ∅.
Proof.
  apply (proj1 (error_marks_follow_validation oneDepthTwenty) "18" Buccal).
  apply (bool_decide_unpack _). vm_compute. exact I.
Defined.

(** ** Summary statistics and edits *)

Section SummaryAndEdits.

Lemma sitesOf_update_rel (c : Chart) tooth s f v teeth :
  Forall2 (λ m m' : Obj, m' = m ∨ m' = <[f := v]> m)
          (sitesOf c teeth) (sitesOf (handleUpdate tooth s f v c) teeth)
  ∨ c !! tooth = None.
Proof.
  destruct (c !! tooth) as [td|] eqn:Hc; [left | by right].
  induction teeth as [|t teeth IH]; [constructor|].
  unfold sitesOf in *. cbn [mbind list_bind]. apply Forall2_app; [|exact IH].
  rewrite handleUpdate_lookup. destruct (decide (t = tooth)) as [-> | Hne].
  - rewrite Hc. cbv zeta. cbn [default from_option]. unfold id.
    destruct s; cbn [setSurface getSurface buccal palatal];
      (constructor; [auto | constructor; [auto | constructor]]).
  - destruct (c !! t); [|constructor].
    constructor; [auto | constructor; [auto | constructor]].
Qed.

Lemma rel_bind f v (g : Obj → list JsVal) (l l' : list Obj) :
  (∀ m, g (<[f := v]> m) = g m) →
  Forall2 (λ m m' : Obj, m' = m ∨ m' = <[f := v]> m) l l' → l' ≫= g = l ≫= g.
Proof.
  intros Hg F. induction F as [|m m' l l' [-> | ->] F IH]; [reflexivity|..];
    cbn [mbind list_bind]; rewrite ?Hg; by f_equal.
Qed.

Lemma rel_sitesWith f v (p : Obj → bool) (l l' : list Obj) :
  (∀ m, p (<[f := v]> m) = p m) →
  Forall2 (λ m m' : Obj, m' = m ∨ m' = <[f := v]> m) l l' → sitesWith p l' = sitesWith p l.
Proof.
  intros Hp F. unfold sitesWith. induction F as [|m m' l l' [-> | ->] F IH]; [reflexivity|..];
    cbn [List.filter]; rewrite ?Hp; destruct (p m); cbn [length]; by rewrite IH.
Qed.

Lemma summaryFields_elem f :
  f ∉ summaryFields →
  (f ∉ probingDepthFields) ∧ (f ∉ gingivalMarginFields) ∧ (f ∉ plaqueFields)
  ∧ (f ∉ bleedingFields).
Proof. unfold summaryFields. rewrite !elem_of_app. tauto. Qed.

Lemma getProp_insert_ne f g v (m : Obj) : f ≠ g → getProp (<[f := v]> m) g = getProp m g.
Proof. intros Hne. unfold getProp. by rewrite lookup_insert_ne. Qed.

Lemma not_elem_three (f a b c : string) : f ∉ [a; b; c] → f ≠ a ∧ f ≠ b ∧ f ≠ c.
Proof. rewrite !not_elem_of_cons. tauto. Qed.

(** X27. The summary reads twelve fields of a measurement: an update of any
    other field of a tooth that the chart has leaves all four statistics as
    they were. *)
Theorem summary_reads_only_its_fields (c : Chart) tooth s field value :
  is_Some (c !! tooth) → field ∉ summaryFields →
  collectStats (handleUpdate tooth s field value c) = collectStats c
  ∧ summaryStats (handleUpdate tooth s field value c) = summaryStats c.
Proof.
  intros [td Hc] Hf.
  apply summaryFields_elem in Hf as (Hd & Hm & Hp & Hb).
  apply not_elem_three in Hd as (D1 & D2 & D3). apply not_elem_three in Hm as (M1 & M2 & M3).
  apply not_elem_three in Hp as (P1 & P2 & P3). apply not_elem_three in Hb as (B1 & B2 & B3).
  assert (E : collectStats (handleUpdate tooth s field value c) = collectStats c).
  { rewrite !collectStats_sites. unfold sites.
    destruct (sitesOf_update_rel c tooth s field value ALL_TEETH) as [F | Hn]; [|congruence].
    rewrite (rel_bind field value siteDepths _ _) by
      (try exact F; intros m; unfold siteDepths; by rewrite !getProp_insert_ne).
    rewrite (rel_bind field value siteMargins _ _) by
      (try exact F; intros m; unfold siteMargins; by rewrite !getProp_insert_ne).
    rewrite (rel_sitesWith field value anyPlaque _ _) by
      (try exact F; intros m; unfold anyPlaque; by rewrite !getProp_insert_ne).
    rewrite (rel_sitesWith field value anyBleeding _ _) by
      (try exact F; intros m; unfold anyBleeding; by rewrite !getProp_insert_ne).
    by rewrite (Forall2_length _ _ _ F). }
  split; [exact E|]. unfold summaryStats. by rewrite E.
Qed.

Lemma sumList_app xs ys : sumList (xs ++ ys)%list = (sumList xs + sumList ys)%Z.
Proof.
  unfold sumList. induction xs as [|x xs IH]; cbn [app foldr]; [reflexivity|].
  rewrite IH. lia.
Qed.

Lemma getProp_insert f v (m : Obj) : getProp (<[f := v]> m) f = v.
Proof. unfold getProp. by rewrite lookup_insert_eq. Qed.

Lemma siteDepths_update (m : Obj) field old new zs :
  field ∈ probingDepthFields → getProp m field = VNum old →
  siteDepths m = VNum <$> zs →
  ∃ zs', siteDepths (<[field := VNum new]> m) = VNum <$> zs'
         ∧ sumList zs' = (sumList zs - old + new)%Z.
Proof.
  intros Hf Hold Hzs. unfold siteDepths in *.
  destruct zs as [|a [|b [|d [|]]]]; try discriminate.
  cbn [fmap list_fmap] in Hzs. injection Hzs as Ha Hb Hd.
  unfold probingDepthFields in Hf.
  apply elem_of_cons in Hf as [-> | Hf]; [|apply elem_of_cons in Hf as [-> | Hf];
    [|apply elem_of_cons in Hf as [-> | Hf]; [|by apply elem_of_nil in Hf]]].
  - exists [new; b; d]. rewrite getProp_insert, !getProp_insert_ne by done.
    rewrite Hb, Hd. split; [reflexivity|].
    assert (a = old) by congruence. unfold sumList. cbn [foldr]. lia.
  - exists [a; new; d]. rewrite getProp_insert, !getProp_insert_ne by done.
    rewrite Ha, Hd. split; [reflexivity|].
    assert (b = old) by congruence. unfold sumList. cbn [foldr]. lia.
  - exists [a; b; new]. rewrite getProp_insert, !getProp_insert_ne by done.
    rewrite Ha, Hb. split; [reflexivity|].
    assert (d = old) by congruence. unfold sumList. cbn [foldr]. lia.
Qed.

Lemma depths_shift (c : Chart) tooth s field old new td teeth :
  c !! tooth = Some td → getProp (getSurface td s) field = VNum old →
  field ∈ probingDepthFields → NoDup teeth →
  ∀ zs, sitesOf c teeth ≫= siteDepths = VNum <$> zs →
    ∃ zs', sitesOf (handleUpdate tooth s field (VNum new) c) teeth ≫= siteDepths = VNum <$> zs'
           ∧ sumList zs'
             = (sumList zs + if decide (tooth ∈ teeth) then new - old else 0)%Z.
Proof.
  intros Hc Hold Hf. induction teeth as [|t teeth IH]; intros Hnd zs Hzs.
  - exists zs. split; [exact Hzs|]. rewrite decide_False by apply not_elem_of_nil. lia.
  - apply NoDup_cons in Hnd as [Ht Hnd].
    unfold sitesOf in Hzs |- *. cbn [mbind list_bind] in Hzs |- *.
    rewrite bind_app in Hzs |- *. fold (sitesOf c teeth) in Hzs.
    fold (sitesOf (handleUpdate tooth s field (VNum new) c) teeth).
    symmetry in Hzs. apply fmap_app_inv in Hzs as (za & zb & Ha & Hb & ->).
    destruct (IH Hnd zb Hb) as (zb' & Hb' & Sb).
    rewrite handleUpdate_lookup. destruct (decide (t = tooth)) as [-> | Hne].
    + rewrite Hc in Ha |- *. cbv zeta. cbn [default from_option]. unfold id.
      rewrite decide_False in Sb by done. rewrite decide_True by left.
      cbn [mbind list_bind] in Ha |- *. rewrite app_nil_r in Ha |- *.
      symmetry in Ha. apply fmap_app_inv in Ha as (z1 & z2 & H1 & H2 & ->).
      destruct s; cbn [setSurface getSurface buccal palatal] in Hold |- *.
      * destruct (siteDepths_update _ field old new z1 Hf Hold H1) as (z1' & E1 & S1).
        exists ((z1' ++ z2) ++ zb')%list. rewrite !fmap_app, E1, H2, Hb'.
        split; [reflexivity|]. rewrite !sumList_app. lia.
      * destruct (siteDepths_update _ field old new z2 Hf Hold H2) as (z2' & E2 & S2).
        exists ((z1 ++ z2') ++ zb')%list. rewrite !fmap_app, E2, H1, Hb'.
        split; [reflexivity|]. rewrite !sumList_app. lia.
    + exists (za ++ zb')%list. rewrite fmap_app, Ha, Hb'. split; [reflexivity|].
      rewrite !sumList_app, Sb.
      destruct (decide (tooth ∈ teeth)) as [Hin | Hin].
      * rewrite decide_True by (by right). lia.
      * rewrite decide_False; [lia|]. intros [?|?]%elem_of_cons; done.
Qed.

(** X28. The statistic shown as "Mean Probing Depth" is the mean of the
    probing depths, printed with one fraction digit: 192 values on a chart
    with all 32 teeth.  Storing the number [new] in a depth field that held
    [old] moves the sum of the depths by [new - old]. *)
Theorem mean_depth_follows_edits (c : Chart) :
  ("Mean Probing Depth", meanDepth (summaryStats c)) ∈ summaryPanel (summaryStats c)
  ∧ meanDepth (summaryStats c) = toFixed 1 <$> meanOf (sites c ≫= siteDepths)
  ∧ (fullyPopulated c →
     ∀ zs, sites c ≫= siteDepths = VNum <$> zs →
       length zs = 192
       ∧ meanDepth (summaryStats c) = Some (toFixed 1 (sumList zs # 192))
       ∧ ∀ tooth s field old new,
           tooth ∈ ALL_TEETH → field ∈ probingDepthFields →
           storedNumber c tooth s field = Some old →
           meanDepth (summaryStats (handleUpdate tooth s field (VNum new) c))
           = Some (toFixed 1 ((sumList zs - old + new) # 192))).
Proof.
  assert (M : ∀ c : Chart,
            meanDepth (summaryStats c) = toFixed 1 <$> meanOf (sites c ≫= siteDepths)).
  { intros c0. unfold summaryStats. cbv zeta. cbn [meanDepth].
    rewrite collectStats_sites. reflexivity. }
  assert (F : ∀ (c0 : Chart) zs, fullyPopulated c0 → sites c0 ≫= siteDepths = VNum <$> zs →
            length zs = 192
            ∧ meanDepth (summaryStats c0) = Some (toFixed 1 (sumList zs # 192))).
  { intros c0 zs Hfull Hzs.
    assert (L : length (sites c0 ≫= siteDepths) = 192).
    { unfold sites. rewrite sitesOf_populated_length by done.
      fold (sites c0). rewrite sites_length by done. reflexivity. }
    split; [by rewrite Hzs, length_fmap in L|].
    rewrite M. unfold meanOf. rewrite L. rewrite decide_True by lia.
    rewrite Hzs, sumNumbers_numbers. reflexivity. }
  split; [|split; [apply M|]].
  - unfold summaryPanel. left.
  - intros Hfull zs Hzs. destruct (F c zs Hfull Hzs) as [L E].
    split; [exact L|]. split; [exact E|].
    intros tooth s field old new Ht Hf Hold. unfold storedNumber in Hold.
    destruct (c !! tooth) as [td|] eqn:Hc; [|discriminate].
    assert (Hv : getProp (getSurface td s) field = VNum old)
      by (destruct (getProp (getSurface td s) field); congruence).
    destruct (depths_shift c tooth s field old new td ALL_TEETH Hc Hv Hf
                (proj1 teeth_NoDup) zs Hzs) as (zs' & Hzs' & S').
    rewrite decide_True in S' by done.
    destruct (F _ zs' (handleUpdate_populated tooth s field (VNum new) c Hfull) Hzs')
      as [_ E'].
    rewrite E', S'. do 3 f_equal. lia.
Qed.

Lemma sitesOf_length_le (c : Chart) teeth : (length (sitesOf c teeth) ≤ 2 * length teeth)%nat.
Proof.
  induction teeth as [|t teeth IH]; [reflexivity|].
  unfold sitesOf in *. cbn [mbind list_bind]. rewrite length_app.
  destruct (c !! t); cbn [length]; lia.
Qed.

Lemma sitesOf_absent (c : Chart) teeth :
  (∀ tooth, tooth ∈ teeth → c !! tooth = None) → sitesOf c teeth = [].
Proof.
  induction teeth as [|t teeth IH]; intros Hall; [reflexivity|].
  unfold sitesOf in *. cbn [mbind list_bind].
  rewrite (Hall t) by left. rewrite IH by (intros t' Ht'; apply Hall; by right). reflexivity.
Qed.

Lemma sitesWith_le p (l : list Obj) : (sitesWith p l ≤ length l)%nat.
Proof.
  unfold sitesWith. induction l as [|m l IH]; cbn [List.filter length]; [lia|].
  destruct (p m); cbn [length]; lia.
Qed.

(** A share of [n] sites, in percent and printed with no fraction digits,
    is a whole number from 0 to 100. *)
Lemma toFixed_percent (k n : nat) :
  (0 < n)%nat → (k ≤ n)%nat →
  ∃ p : N, toFixed 0 ((Z.of_nat k # Pos.of_nat n) * 100) = pretty p ∧ (p ≤ 100)%N.
Proof.
  intros Hn Hk.
  exists (Z.to_N ((200 * Z.of_nat k + Z.of_nat n) / (2 * Z.of_nat n))).
  assert (Hp : Z.pos (Pos.of_nat n) = Z.of_nat n).
  { rewrite <- positive_nat_Z, Nat2Pos.id by lia. reflexivity. }
  split.
  - unfold toFixed. cbn [Qmult Qnum Qden Qabs].
    rewrite bool_decide_eq_false_2 by lia.
    rewrite decide_True by reflexivity.
    lazymatch goal with |- "" +:+ ?a = _ => change ("" +:+ a) with a end.
    f_equal. rewrite Z.abs_eq by lia.
    unfold Qfloor. cbn [Qmult Qplus inject_Z Qnum Qden].
    change (10 ^ Z.of_nat 0)%Z with 1%Z.
    rewrite !Pos.mul_1_r, Pos2Z.inj_mul, Hp.
    f_equal. f_equal; lia.
  - assert ((200 * Z.of_nat k + Z.of_nat n) / (2 * Z.of_nat n) < 101)%Z
      by (apply Z.div_lt_upper_bound; lia).
    assert (0 ≤ (200 * Z.of_nat k + Z.of_nat n) / (2 * Z.of_nat n))%Z
      by (apply Z.div_pos; lia).
    lia.
Qed.

(** X29. Whatever the chart holds, the summary counts at most 64 sites, and
    no more sites with plaque or bleeding than sites, so both percentages
    are whole numbers from 0 to 100.  A chart with none of the catalogue
    teeth has no site, and its summary shows zeros. *)
Theorem summary_of_any_chart (c : Chart) :
  totalSites (collectStats c) = length (sites c)
  ∧ (totalSites (collectStats c) ≤ 64)%nat
  ∧ (plaqueCount (collectStats c) ≤ totalSites (collectStats c))%nat
  ∧ (bleedingCount (collectStats c) ≤ totalSites (collectStats c))%nat
  ∧ (∃ p b : N, plaquePercent (summaryStats c) = pretty p
                ∧ bleedingPercent (summaryStats c) = pretty b
                ∧ (p ≤ 100)%N ∧ (b ≤ 100)%N)
  ∧ ((∀ tooth, tooth ∈ ALL_TEETH → c !! tooth = None) →
       summaryStats c = mkSummary (Some "0.0") (Some "0.0") "0" "0").
Proof.
  assert (L : (length (sites c) ≤ 64)%nat) by apply (sitesOf_length_le c ALL_TEETH).
  pose proof (sitesWith_le anyPlaque (sites c)) as Lp.
  pose proof (sitesWith_le anyBleeding (sites c)) as Lb.
  unfold summaryStats. cbv zeta. rewrite collectStats_sites.
  cbn [totalSites plaqueCount bleedingCount depths margins plaquePercent bleedingPercent].
  split; [reflexivity|]. split; [exact L|]. split; [exact Lp|]. split; [exact Lb|]. split.
  - destruct (decide (0 < length (sites c))) as [Hpos | Hz].
    + destruct (toFixed_percent _ _ Hpos Lp) as (p & Ep & Hp).
      destruct (toFixed_percent _ _ Hpos Lb) as (b & Eb & Hb).
      exists p, b. auto.
    + exists 0%N, 0%N. repeat split; lia.
  - intros Hall. unfold sites. rewrite (sitesOf_absent c ALL_TEETH Hall). reflexivity.
Qed.

End SummaryAndEdits.

Lemma summary_reads_only_its_fields_witness :
  collectStats (handleUpdate "18" Buccal "notes" (VStr "deep pocket") allDepthsThree)
  = collectStats allDepthsThree
  ∧ summaryStats (handleUpdate "18" Buccal "notes" (VStr "deep pocket") allDepthsThree)
    = summaryStats allDepthsThree.
Proof.
  apply (summary_reads_only_its_fields allDepthsThree "18" Buccal "notes" (VStr "deep pocket")).
  - apply allDepthsThree_populated. unfold ALL_TEETH. left.
  - apply (bool_decide_unpack _). vm_compute. exact I.
Defined.

Lemma mean_depth_follows_edits_witness :
  meanDepth (summaryStats (handleUpdate "18" Buccal "probing_depth_mid" (VNum 6) allDepthsThree))
  = Some (toFixed 1 ((sumList (replicate 192 3%Z) - 3 + 6) # 192)).
Proof.
  apply (proj2 (proj2 (proj2 (proj2 (mean_depth_follows_edits allDepthsThree))
                         allDepthsThree_populated (replicate 192 3%Z)
                         ltac:(vm_compute; reflexivity)))).
  - unfold ALL_TEETH. left.
  - unfold probingDepthFields. right. left.
  - vm_compute. reflexivity.
Defined.

Lemma summary_of_any_chart_witness :
  summaryStats ∅ = mkSummary (Some "0.0") (Some "0.0") "0" "0".
Proof.
  apply (proj2 (proj2 (proj2 (proj2 (proj2 (summary_of_any_chart ∅)))))).
  intros tooth _. apply lookup_empty.
Defined.

(** ** CSV export *)

Section CsvExport.

Lemma countChar_app c s t : countChar c (s ++ t) = countChar c s + countChar c t.
Proof.
  induction s as [|a s IH]; [reflexivity|].
  change (String a s ++ t) with (String a (s ++ t)). cbn [countChar]. rewrite IH. lia.
Qed.

Lemma countChar_join c xs :
  countChar c (join (String c "") xs)
  = length xs - 1 + sum_list (countChar c <$> xs).
Proof.
  unfold join. induction xs as [|x xs IH]; [reflexivity|].
  destruct xs as [|y xs].
  - cbn [String.concat fmap list_fmap sum_list sum_list_with length]. unfold id. lia.
  - change (String.concat (String c "") (x :: y :: xs))
      with (x ++ String c "" ++ String.concat (String c "") (y :: xs)).
    rewrite !countChar_app, IH. cbn [countChar]. rewrite Ascii.eqb_refl.
    cbn [fmap list_fmap sum_list sum_list_with length]. unfold id. lia.
Qed.

Lemma exportRows_length entries : length (exportRows entries) = 2 * length entries.
Proof.
  unfold exportRows. induction entries as [|[tooth td] entries IH]; [reflexivity|].
  cbn [mbind list_bind]. rewrite length_app, IH. cbn [fmap list_fmap length]. lia.
Qed.

Lemma exportRows_elem entries row :
  row ∈ exportRows entries
  ↔ ∃ tooth td, (tooth, td) ∈ entries
      ∧ (row = csvRow tooth "buccal" (buccal td) ∨ row = csvRow tooth "palatal" (palatal td)).
Proof.
  unfold exportRows. rewrite list_elem_of_bind. split.
  - intros ([tooth td] & Hrow & Hin). exists tooth, td. split; [exact Hin|].
    cbn [fmap list_fmap] in Hrow. apply elem_of_cons in Hrow as [-> | Hrow]; [by left|].
    apply elem_of_cons in Hrow as [-> | Hrow]; [by right | by apply elem_of_nil in Hrow].
  - intros (tooth & td & Hin & Hrow). exists (tooth, td). split; [|exact Hin].
    cbn [fmap list_fmap]. destruct Hrow as [-> | ->]; [left | right; left].
Qed.

(** X30. The CSV export writes the header line and two lines for each tooth,
    every line with 18 columns when no cell contains a separator.  Cells
    are not escaped: a comma or a line break in a cell, for instance in the
    notes, adds a column or a line.  The field [present] is not exported. *)
Theorem csv_export_shape (entries : list (string * ToothData)) :
  length (exportRows entries) = 2 * length entries
  ∧ Forall (λ row, length row = 18) (csvHeaders :: exportRows entries)
  ∧ (∀ row, row ∈ exportRows entries →
       countChar "," (join "," row) = 17 + sum_list (countChar "," <$> row))
  ∧ countChar "010" (exportToCSV entries)
    = 2 * length entries
      + sum_list (countChar "010" <$> (join "," <$> csvHeaders :: exportRows entries))
  ∧ (∀ tooth td s v,
       exportRows [(tooth, setSurface td s (<["present" := v]> (getSurface td s)))]
       = exportRows [(tooth, td)]).
Proof.
  assert (L : ∀ row, row ∈ exportRows entries → length row = 18).
  { intros row (tooth & td & _ & [-> | ->])%exportRows_elem; reflexivity. }
  split; [apply exportRows_length|]. split; [|split; [|split]].
  - constructor; [reflexivity|]. apply Forall_forall. exact L.
  - intros row Hrow.
    rewrite countChar_join, (L row Hrow). reflexivity.
  - unfold exportToCSV. rewrite countChar_join. cbn [length].
    rewrite length_fmap, exportRows_length. cbn [fmap list_fmap]. lia.
  - intros tooth td s v. unfold exportRows. cbn [mbind list_bind fmap list_fmap].
    unfold csvRow.
    destruct s; cbn [setSurface getSurface buccal palatal];
      by rewrite !getProp_insert_ne by done.
Qed.

End CsvExport.

Lemma csv_export_shape_witness :
  countChar "," (join "," (csvRow "18" "buccal" {[ "notes" := VStr "deep, bleeding" ]}))
  = 17 + sum_list (countChar "," <$> csvRow "18" "buccal" {[ "notes" := VStr "deep, bleeding" ]}).
Proof.
  apply (proj1 (proj2 (proj2 (csv_export_shape
           [("18", {| buccal := {[ "notes" := VStr "deep, bleeding" ]}; palatal := ∅ |})])))).
  left.
Defined.
